(** * IrisVault: the iris biometric pipeline of [backend/biometric_engine.py]

    A shallow embedding of [IrisBiometricEngine] and of the behaviour its
    natural-language specification states.  The repository's own code (the
    control flow of every method, the bounding-box arithmetic, the feature
    concatenation, the encryption envelope, the decision rules) is translated
    function by function.  What the methods call in third-party packages is
    either modelled from the package's documented behaviour ([base64],
    [Crypto.Util.Padding], CBC chaining, the elementary [numpy] statistics)
    or, for the image-processing and block-cipher kernels, taken as an
    interface with the contract the engine relies on.

    Numbers: pixel intensities and array shapes are integers ([Z]); a
    [float32] array that is serialised is a list of 32-bit patterns; the
    arithmetic on feature values, quality scores and match scores is carried
    out over the real numbers ([R]), the rounding of machine floats being
    abstracted. *)

From Stdlib Require Import ZArith NArith String Ascii DecimalString Bool Lia List.
From Stdlib Require Import QArith Qround.
From Stdlib Require Import Reals Lra Psatz.
From Stdlib.Strings Require Byte.
Import ListNotations.

Local Open Scope Z_scope.

Abbreviation byte := Byte.byte.

(** The decimal numeral of a number, as [%d] prints it. *)
Definition str_of_nat (n : nat) : string := NilZero.string_of_uint (Nat.to_uint n).

(** ** Exceptions

    Python code that can raise is a computation in [exc]; a [try]/[except
    Exception] block is a handler applied to such a computation. *)

Inductive exc (A : Type) : Type :=
| Ok (a : A)
| Raise (msg : string).
Arguments Ok {A} a.
Arguments Raise {A} msg.

Definition bind {A B} (c : exc A) (k : A -> exc B) : exc B :=
  match c with
  | Ok a => k a
  | Raise m => Raise m
  end.

Declare Scope exc_scope.
Delimit Scope exc_scope with exc.
Notation "x <- c ;; k" := (bind c (fun x => k))
  (at level 61, c at next level, right associativity) : exc_scope.
Notation "' p <- c ;; k" := (bind c (fun x => let p := x in k))
  (at level 61, p pattern, c at next level, right associativity) : exc_scope.

(** [try: return body / except Exception: return None]. *)
Definition except_None {A} (c : exc A) : option A :=
  match c with
  | Ok a => Some a
  | Raise _ => None
  end.

Lemma bind_Ok {A B} (c : exc A) (k : A -> exc B) (b : B) :
  bind c k = Ok b -> exists a, c = Ok a /\ k a = Ok b.
Proof. destruct c as [a|m]; simpl; intros H; [eauto | discriminate]. Qed.

Lemma Ok_inj {A} (a b : A) : Ok a = Ok b -> a = b.
Proof. intros H. now injection H. Qed.

Lemma except_None_Some {A} (c : exc A) (a : A) :
  except_None c = Some a <-> c = Ok a.
Proof. destruct c; simpl; split; congruence. Qed.

Lemma except_None_None {A} (c : exc A) :
  except_None c = None <-> exists m, c = Raise m.
Proof.
  destruct c; simpl; split; try congruence; eauto.
  intros [m' H]; discriminate.
Qed.

(** ** Bytes *)

Definition byte_of_N (n : N) : byte :=
  match Byte.of_N (n mod 256)%N with
  | Some b => b
  | None => Byte.x00
  end.

Lemma to_N_lt (b : byte) : (Byte.to_N b < 256)%N.
Proof. pose proof (Byte.to_N_bounded b). lia. Qed.

Lemma to_N_byte_of_N (n : N) : Byte.to_N (byte_of_N n) = (n mod 256)%N.
Proof.
  unfold byte_of_N.
  destruct (Byte.of_N (n mod 256)%N) as [b|] eqn:E.
  - now apply Byte.to_of_N.
  - apply Byte.of_N_None_iff in E.
    pose proof (N.mod_lt n 256). lia.
Qed.

Lemma byte_of_N_to_N (b : byte) : byte_of_N (Byte.to_N b) = b.
Proof.
  unfold byte_of_N.
  rewrite N.mod_small by apply to_N_lt.
  now rewrite Byte.of_to_N.
Qed.

Lemma to_N_inj (a b : byte) : Byte.to_N a = Byte.to_N b -> a = b.
Proof.
  intros H. rewrite <- (byte_of_N_to_N a), <- (byte_of_N_to_N b). now rewrite H.
Qed.

Definition byte_xor (a b : byte) : byte :=
  byte_of_N (N.lxor (Byte.to_N a) (Byte.to_N b)).

Definition xor_bytes (xs ys : list byte) : list byte :=
  map (fun p => byte_xor (fst p) (snd p)) (combine xs ys).

(** Induction on a list three elements at a time. *)
Definition list_ind3 {A} (P : list A -> Prop)
  (H0 : P []) (H1 : forall x, P [x]) (H2 : forall x y, P [x; y])
  (H3 : forall x y z l, P l -> P (x :: y :: z :: l)) : forall l, P l :=
  fix go (l : list A) : P l :=
    match l with
    | [] => H0
    | [x] => H1 x
    | [x; y] => H2 x y
    | x :: y :: z :: l' => H3 x y z l' (go l')
    end.

Lemma firstn_app_exact {A} (l1 l2 : list A) (n : nat) :
  length l1 = n -> firstn n (l1 ++ l2) = l1.
Proof.
  intros <-. rewrite firstn_app, Nat.sub_diag, firstn_all. cbn [firstn].
  apply app_nil_r.
Qed.

Lemma skipn_app_exact {A} (l1 l2 : list A) (n : nat) :
  length l1 = n -> skipn n (l1 ++ l2) = l2.
Proof.
  intros <-. rewrite skipn_app, Nat.sub_diag, skipn_all. reflexivity.
Qed.

(** Checking a boolean property of all numbers below a bound by evaluation. *)
Definition all_below (k : nat) (P : N -> bool) : bool :=
  forallb P (map N.of_nat (seq 0 k)).

Lemma all_below_spec (k : nat) (P : N -> bool) :
  all_below k P = true -> forall n, (n < N.of_nat k)%N -> P n = true.
Proof.
  unfold all_below. rewrite forallb_forall. intros H n Hn.
  apply H. apply in_map_iff. exists (N.to_nat n). split.
  - apply N2Nat.id.
  - apply in_seq. lia.
Qed.

(** Facts about two bytes are checked for all byte values. *)
Lemma forall_bytes2 (P : N -> N -> bool) :
  all_below 256 (fun a => all_below 256 (P a)) = true ->
  forall x y : byte, P (Byte.to_N x) (Byte.to_N y) = true.
Proof.
  intros H x y.
  pose proof (all_below_spec _ _ H (Byte.to_N x) (to_N_lt x)) as Hx.
  exact (all_below_spec _ _ Hx (Byte.to_N y) (to_N_lt y)).
Qed.

Ltac check_bytes2 x y f :=
  let C := fresh "C" in
  assert (C : all_below 256 (fun a => all_below 256 (f a)) = true)
    by (vm_compute; reflexivity);
  generalize (forall_bytes2 f C x y); clear C; cbv beta.

Lemma byte_xor_involutive (a b : byte) : byte_xor (byte_xor a b) b = a.
Proof.
  apply to_N_inj. unfold byte_xor. rewrite !to_N_byte_of_N.
  check_bytes2 a b
    (fun a b => (N.lxor ((N.lxor a b) mod 256) b) mod 256 =? a)%N.
  apply N.eqb_eq.
Qed.

Lemma byte_xor_cancel_r (a b c : byte) : byte_xor a c = byte_xor b c -> a = b.
Proof.
  intros H. rewrite <- (byte_xor_involutive a c), H. apply byte_xor_involutive.
Qed.

Lemma byte_xor_comm (a b : byte) : byte_xor a b = byte_xor b a.
Proof. unfold byte_xor. now rewrite N.lxor_comm. Qed.

Lemma xor_bytes_length (xs ys : list byte) :
  length xs = length ys -> length (xor_bytes xs ys) = length xs.
Proof.
  intros H. unfold xor_bytes. rewrite length_map, length_combine. lia.
Qed.

Lemma xor_bytes_involutive (xs ys : list byte) :
  length xs = length ys -> xor_bytes (xor_bytes xs ys) ys = xs.
Proof.
  revert ys. induction xs as [|x xs IH]; intros [|y ys] H; try discriminate H.
  - reflexivity.
  - unfold xor_bytes in *. cbn [combine map fst snd].
    rewrite byte_xor_involutive. f_equal. apply IH. now injection H.
Qed.

Lemma xor_bytes_cancel_l (xs ys zs : list byte) :
  length xs = length ys -> length xs = length zs ->
  xor_bytes xs ys = xor_bytes xs zs -> ys = zs.
Proof.
  revert ys zs. induction xs as [|x xs IH]; intros [|y ys] [|z zs] H1 H2 E;
    try discriminate; [reflexivity|].
  unfold xor_bytes in *. cbn [combine map fst snd] in E.
  injection E as E1 E2. f_equal.
  - rewrite (byte_xor_comm x y), (byte_xor_comm x z) in E1.
    now apply byte_xor_cancel_r in E1.
  - apply IH; auto.
Qed.

(** ** [base64] (standard library, C module [binascii])

    [base64.b64encode] and [base64.b64decode] as the engine calls them: the
    standard alphabet, no line breaks, and for decoding the default
    [validate=False], under which characters outside the alphabet are
    skipped, a complete pad sequence ends the input and an incomplete final
    quad raises [binascii.Error]. *)

Module Base64.

Local Open Scope N_scope.

Definition PAD : ascii := "="%char.

(** [table_b2a_base64]. *)
Definition alphabet : string :=
  "ABCDEFGHIJKLMNOPQRSTUVWXYZabcdefghijklmnopqrstuvwxyz0123456789+/".

Definition b2a (n : N) : ascii :=
  match String.get (N.to_nat n) alphabet with
  | Some c => c
  | None => PAD
  end.

(** [table_a2b_base64]: the sextet of an alphabet character. *)
Definition a2b (c : ascii) : option N :=
  let n := N_of_ascii c in
  if (65 <=? n) && (n <=? 90) then Some (n - 65)
  else if (97 <=? n) && (n <=? 122) then Some (n - 71)
  else if (48 <=? n) && (n <=? 57) then Some (n + 4)
  else if n =? 43 then Some 62
  else if n =? 47 then Some 63
  else None.

(** [binascii.b2a_base64(data, newline=False)]: three bytes give four
    characters; a final group of one or two bytes is padded with [=]. *)
Fixpoint b2a_base64 (bs : list byte) : string :=
  match bs with
  | [] => EmptyString
  | [x] =>
      let a := Byte.to_N x in
      String (b2a (N.shiftr a 2))
        (String (b2a (N.shiftl (N.land a 3) 4))
           (String PAD (String PAD EmptyString)))
  | [x; y] =>
      let a := Byte.to_N x in
      let b := Byte.to_N y in
      String (b2a (N.shiftr a 2))
        (String (b2a (N.lor (N.shiftl (N.land a 3) 4) (N.shiftr b 4)))
           (String (b2a (N.shiftl (N.land b 15) 2))
              (String PAD EmptyString)))
  | x :: y :: z :: rest =>
      let a := Byte.to_N x in
      let b := Byte.to_N y in
      let c := Byte.to_N z in
      String (b2a (N.shiftr a 2))
        (String (b2a (N.lor (N.shiftl (N.land a 3) 4) (N.shiftr b 4)))
           (String (b2a (N.lor (N.shiftl (N.land b 15) 2) (N.shiftr c 6)))
              (String (b2a (N.land c 63)) (b2a_base64 rest))))
  end.

Definition b64encode (bs : list byte) : string := b2a_base64 bs.

(** The decoding loop of [binascii.a2b_base64] in its non-strict mode, over
    the remaining input, with the C function's state: the position in the
    current quad, the bits left over from the previous character, the number
    of pad characters seen in a row, and the bytes written so far (latest
    first). *)
Fixpoint a2b_loop (s : string) (quad_pos : nat) (leftchar : N) (pads : nat)
  (out : list byte) : exc (list byte) :=
  match s with
  | EmptyString =>
      match quad_pos with
      | O => Ok (rev out)
      | S O =>
          Raise ("Invalid base64-encoded string: number of data characters ("
                 ++ str_of_nat (length out / 3 * 4 + 1)
                 ++ ") cannot be 1 more than a multiple of 4")%string
      | _ => Raise "Incorrect padding"
      end
  | String ch rest =>
      if Ascii.eqb ch PAD then
        if Nat.leb 2 quad_pos then
          if Nat.leb 4 (quad_pos + S pads) then Ok (rev out)
          else a2b_loop rest quad_pos leftchar (S pads) out
        else a2b_loop rest quad_pos leftchar pads out
      else
        match a2b ch with
        | None => a2b_loop rest quad_pos leftchar pads out
        | Some this_ch =>
            match quad_pos with
            | O => a2b_loop rest 1 this_ch 0 out
            | S O =>
                a2b_loop rest 2 (N.land this_ch 15) 0
                  (byte_of_N (N.lor (N.shiftl leftchar 2) (N.shiftr this_ch 4)) :: out)
            | S (S O) =>
                a2b_loop rest 3 (N.land this_ch 3) 0
                  (byte_of_N (N.lor (N.shiftl leftchar 4) (N.shiftr this_ch 2)) :: out)
            | _ =>
                a2b_loop rest 0 0 0
                  (byte_of_N (N.lor (N.shiftl leftchar 6) this_ch) :: out)
            end
        end
  end.

Definition a2b_base64 (s : string) : exc (list byte) := a2b_loop s 0 0 0 [].

Fixpoint is_ascii (s : string) : bool :=
  match s with
  | EmptyString => true
  | String c rest => (N_of_ascii c <? 128) && is_ascii rest
  end.

(** [base64.b64decode(s)] on a [str]: the text is first encoded as ASCII. *)
Definition b64decode (s : string) : exc (list byte) :=
  if is_ascii s then a2b_base64 s
  else Raise "string argument should contain only ASCII characters".

(** *** Encoding followed by decoding *)

Lemma a2b_b2a (n : N) : n < 64 -> a2b (b2a n) = Some n.
Proof.
  intros H.
  assert (C : all_below 64 (fun n => match a2b (b2a n) with
                                     | Some m => m =? n
                                     | None => false
                                     end) = true) by (vm_compute; reflexivity).
  pose proof (all_below_spec _ _ C n H) as E. simpl in E.
  destruct (a2b (b2a n)); [| discriminate].
  apply N.eqb_eq in E. now subst.
Qed.

Lemma b2a_not_PAD (n : N) : n < 64 -> Ascii.eqb (b2a n) PAD = false.
Proof.
  intros H.
  assert (C : all_below 64 (fun n => negb (Ascii.eqb (b2a n) PAD)) = true)
    by (vm_compute; reflexivity).
  pose proof (all_below_spec _ _ C n H) as E. simpl in E.
  now apply negb_true_iff in E.
Qed.

Lemma b2a_is_ascii (n : N) : n < 64 -> (N_of_ascii (b2a n) <? 128) = true.
Proof.
  intros H.
  assert (C : all_below 64 (fun n => N_of_ascii (b2a n) <? 128) = true)
    by (vm_compute; reflexivity).
  exact (all_below_spec _ _ C n H).
Qed.

Section Sextets.
Variables x y : byte.
Let a := Byte.to_N x.
Let b := Byte.to_N y.

(** The four sextets [b2a_base64] writes, for [a] the first and [b] the
    second byte of a group (or the second and the third). *)
Definition sx1 (a : N) : N := N.shiftr a 2.
Definition sx2 (a b : N) : N := N.lor (N.shiftl (N.land a 3) 4) (N.shiftr b 4).
Definition sx3 (a b : N) : N := N.lor (N.shiftl (N.land a 15) 2) (N.shiftr b 6).
Definition sx4 (a : N) : N := N.land a 63.

Lemma sx1_lt : sx1 a < 64.
Proof. check_bytes2 x y (fun a _ : N => sx1 a <? 64). apply N.ltb_lt. Qed.

Lemma sx2_lt : sx2 a b < 64.
Proof. check_bytes2 x y (fun a b => sx2 a b <? 64). apply N.ltb_lt. Qed.

Lemma sx2_lt0 : N.shiftl (N.land a 3) 4 < 64.
Proof.
  check_bytes2 x y (fun a _ : N => N.shiftl (N.land a 3) 4 <? 64).
  apply N.ltb_lt.
Qed.

Lemma sx3_lt : sx3 a b < 64.
Proof. check_bytes2 x y (fun a b => sx3 a b <? 64). apply N.ltb_lt. Qed.

Lemma sx3_lt0 : N.shiftl (N.land a 15) 2 < 64.
Proof.
  check_bytes2 x y (fun a _ : N => N.shiftl (N.land a 15) 2 <? 64).
  apply N.ltb_lt.
Qed.

Lemma sx4_lt : sx4 a < 64.
Proof. check_bytes2 x y (fun a _ : N => sx4 a <? 64). apply N.ltb_lt. Qed.

(** First output byte: the first sextet and the top of the second. *)
Lemma out1 : byte_of_N (N.lor (N.shiftl (sx1 a) 2) (N.shiftr (sx2 a b) 4)) = x.
Proof.
  apply to_N_inj. rewrite to_N_byte_of_N.
  check_bytes2 x y
    (fun a b => (N.lor (N.shiftl (sx1 a) 2) (N.shiftr (sx2 a b) 4)) mod 256 =? a).
  apply N.eqb_eq.
Qed.

Lemma out1_last :
  byte_of_N (N.lor (N.shiftl (sx1 a) 2) (N.shiftr (N.shiftl (N.land a 3) 4) 4)) = x.
Proof.
  apply to_N_inj. rewrite to_N_byte_of_N.
  check_bytes2 x y
    (fun a _ : N =>
       (N.lor (N.shiftl (sx1 a) 2) (N.shiftr (N.shiftl (N.land a 3) 4) 4)) mod 256 =? a).
  apply N.eqb_eq.
Qed.

(** Second output byte: the rest of the second sextet and the top of the
    third; here [a] is the first byte, [b] the second and [c] the third. *)
Lemma out2 (z : byte) :
  byte_of_N (N.lor (N.shiftl (N.land (sx2 a b) 15) 4)
                   (N.shiftr (sx3 b (Byte.to_N z)) 2)) = y.
Proof.
  apply to_N_inj. rewrite to_N_byte_of_N.
  check_bytes2 x y (fun a b => N.land (sx2 a b) 15 =? N.shiftr b 4).
  intros H. apply N.eqb_eq in H. fold a b in H. rewrite H.
  check_bytes2 y z
    (fun b c => (N.lor (N.shiftl (N.shiftr b 4) 4) (N.shiftr (sx3 b c) 2)) mod 256 =? b).
  apply N.eqb_eq.
Qed.

Lemma out2_last :
  byte_of_N (N.lor (N.shiftl (N.land (sx2 a b) 15) 4)
                   (N.shiftr (N.shiftl (N.land b 15) 2) 2)) = y.
Proof.
  apply to_N_inj. rewrite to_N_byte_of_N.
  check_bytes2 x y
    (fun a b => (N.lor (N.shiftl (N.land (sx2 a b) 15) 4)
                   (N.shiftr (N.shiftl (N.land b 15) 2) 2)) mod 256 =? b).
  apply N.eqb_eq.
Qed.

(** Third output byte, for [a] the second and [b] the third byte. *)
Lemma out3 :
  byte_of_N (N.lor (N.shiftl (N.land (sx3 a b) 3) 6) (sx4 b)) = y.
Proof.
  apply to_N_inj. rewrite to_N_byte_of_N.
  check_bytes2 x y
    (fun a b => (N.lor (N.shiftl (N.land (sx3 a b) 3) 6) (sx4 b)) mod 256 =? b).
  apply N.eqb_eq.
Qed.

End Sextets.

(** The loop run on the encoding of [bs], started at a quad boundary. *)
Lemma a2b_loop_b2a (bs : list byte) :
  forall out leftchar pads,
    a2b_loop (b2a_base64 bs) 0 leftchar pads out = Ok (rev out ++ bs).
Proof.
  induction bs as [|x|x y|x y z rest IH] using list_ind3;
    intros out leftchar pads.
  - simpl. now rewrite app_nil_r.
  - cbn [b2a_base64 a2b_loop].
    fold (sx1 (Byte.to_N x)).
    rewrite (b2a_not_PAD _ (sx1_lt x x)), (a2b_b2a _ (sx1_lt x x)).
    rewrite (b2a_not_PAD _ (sx2_lt0 x x)), (a2b_b2a _ (sx2_lt0 x x)).
    change (Ascii.eqb PAD PAD) with true. cbn [Nat.leb Nat.add].
    rewrite (out1_last x x).
    simpl; rewrite <- ?app_assoc; reflexivity.
  - cbn [b2a_base64 a2b_loop].
    fold (sx1 (Byte.to_N x)) (sx2 (Byte.to_N x) (Byte.to_N y)).
    rewrite (b2a_not_PAD _ (sx1_lt x x)), (a2b_b2a _ (sx1_lt x x)).
    rewrite (b2a_not_PAD _ (sx2_lt x y)), (a2b_b2a _ (sx2_lt x y)).
    rewrite (b2a_not_PAD _ (sx3_lt0 y y)), (a2b_b2a _ (sx3_lt0 y y)).
    change (Ascii.eqb PAD PAD) with true. cbn [Nat.leb Nat.add].
    rewrite (out1 x y), (out2_last x y).
    simpl; rewrite <- ?app_assoc; reflexivity.
  - cbn [b2a_base64 a2b_loop].
    fold (sx1 (Byte.to_N x)) (sx2 (Byte.to_N x) (Byte.to_N y))
         (sx3 (Byte.to_N y) (Byte.to_N z)) (sx4 (Byte.to_N z)).
    rewrite (b2a_not_PAD _ (sx1_lt x x)), (a2b_b2a _ (sx1_lt x x)).
    rewrite (b2a_not_PAD _ (sx2_lt x y)), (a2b_b2a _ (sx2_lt x y)).
    rewrite (b2a_not_PAD _ (sx3_lt y z)), (a2b_b2a _ (sx3_lt y z)).
    rewrite (b2a_not_PAD _ (sx4_lt z z)), (a2b_b2a _ (sx4_lt z z)).
    rewrite (out1 x y), (out2 x y z), (out3 y z).
    rewrite IH.
    simpl; rewrite <- ?app_assoc; reflexivity.
Qed.

Lemma b2a_base64_is_ascii (bs : list byte) : is_ascii (b2a_base64 bs) = true.
Proof.
  induction bs as [|x|x y|x y z rest IH] using list_ind3;
    cbn [b2a_base64 is_ascii].
  - reflexivity.
  - fold (sx1 (Byte.to_N x)).
    rewrite (b2a_is_ascii _ (sx1_lt x x)), (b2a_is_ascii _ (sx2_lt0 x x)).
    reflexivity.
  - fold (sx1 (Byte.to_N x)) (sx2 (Byte.to_N x) (Byte.to_N y)).
    rewrite (b2a_is_ascii _ (sx1_lt x x)), (b2a_is_ascii _ (sx2_lt x y)),
      (b2a_is_ascii _ (sx3_lt0 y y)).
    reflexivity.
  - fold (sx1 (Byte.to_N x)) (sx2 (Byte.to_N x) (Byte.to_N y))
         (sx3 (Byte.to_N y) (Byte.to_N z)) (sx4 (Byte.to_N z)).
    rewrite (b2a_is_ascii _ (sx1_lt x x)), (b2a_is_ascii _ (sx2_lt x y)),
      (b2a_is_ascii _ (sx3_lt y z)), (b2a_is_ascii _ (sx4_lt z z)).
    rewrite IH. reflexivity.
Qed.

(** [b64decode (b64encode bs)] returns [bs]. *)
Lemma b64decode_b64encode (bs : list byte) : b64decode (b64encode bs) = Ok bs.
Proof.
  unfold b64decode, b64encode, a2b_base64.
  rewrite b2a_base64_is_ascii. now rewrite a2b_loop_b2a.
Qed.

End Base64.

(** ** [Crypto.Util.Padding] (PyCryptodome), style [pkcs7] *)

Module Padding.

Definition bchr (n : nat) : byte := byte_of_N (N.of_nat n).
Definition bord (b : byte) : nat := N.to_nat (Byte.to_N b).

Definition pad (data_to_pad : list byte) (block_size : nat) : list byte :=
  let padding_len := (block_size - length data_to_pad mod block_size)%nat in
  data_to_pad ++ repeat (bchr padding_len) padding_len.

Definition unpad (padded_data : list byte) (block_size : nat) : exc (list byte) :=
  let pdata_len := length padded_data in
  if Nat.eqb pdata_len 0 then Raise "Zero-length input cannot be unpadded"
  else if negb (Nat.eqb (pdata_len mod block_size) 0) then
    Raise "Input data is not padded"
  else
    let padding_len := bord (last padded_data Byte.x00) in
    if Nat.ltb padding_len 1 || Nat.ltb (Nat.min block_size pdata_len) padding_len
    then Raise "Padding is incorrect."
    else if list_eq_dec Byte.byte_eq_dec
              (skipn (pdata_len - padding_len) padded_data)
              (repeat (bchr padding_len) padding_len)
    then Ok (firstn (pdata_len - padding_len) padded_data)
    else Raise "PKCS#7 padding is incorrect.".

Lemma bord_bchr (n : nat) : (n < 256)%nat -> bord (bchr n) = n.
Proof.
  intros H. unfold bord, bchr. rewrite to_N_byte_of_N.
  rewrite N.mod_small by lia. apply Nat2N.id.
Qed.

Lemma bchr_bord (b : byte) : bchr (bord b) = b.
Proof. unfold bord, bchr. rewrite N2Nat.id. apply byte_of_N_to_N. Qed.

Lemma pad_length (d : list byte) :
  length (pad d 16) = (16 * (length d / 16 + 1))%nat.
Proof.
  unfold pad. rewrite length_app, repeat_length.
  pose proof (Nat.div_mod_eq (length d) 16).
  pose proof (Nat.mod_upper_bound (length d) 16). lia.
Qed.

Lemma pad_length_mod (d : list byte) : (length (pad d 16) mod 16 = 0)%nat.
Proof.
  rewrite pad_length, Nat.mul_comm. apply Nat.Div0.mod_mul.
Qed.

Lemma last_app_repeat {A} (l : list A) (x d : A) (n : nat) :
  (0 < n)%nat -> last (l ++ repeat x n) d = x.
Proof.
  intros H. destruct n as [|n]; [lia|].
  replace (repeat x (S n)) with (repeat x n ++ [x]).
  - rewrite app_assoc. apply last_last.
  - now rewrite <- repeat_cons.
Qed.

(** Padding is removed again. *)
Lemma unpad_pad (d : list byte) : unpad (pad d 16) 16 = Ok d.
Proof.
  unfold unpad. rewrite pad_length_mod. rewrite pad_length.
  destruct (Nat.eqb_spec (16 * (length d / 16 + 1)) 0) as [E|_]; [lia|].
  cbn [Nat.eqb negb].
  unfold pad.
  pose proof (Nat.mod_upper_bound (length d) 16 ltac:(lia)) as Hm.
  pose proof (Nat.div_mod_eq (length d) 16) as Hd.
  set (k := (16 - length d mod 16)%nat) in *.
  assert (Hk : (1 <= k <= 16)%nat) by (subst k; lia).
  rewrite last_app_repeat by lia.
  rewrite bord_bchr by lia.
  destruct (Nat.ltb_spec k 1) as [?|_]; [lia|].
  destruct (Nat.ltb_spec (Nat.min 16 (16 * (length d / 16 + 1))) k) as [?|_]; [lia|].
  cbn [orb].
  replace (16 * (length d / 16 + 1) - k)%nat with (length d) by (subst k; lia).
  rewrite skipn_app, skipn_all, Nat.sub_diag. cbn [skipn app].
  destruct (list_eq_dec _ _ _) as [_|N]; [| now elim N].
  rewrite firstn_app, firstn_all, Nat.sub_diag. cbn [firstn].
  now rewrite app_nil_r.
Qed.

(** What [unpad] accepts is the padding of what it returns. *)
Lemma pad_unpad (p d : list byte) : unpad p 16 = Ok d -> pad d 16 = p.
Proof.
  unfold unpad.
  destruct (Nat.eqb_spec (length p) 0) as [|Hn]; [discriminate|].
  destruct (Nat.eqb_spec (length p mod 16) 0) as [Hm|]; [|discriminate].
  cbn [negb].
  set (k := bord (last p Byte.x00)).
  destruct (Nat.ltb_spec k 1) as [|Hk1]; [discriminate|].
  destruct (Nat.ltb_spec (Nat.min 16 (length p)) k) as [|Hk2]; [discriminate|].
  cbn [orb].
  destruct (list_eq_dec _ _ _) as [E|]; [|discriminate].
  intros H. injection H as <-.
  unfold pad.
  assert (Hl : length (firstn (length p - k) p) = (length p - k)%nat)
    by (rewrite length_firstn; lia).
  rewrite Hl.
  assert (Hk : (16 - (length p - k) mod 16 = k)%nat).
  { pose proof (Nat.div_mod_eq (length p) 16) as Hd. rewrite Hm in Hd.
    destruct (Nat.eq_dec k 16) as [->|Hne].
    - replace (length p - 16)%nat with ((length p / 16 - 1) * 16)%nat by lia.
      rewrite Nat.Div0.mod_mul. lia.
    - replace (length p - k)%nat with ((16 - k) + (length p / 16 - 1) * 16)%nat by lia.
      rewrite Nat.Div0.mod_add. rewrite Nat.mod_small by lia. lia. }
  rewrite Hk, <- E. apply firstn_skipn.
Qed.

Lemma unpad_length (p d : list byte) :
  unpad p 16 = Ok d -> (length p mod 16 = 0 /\ 16 <= length p)%nat.
Proof.
  intros H. apply pad_unpad in H. subst p.
  rewrite pad_length_mod, pad_length. lia.
Qed.

End Padding.

(** ** [float32] arrays and their bytes

    An element of a [numpy] array of dtype [float32] is its IEEE-754 binary32
    bit pattern, a number in [[0, 2^32)].  [ndarray.tobytes] writes each
    element as four bytes, least significant first; [np.frombuffer(...,
    dtype='float32')] reads them back and raises when the buffer is not a
    whole number of elements. *)

Definition float32 := Z.

Definition is_float32 (w : float32) : Prop := 0 <= w < 2 ^ 32.

Definition byte_of_Z (z : Z) : byte := byte_of_N (Z.to_N (z mod 256)).
Definition Z_of_byte (b : byte) : Z := Z.of_N (Byte.to_N b).

Definition f32_tobytes (w : float32) : list byte :=
  [ byte_of_Z w;
    byte_of_Z (w / 2 ^ 8);
    byte_of_Z (w / 2 ^ 16);
    byte_of_Z (w / 2 ^ 24) ].

Definition f32_frombytes (b0 b1 b2 b3 : byte) : float32 :=
  Z_of_byte b0 + 2 ^ 8 * Z_of_byte b1 + 2 ^ 16 * Z_of_byte b2
  + 2 ^ 24 * Z_of_byte b3.

Definition tobytes (a : list float32) : list byte := flat_map f32_tobytes a.

Fixpoint f32_elements (buf : list byte) : list float32 :=
  match buf with
  | b0 :: b1 :: b2 :: b3 :: rest => f32_frombytes b0 b1 b2 b3 :: f32_elements rest
  | _ => []
  end.

Definition frombuffer (buf : list byte) : exc (list float32) :=
  if Nat.eqb (length buf mod 4) 0 then Ok (f32_elements buf)
  else Raise "buffer size must be a multiple of element size".

Lemma Z_of_byte_range (b : byte) : 0 <= Z_of_byte b < 256.
Proof. unfold Z_of_byte. pose proof (to_N_lt b). lia. Qed.

Lemma Z_of_byte_of_Z (z : Z) : Z_of_byte (byte_of_Z z) = z mod 256.
Proof.
  unfold Z_of_byte, byte_of_Z. rewrite to_N_byte_of_N.
  pose proof (Z.mod_pos_bound z 256 ltac:(lia)).
  rewrite N.mod_small by lia. lia.
Qed.

Lemma byte_of_Z_of_byte (b : byte) : byte_of_Z (Z_of_byte b) = b.
Proof.
  unfold Z_of_byte, byte_of_Z.
  pose proof (to_N_lt b).
  rewrite Z.mod_small by lia. rewrite N2Z.id. apply byte_of_N_to_N.
Qed.

Lemma byte_of_Z_mod (z : Z) : byte_of_Z (z mod 256) = byte_of_Z z.
Proof. unfold byte_of_Z. now rewrite Z.mod_mod by lia. Qed.

Lemma f32_frombytes_range (b0 b1 b2 b3 : byte) : is_float32 (f32_frombytes b0 b1 b2 b3).
Proof.
  unfold is_float32, f32_frombytes.
  pose proof (Z_of_byte_range b0). pose proof (Z_of_byte_range b1).
  pose proof (Z_of_byte_range b2). pose proof (Z_of_byte_range b3). lia.
Qed.

Lemma f32_frombytes_tobytes (w : float32) :
  is_float32 w ->
  match f32_tobytes w with
  | [b0; b1; b2; b3] => f32_frombytes b0 b1 b2 b3 = w
  | _ => False
  end.
Proof.
  unfold is_float32, f32_tobytes, f32_frombytes. intros H.
  rewrite !Z_of_byte_of_Z.
  change (2 ^ 16) with (2 ^ 8 * 2 ^ 8). change (2 ^ 24) with (2 ^ 8 * 2 ^ 8 * 2 ^ 8).
  rewrite <- !Z.div_div by lia.
  change (2 ^ 8) with 256. change (2 ^ 32) with 4294967296 in H.
  Z.div_mod_to_equations. lia.
Qed.

Lemma byte_of_Z_eq (z : Z) (b : byte) : z mod 256 = Z_of_byte b -> byte_of_Z z = b.
Proof.
  intros H. rewrite <- byte_of_Z_mod, H. apply byte_of_Z_of_byte.
Qed.

Lemma f32_tobytes_frombytes (b0 b1 b2 b3 : byte) :
  f32_tobytes (f32_frombytes b0 b1 b2 b3) = [b0; b1; b2; b3].
Proof.
  unfold f32_tobytes, f32_frombytes.
  pose proof (Z_of_byte_range b0) as H0. pose proof (Z_of_byte_range b1) as H1.
  pose proof (Z_of_byte_range b2) as H2. pose proof (Z_of_byte_range b3) as H3.
  change (2 ^ 16) with (2 ^ 8 * 2 ^ 8). change (2 ^ 24) with (2 ^ 8 * 2 ^ 8 * 2 ^ 8).
  rewrite <- !Z.div_div by lia.
  change (2 ^ 8) with 256.
  f_equal; [|f_equal; [|f_equal; [|f_equal]]];
    apply byte_of_Z_eq; Z.div_mod_to_equations; lia.
Qed.

Lemma tobytes_length (a : list float32) : length (tobytes a) = (4 * length a)%nat.
Proof.
  induction a as [|w a IH]; [reflexivity|].
  cbn [tobytes flat_map]. rewrite length_app. fold (tobytes a). rewrite IH.
  simpl. lia.
Qed.

Lemma f32_elements_tobytes (a : list float32) :
  Forall is_float32 a -> f32_elements (tobytes a) = a.
Proof.
  induction 1 as [|w a Hw _ IH]; [reflexivity|].
  cbn [tobytes flat_map]. fold (tobytes a).
  pose proof (f32_frombytes_tobytes w Hw) as E.
  unfold f32_tobytes in *. cbn [app f32_elements].
  now rewrite E, IH.
Qed.

(** Serialising and reading back a [float32] array. *)
Lemma frombuffer_tobytes (a : list float32) :
  Forall is_float32 a -> frombuffer (tobytes a) = Ok a.
Proof.
  intros H. unfold frombuffer. rewrite tobytes_length.
  rewrite Nat.mul_comm, Nat.Div0.mod_mul. cbn [Nat.eqb].
  now rewrite f32_elements_tobytes.
Qed.

Definition list_ind4 {A} (P : list A -> Prop)
  (H0 : P []) (H1 : forall x, P [x]) (H2 : forall x y, P [x; y])
  (H3 : forall x y z, P [x; y; z])
  (H4 : forall x y z t l, P l -> P (x :: y :: z :: t :: l)) : forall l, P l :=
  fix go (l : list A) : P l :=
    match l with
    | [] => H0
    | [x] => H1 x
    | [x; y] => H2 x y
    | [x; y; z] => H3 x y z
    | x :: y :: z :: t :: l' => H4 x y z t l' (go l')
    end.

Lemma tobytes_f32_elements (buf : list byte) :
  (length buf mod 4 = 0)%nat -> tobytes (f32_elements buf) = buf.
Proof.
  induction buf as [|x|x y|x y z|x y z t buf IH] using list_ind4;
    cbn [length]; intros H; try discriminate H.
  - reflexivity.
  - cbn [f32_elements tobytes flat_map]. fold (tobytes (f32_elements buf)).
    rewrite f32_tobytes_frombytes. cbn [app]. rewrite IH; [reflexivity|].
    replace (S (S (S (S (length buf))))) with (length buf + 1 * 4)%nat in H by lia.
    now rewrite Nat.Div0.mod_add in H.
Qed.

Lemma f32_elements_range (buf : list byte) : Forall is_float32 (f32_elements buf).
Proof.
  induction buf as [|x|x y|x y z|x y z t buf IH] using list_ind4;
    cbn [f32_elements]; constructor; auto using f32_frombytes_range.
Qed.

Lemma f32_elements_length (buf : list byte) :
  length (f32_elements buf) = (length buf / 4)%nat.
Proof.
  induction buf as [|x|x y|x y z|x y z t buf IH] using list_ind4;
    try reflexivity.
  cbn [f32_elements length]. rewrite IH.
  replace (S (S (S (S (length buf))))) with (length buf + 1 * 4)%nat by lia.
  rewrite Nat.div_add by lia. lia.
Qed.

Lemma frombuffer_Ok (buf : list byte) (a : list float32) :
  frombuffer buf = Ok a ->
  Forall is_float32 a /\ tobytes a = buf /\ (length buf = 4 * length a)%nat.
Proof.
  unfold frombuffer.
  destruct (Nat.eqb_spec (length buf mod 4) 0) as [E|]; [|discriminate].
  intros H. injection H as <-.
  split; [apply f32_elements_range|]. split; [now apply tobytes_f32_elements|].
  rewrite f32_elements_length.
  pose proof (Nat.div_mod_eq (length buf) 4). lia.
Qed.

(** ** [Crypto.Cipher.AES] in CBC mode and [hashlib.sha256]

    The AES block transformation and the SHA-256 digest are taken as an
    interface: under a key of an accepted size, encryption and decryption
    of a 16-byte block are inverse permutations of the 16-byte blocks, and a
    digest has 32 bytes.  The chaining of blocks, the checks of [AES.new] and
    of the CBC object's [encrypt] and [decrypt] are written out. *)

Definition block_size : nat := 16.

Definition key_size_ok (key : list byte) : bool :=
  Nat.eqb (length key) 16 || Nat.eqb (length key) 24 || Nat.eqb (length key) 32.

Class CryptoLib := {
  encrypt_block : list byte -> list byte -> list byte;
  decrypt_block : list byte -> list byte -> list byte;
  sha256 : list byte -> list byte;
  encrypt_block_length : forall key b,
    key_size_ok key = true -> length b = 16%nat ->
    length (encrypt_block key b) = 16%nat;
  decrypt_block_length : forall key b,
    key_size_ok key = true -> length b = 16%nat ->
    length (decrypt_block key b) = 16%nat;
  decrypt_encrypt_block : forall key b,
    key_size_ok key = true -> length b = 16%nat ->
    decrypt_block key (encrypt_block key b) = b;
  encrypt_decrypt_block : forall key b,
    key_size_ok key = true -> length b = 16%nat ->
    encrypt_block key (decrypt_block key b) = b;
  sha256_length : forall m, length (sha256 m) = 32%nat
}.

Record cbc_cipher := { cbc_key : list byte; cbc_iv : list byte }.

(** The dictionary [create_template] returns, over the element type [A] of
    its array. *)
Record template_data (A : Type) := {
  template : list A;
  quality_score : R;
  num_frames : nat
}.
Arguments template {A} _.
Arguments quality_score {A} _.
Arguments num_frames {A} _.

Section Envelope.

Context {crypto : CryptoLib}.

(** [AES.new(key, AES.MODE_CBC, iv)]. *)
Definition AES_new (key iv : list byte) : exc cbc_cipher :=
  if negb (key_size_ok key) then Raise "Incorrect AES key length"
  else if negb (Nat.eqb (length iv) 16) then
    Raise "Incorrect IV length (it must be 16 bytes long)"
  else Ok {| cbc_key := key; cbc_iv := iv |}.

(** [n] blocks of [data] chained after the block [prev]. *)
Fixpoint cbc_encrypt_blocks (n : nat) (key prev data : list byte) : list byte :=
  match n with
  | O => []
  | S n' =>
      let c := encrypt_block key (xor_bytes (firstn 16 data) prev) in
      c ++ cbc_encrypt_blocks n' key c (skipn 16 data)
  end.

Fixpoint cbc_decrypt_blocks (n : nat) (key prev data : list byte) : list byte :=
  match n with
  | O => []
  | S n' =>
      let c := firstn 16 data in
      xor_bytes (decrypt_block key c) prev
        ++ cbc_decrypt_blocks n' key c (skipn 16 data)
  end.

Definition cbc_encrypt (cipher : cbc_cipher) (plaintext : list byte) : exc (list byte) :=
  if Nat.eqb (length plaintext mod 16) 0 then
    Ok (cbc_encrypt_blocks (length plaintext / 16) (cbc_key cipher) (cbc_iv cipher) plaintext)
  else Raise "Data must be padded to 16 byte boundary in CBC mode".

Definition cbc_decrypt (cipher : cbc_cipher) (ciphertext : list byte) : exc (list byte) :=
  if Nat.eqb (length ciphertext mod 16) 0 then
    Ok (cbc_decrypt_blocks (length ciphertext / 16) (cbc_key cipher) (cbc_iv cipher) ciphertext)
  else Raise "Data must be padded to 16 byte boundary in CBC mode".

(** ** The engine and its encryption envelope *)

Record IrisBiometricEngine := {
  encryption_key : string;
  key_hash : list byte
}.

(** [str.encode()] (UTF-8) of a string of 8-bit code points. *)
Definition encode_char (c : ascii) : list byte :=
  let n := N_of_ascii c in
  if (n <? 128)%N then [byte_of_N n]
  else [byte_of_N (N.lor 192 (N.shiftr n 6)); byte_of_N (N.lor 128 (N.land n 63))].

Fixpoint str_encode (s : string) : list byte :=
  match s with
  | EmptyString => []
  | String c rest => encode_char c ++ str_encode rest
  end.

(** The key given, else the environment's [BIOMETRIC_KEY], else
    the embedded constant; [key_hash] is the SHA-256 digest of the key. *)
Definition __init__ (encryption_key : option string) (BIOMETRIC_KEY : option string)
  : IrisBiometricEngine :=
  let key :=
    match encryption_key with
    | Some (String c s) => String c s
    | _ =>
        match BIOMETRIC_KEY with
        | Some v => v
        | None => "default_key_32bytes_change_me!!"%string
        end
    end in
  {| encryption_key := key;
     key_hash := firstn 32 (sha256 (str_encode key)) |}.

(** [encrypt_template]; [random_bytes] is what [get_random_bytes(16)]
    returned in this call. *)
Definition encrypt_template (self : IrisBiometricEngine) (random_bytes : list byte)
  (data : template_data float32) : option string :=
  except_None (
    let template_bytes := tobytes (template data) in
    let iv := random_bytes in
    cipher <- AES_new (key_hash self) iv ;;
    encrypted <- cbc_encrypt cipher (Padding.pad template_bytes block_size) ;;
    let encrypted_data := iv ++ encrypted in
    Ok (Base64.b64encode encrypted_data))%exc.

Definition decrypt_template (self : IrisBiometricEngine) (encrypted_b64 : string)
  : option (list float32) :=
  except_None (
    encrypted_data <- Base64.b64decode encrypted_b64 ;;
    let iv := firstn 16 encrypted_data in
    let ciphertext := skipn 16 encrypted_data in
    cipher <- AES_new (key_hash self) iv ;;
    plain <- cbc_decrypt cipher ciphertext ;;
    decrypted <- Padding.unpad plain block_size ;;
    frombuffer decrypted)%exc.

(** An engine built by [__init__] has a 32-byte key. *)
Definition engine_ok (self : IrisBiometricEngine) : Prop :=
  length (key_hash self) = 32%nat.

Lemma init_ok (k env : option string) : engine_ok (__init__ k env).
Proof.
  unfold engine_ok, __init__. cbn [key_hash].
  rewrite length_firstn, sha256_length. reflexivity.
Qed.

Lemma engine_key_size (self : IrisBiometricEngine) :
  engine_ok self -> key_size_ok (key_hash self) = true.
Proof. unfold engine_ok, key_size_ok. intros ->. reflexivity. Qed.

(** *** Chaining *)

Lemma cbc_encrypt_blocks_length (n : nat) (key : list byte) :
  key_size_ok key = true ->
  forall prev data, length prev = 16%nat -> length data = (16 * n)%nat ->
    length (cbc_encrypt_blocks n key prev data) = (16 * n)%nat.
Proof.
  intros Hk. induction n as [|n IH]; intros prev data Hp Hd; [reflexivity|].
  cbn [cbc_encrypt_blocks]. rewrite length_app.
  assert (Hx : length (xor_bytes (firstn 16 data) prev) = 16%nat).
  { rewrite xor_bytes_length; rewrite length_firstn; lia. }
  rewrite encrypt_block_length by assumption.
  rewrite IH; [lia| |].
  - now apply encrypt_block_length.
  - rewrite length_skipn. lia.
Qed.

Lemma cbc_decrypt_blocks_length (n : nat) (key : list byte) :
  key_size_ok key = true ->
  forall prev data, length prev = 16%nat -> length data = (16 * n)%nat ->
    length (cbc_decrypt_blocks n key prev data) = (16 * n)%nat.
Proof.
  intros Hk. induction n as [|n IH]; intros prev data Hp Hd; [reflexivity|].
  cbn [cbc_decrypt_blocks]. rewrite length_app.
  assert (Hf : length (firstn 16 data) = 16%nat) by (rewrite length_firstn; lia).
  rewrite xor_bytes_length; rewrite decrypt_block_length by assumption; [|lia].
  rewrite IH; [lia|assumption|].
  rewrite length_skipn. lia.
Qed.

Lemma cbc_decrypt_encrypt_blocks (n : nat) (key : list byte) :
  key_size_ok key = true ->
  forall prev data, length prev = 16%nat -> length data = (16 * n)%nat ->
    cbc_decrypt_blocks n key prev (cbc_encrypt_blocks n key prev data) = data.
Proof.
  intros Hk. induction n as [|n IH]; intros prev data Hp Hd.
  - destruct data; [reflexivity | discriminate Hd].
  - cbn [cbc_encrypt_blocks cbc_decrypt_blocks].
    assert (Hf : length (firstn 16 data) = 16%nat) by (rewrite length_firstn; lia).
    assert (Hx : length (xor_bytes (firstn 16 data) prev) = 16%nat)
      by (rewrite xor_bytes_length; lia).
    pose proof (encrypt_block_length key _ Hk Hx) as Hc.
    rewrite (firstn_app_exact _ _ 16 Hc), (skipn_app_exact _ _ 16 Hc).
    rewrite decrypt_encrypt_block by assumption.
    rewrite xor_bytes_involutive by lia.
    rewrite IH; [apply firstn_skipn | assumption |].
    rewrite length_skipn. lia.
Qed.

Lemma cbc_encrypt_decrypt_blocks (n : nat) (key : list byte) :
  key_size_ok key = true ->
  forall prev data, length prev = 16%nat -> length data = (16 * n)%nat ->
    cbc_encrypt_blocks n key prev (cbc_decrypt_blocks n key prev data) = data.
Proof.
  intros Hk. induction n as [|n IH]; intros prev data Hp Hd.
  - destruct data; [reflexivity | discriminate Hd].
  - cbn [cbc_encrypt_blocks cbc_decrypt_blocks].
    assert (Hf : length (firstn 16 data) = 16%nat) by (rewrite length_firstn; lia).
    pose proof (decrypt_block_length key _ Hk Hf) as Hc.
    assert (Hx : length (xor_bytes (decrypt_block key (firstn 16 data)) prev) = 16%nat)
      by (rewrite xor_bytes_length; lia).
    rewrite (firstn_app_exact _ _ 16 Hx), (skipn_app_exact _ _ 16 Hx).
    rewrite xor_bytes_involutive by lia.
    rewrite encrypt_decrypt_block by assumption.
    rewrite IH; [apply firstn_skipn | assumption |].
    rewrite length_skipn. lia.
Qed.

End Envelope.

(** ** Properties of the envelope *)

Section EnvelopeProperties.

Context {crypto : CryptoLib}.

(** The bytes [encrypt_template] encodes: the IV followed by the ciphertext
    of the padded array bytes. *)
Definition envelope (self : IrisBiometricEngine) (iv : list byte) (a : list float32)
  : list byte :=
  let padded := Padding.pad (tobytes a) block_size in
  iv ++ cbc_encrypt_blocks (length padded / 16) (key_hash self) iv padded.

Lemma AES_new_Ok (self : IrisBiometricEngine) (iv : list byte) :
  engine_ok self -> length iv = 16%nat ->
  AES_new (key_hash self) iv = Ok {| cbc_key := key_hash self; cbc_iv := iv |}.
Proof.
  intros Hs Hiv. unfold AES_new.
  rewrite (engine_key_size self Hs), Hiv. reflexivity.
Qed.

Lemma encrypt_template_envelope (self : IrisBiometricEngine) (iv : list byte)
  (T : template_data float32) :
  engine_ok self -> length iv = 16%nat ->
  encrypt_template self iv T = Some (Base64.b64encode (envelope self iv (template T))).
Proof.
  intros Hs Hiv. unfold encrypt_template, envelope.
  rewrite (AES_new_Ok self iv Hs Hiv). cbn [bind].
  unfold cbc_encrypt, block_size. rewrite Padding.pad_length_mod.
  reflexivity.
Qed.

Lemma decrypt_template_blob (self : IrisBiometricEngine) (iv ct : list byte) :
  engine_ok self -> length iv = 16%nat ->
  decrypt_template self (Base64.b64encode (iv ++ ct)) =
  except_None (
    plain <- cbc_decrypt {| cbc_key := key_hash self; cbc_iv := iv |} ct ;;
    decrypted <- Padding.unpad plain block_size ;;
    frombuffer decrypted)%exc.
Proof.
  intros Hs Hiv. unfold decrypt_template.
  rewrite Base64.b64decode_b64encode. cbn [bind].
  rewrite (firstn_app_exact _ _ 16 Hiv), (skipn_app_exact _ _ 16 Hiv).
  rewrite (AES_new_Ok self iv Hs Hiv). reflexivity.
Qed.

Lemma padded_blocks (d : list byte) :
  length (Padding.pad d 16) = (16 * (length (Padding.pad d 16) / 16))%nat.
Proof.
  pose proof (Nat.div_mod_eq (length (Padding.pad d 16)) 16) as H.
  rewrite Padding.pad_length_mod in H. lia.
Qed.

(** Decrypting what [encrypt_template] produced gives the array back. *)
Lemma decrypt_envelope (self : IrisBiometricEngine) (iv : list byte) (a : list float32) :
  engine_ok self -> length iv = 16%nat -> Forall is_float32 a ->
  decrypt_template self (Base64.b64encode (envelope self iv a)) = Some a.
Proof.
  intros Hs Hiv Ha. unfold envelope.
  rewrite decrypt_template_blob by assumption.
  unfold block_size.
  set (padded := Padding.pad (tobytes a) 16).
  pose proof (padded_blocks (tobytes a)) as Hp. fold padded in Hp.
  pose proof (engine_key_size self Hs) as Hk.
  unfold cbc_decrypt. cbn [cbc_key cbc_iv].
  rewrite (cbc_encrypt_blocks_length _ _ Hk iv padded Hiv Hp).
  rewrite Nat.mul_comm, Nat.Div0.mod_mul, Nat.div_mul by lia.
  cbn [Nat.eqb bind].
  rewrite (cbc_decrypt_encrypt_blocks _ _ Hk iv padded Hiv Hp).
  unfold padded. rewrite Padding.unpad_pad. cbn [bind].
  rewrite frombuffer_tobytes by assumption. reflexivity.
Qed.

(** An input is a valid encryption under the engine's key when it decodes
    to the envelope of some [float32] array under some IV. *)
Definition valid_encryption (self : IrisBiometricEngine) (s : string) : Prop :=
  exists (iv : list byte) (a : list float32),
    length iv = 16%nat /\ Forall is_float32 a /\
    Base64.b64decode s = Ok (envelope self iv a).

(** Whatever [decrypt_template] accepts is a valid encryption of what it
    returns. *)
Lemma decrypt_template_Some (self : IrisBiometricEngine) (s : string) (a : list float32) :
  decrypt_template self s = Some a ->
  exists iv, length iv = 16%nat /\ Forall is_float32 a /\
             Base64.b64decode s = Ok (envelope self iv a).
Proof.
  intros H. unfold decrypt_template in H.
  apply except_None_Some in H.
  apply bind_Ok in H as (blob & Hblob & H).
  apply bind_Ok in H as (cipher & Hnew & H).
  apply bind_Ok in H as (plain & Hplain & H).
  apply bind_Ok in H as (decrypted & Hunpad & Hbuf).
  unfold AES_new in Hnew.
  destruct (key_size_ok (key_hash self)) eqn:Hk; [|discriminate].
  cbn [negb] in Hnew.
  destruct (Nat.eqb_spec (length (firstn 16 blob)) 16) as [Hiv|]; [|discriminate].
  cbn [negb] in Hnew. injection Hnew as <-.
  unfold cbc_decrypt in Hplain. cbn [cbc_key cbc_iv] in Hplain.
  destruct (Nat.eqb_spec (length (skipn 16 blob) mod 16) 0) as [Hct|]; [|discriminate].
  injection Hplain as <-.
  set (iv := firstn 16 blob) in *. set (ct := skipn 16 blob) in *.
  assert (Hn : length ct = (16 * (length ct / 16))%nat).
  { pose proof (Nat.div_mod_eq (length ct) 16). lia. }
  apply Padding.pad_unpad in Hunpad.
  apply frombuffer_Ok in Hbuf as (Ha & Hbytes & _).
  exists iv. split; [assumption|]. split; [assumption|].
  rewrite Hblob. f_equal. unfold envelope, block_size.
  rewrite Hbytes, Hunpad.
  rewrite (cbc_decrypt_blocks_length _ _ Hk iv ct Hiv Hn).
  rewrite Nat.mul_comm, Nat.div_mul by lia.
  rewrite (cbc_encrypt_decrypt_blocks _ _ Hk iv ct Hiv Hn).
  symmetry. apply firstn_skipn.
Qed.

(** *** C1 *)

(** C1. Round trip: for every template whose array is a [float32] array,
    [encrypt_template] returns a string and [decrypt_template] of that
    string returns a non-null array equal, element by element and bit for
    bit, to the template's array. *)
Theorem encrypt_decrypt_round_trip
  (self : IrisBiometricEngine) (random_bytes : list byte) (T : template_data float32) :
  engine_ok self -> length random_bytes = 16%nat -> Forall is_float32 (template T) ->
  exists encrypted : string,
    encrypt_template self random_bytes T = Some encrypted /\
    decrypt_template self encrypted = Some (template T).
Proof.
  intros Hs Hiv HT. eexists. split.
  - now apply encrypt_template_envelope.
  - now apply decrypt_envelope.
Qed.

(** *** C9 *)

(** C9. [decrypt_template] fails closed: on every input that is not a valid
    encryption under the engine's key it returns [None]; being a total
    function into [option], it raises on no input. *)
Theorem decrypt_template_fails_closed (self : IrisBiometricEngine) (s : string) :
  ~ valid_encryption self s -> decrypt_template self s = None.
Proof.
  intros Hn.
  destruct (decrypt_template self s) as [a|] eqn:E; [|reflexivity].
  exfalso. apply Hn.
  destruct (decrypt_template_Some self s a E) as (iv & Hiv & Ha & Hd).
  exists iv, a. auto.
Qed.

(** The three kinds of invalid input the specification names. *)
Lemma decrypt_malformed_base64 (self : IrisBiometricEngine) (s m : string) :
  Base64.b64decode s = Raise m -> decrypt_template self s = None.
Proof. intros H. unfold decrypt_template. now rewrite H. Qed.

Lemma decrypt_truncated (self : IrisBiometricEngine) (s : string) (blob : list byte) :
  Base64.b64decode s = Ok blob ->
  (length blob < 32)%nat \/ (length blob mod 16 <> 0)%nat ->
  decrypt_template self s = None.
Proof.
  intros Hd Hl. unfold decrypt_template. rewrite Hd. cbn [bind].
  unfold AES_new.
  destruct (key_size_ok (key_hash self)); [|reflexivity]. cbn [negb].
  destruct (Nat.eqb_spec (length (firstn 16 blob)) 16) as [Hiv|]; [|reflexivity].
  cbn [negb bind]. unfold cbc_decrypt. cbn [cbc_key cbc_iv].
  rewrite length_firstn in Hiv.
  assert (Hs : length (skipn 16 blob) = (length blob - 16)%nat) by apply length_skipn.
  destruct (Nat.eqb_spec (length (skipn 16 blob) mod 16) 0) as [Hm|]; [|reflexivity].
  cbn [bind].
  assert (Hb : (length blob mod 16 = 0)%nat).
  { replace (length blob) with (length (skipn 16 blob) + 1 * 16)%nat by lia.
    now rewrite Nat.Div0.mod_add. }
  destruct Hl as [Hl|Hl]; [|contradiction].
  assert (Hz : length (skipn 16 blob) = 0%nat).
  { pose proof (Nat.div_mod_eq (length blob) 16). lia. }
  rewrite Hz. cbn [Nat.div Nat.divmod fst cbc_decrypt_blocks].
  reflexivity.
Qed.

Lemma decrypt_bad_padding (self : IrisBiometricEngine) (s m : string)
  (blob plain : list byte) (cipher : cbc_cipher) :
  Base64.b64decode s = Ok blob ->
  AES_new (key_hash self) (firstn 16 blob) = Ok cipher ->
  cbc_decrypt cipher (skipn 16 blob) = Ok plain ->
  Padding.unpad plain block_size = Raise m ->
  decrypt_template self s = None.
Proof.
  intros Hd Hc Hp Hu. unfold decrypt_template.
  rewrite Hd. cbn [bind]. rewrite Hc. cbn [bind].
  rewrite Hp. cbn [bind]. now rewrite Hu.
Qed.

(** The specification's corrupt-ciphertext scenario. *)
Example decrypt_not_valid_base64 (self : IrisBiometricEngine) :
  decrypt_template self "not-valid-base64!!!" = None.
Proof. reflexivity. Qed.

(** *** C10 *)

(** The byte at index [i] of a blob replaced by [b]. *)
Definition tamper (i : nat) (b : byte) (blob : list byte) : list byte :=
  firstn i blob ++ b :: skipn (S i) blob.

Lemma tamper_length (i : nat) (b : byte) (l : list byte) :
  (i < length l)%nat -> length (tamper i b l) = length l.
Proof.
  intros H. unfold tamper. rewrite length_app. cbn [length].
  rewrite length_firstn, length_skipn. lia.
Qed.

Lemma tamper_nth (i : nat) (b : byte) (l : list byte) :
  (i < length l)%nat -> nth i (tamper i b l) Byte.x00 = b.
Proof.
  intros H. unfold tamper.
  rewrite app_nth2; rewrite length_firstn; [|lia].
  replace (i - Nat.min i (length l))%nat with 0%nat by lia. reflexivity.
Qed.

Lemma tamper_app (i : nat) (b : byte) (l1 l2 : list byte) :
  (i < length l1)%nat -> tamper i b (l1 ++ l2) = tamper i b l1 ++ l2.
Proof.
  intros H. unfold tamper.
  rewrite firstn_app, skipn_app.
  replace (i - length l1)%nat with 0%nat by lia.
  replace (S i - length l1)%nat with 0%nat by lia.
  cbn [firstn skipn]. rewrite app_nil_r, <- app_assoc. reflexivity.
Qed.

Lemma tobytes_app (a1 a2 : list float32) : tobytes (a1 ++ a2) = tobytes a1 ++ tobytes a2.
Proof. apply flat_map_app. Qed.

Lemma f32_elements_app (l1 l2 : list byte) :
  (length l1 mod 4 = 0)%nat ->
  f32_elements (l1 ++ l2) = f32_elements l1 ++ f32_elements l2.
Proof.
  induction l1 as [|x|x y|x y z|x y z t l1 IH] using list_ind4;
    cbn [length]; intros H; try discriminate H.
  - reflexivity.
  - cbn [app f32_elements]. f_equal. apply IH.
    replace (S (S (S (S (length l1))))) with (length l1 + 1 * 4)%nat in H by lia.
    now rewrite Nat.Div0.mod_add in H.
Qed.

(** Decrypting under another IV changes the first block only. *)
Lemma cbc_decrypt_other_iv (n : nat) (key iv iv' padded : list byte) :
  key_size_ok key = true ->
  length iv = 16%nat -> length iv' = 16%nat -> length padded = (16 * S n)%nat ->
  cbc_decrypt_blocks (S n) key iv' (cbc_encrypt_blocks (S n) key iv padded) =
  xor_bytes (xor_bytes (firstn 16 padded) iv) iv' ++ skipn 16 padded.
Proof.
  intros Hk Hiv Hiv' Hp.
  cbn [cbc_encrypt_blocks cbc_decrypt_blocks].
  assert (Hf : length (firstn 16 padded) = 16%nat) by (rewrite length_firstn; lia).
  assert (Hx : length (xor_bytes (firstn 16 padded) iv) = 16%nat)
    by (rewrite xor_bytes_length; lia).
  pose proof (encrypt_block_length key _ Hk Hx) as Hc.
  rewrite (firstn_app_exact _ _ 16 Hc), (skipn_app_exact _ _ 16 Hc).
  rewrite decrypt_encrypt_block by assumption.
  rewrite cbc_decrypt_encrypt_blocks; [reflexivity|assumption|assumption|].
  rewrite length_skipn. lia.
Qed.

Lemma pad_same_length (d d' : list byte) :
  length d = length d' ->
  exists padding, Padding.pad d 16 = d ++ padding /\ Padding.pad d' 16 = d' ++ padding.
Proof.
  intros H. unfold Padding.pad. rewrite H. eauto.
Qed.

(** The array decrypted from an envelope whose IV was replaced. *)
Lemma decrypt_other_iv (self : IrisBiometricEngine) (iv iv' : list byte)
  (a : list float32) :
  engine_ok self -> length iv = 16%nat -> length iv' = 16%nat -> iv' <> iv ->
  Forall is_float32 a -> (4 <= length a)%nat ->
  exists a' : list float32,
    decrypt_template self
      (Base64.b64encode (iv' ++ skipn 16 (envelope self iv a))) = Some a' /\
    length a' = length a /\
    firstn 4 a' <> firstn 4 a /\
    skipn 4 a' = skipn 4 a.
Proof.
  intros Hs Hiv Hiv' Hne Ha Hlen.
  pose proof (engine_key_size self Hs) as Hk.
  unfold envelope. rewrite (skipn_app_exact _ _ 16 Hiv). unfold block_size.
  rewrite decrypt_template_blob by assumption. unfold block_size.
  (* the array and its bytes, split after four elements *)
  set (a1 := firstn 4 a). set (a2 := skipn 4 a).
  assert (Ea : a = a1 ++ a2) by (symmetry; apply firstn_skipn).
  assert (La1 : length a1 = 4%nat) by (unfold a1; rewrite length_firstn; lia).
  assert (Ha2 : Forall is_float32 a2).
  { apply Forall_forall. intros x Hx. rewrite Forall_forall in Ha. apply Ha.
    rewrite Ea. apply in_or_app. now right. }
  set (P1 := tobytes a1). set (R := tobytes a2).
  assert (LP1 : length P1 = 16%nat) by (unfold P1; rewrite tobytes_length; lia).
  assert (Eb : tobytes a = P1 ++ R) by (rewrite Ea at 1; apply tobytes_app).
  set (padded := Padding.pad (tobytes a) 16).
  pose proof (padded_blocks (tobytes a)) as Hp. fold padded in Hp.
  assert (Hlp : (32 <= length padded)%nat).
  { unfold padded. rewrite Padding.pad_length, tobytes_length.
    assert (1 <= 4 * length a / 16)%nat; [|lia].
    apply Nat.div_le_lower_bound; lia. }
  destruct (length padded / 16)%nat as [|n] eqn:En; [lia|].
  (* decryption under the other IV *)
  set (P1' := xor_bytes (xor_bytes P1 iv) iv').
  assert (LP1' : length P1' = 16%nat).
  { unfold P1'. rewrite !xor_bytes_length; rewrite ?xor_bytes_length; lia. }
  assert (HP1' : P1' <> P1).
  { unfold P1'. intros E.
    assert (E' : xor_bytes (xor_bytes P1 iv) iv' = xor_bytes (xor_bytes P1 iv) iv)
      by (rewrite E; symmetry; apply xor_bytes_involutive; lia).
    apply xor_bytes_cancel_l in E'; [contradiction| |];
      rewrite xor_bytes_length; lia. }
  unfold cbc_decrypt. cbn [cbc_key cbc_iv].
  rewrite (cbc_encrypt_blocks_length _ _ Hk iv padded Hiv Hp).
  rewrite Nat.mul_comm, Nat.Div0.mod_mul, Nat.div_mul by lia.
  cbn [Nat.eqb bind].
  rewrite (cbc_decrypt_other_iv n _ iv iv' padded Hk Hiv Hiv' Hp).
  destruct (pad_same_length (P1 ++ R) (P1' ++ R)) as (padding & Epad & Epad').
  { rewrite !length_app. lia. }
  assert (Efirst : firstn 16 padded = P1).
  { unfold padded. rewrite Eb, Epad, <- app_assoc. now apply firstn_app_exact. }
  assert (Eskip : skipn 16 padded = R ++ padding).
  { unfold padded. rewrite Eb, Epad, <- app_assoc. now apply skipn_app_exact. }
  rewrite Efirst, Eskip. fold P1'.
  rewrite app_assoc, <- Epad'.
  rewrite Padding.unpad_pad. cbn [bind].
  assert (HR : length R = (4 * length a2)%nat) by apply tobytes_length.
  unfold frombuffer. rewrite length_app, LP1', HR.
  replace (16 + 4 * length a2)%nat with ((4 + length a2) * 4)%nat by lia.
  rewrite Nat.Div0.mod_mul. cbn [Nat.eqb].
  rewrite f32_elements_app by (rewrite LP1'; reflexivity).
  unfold R. rewrite f32_elements_tobytes by assumption.
  assert (Le : length (f32_elements P1') = 4%nat)
    by (rewrite f32_elements_length, LP1'; reflexivity).
  eexists. split; [reflexivity|]. split; [|split].
  - rewrite length_app, Le, Ea, length_app. lia.
  - rewrite (firstn_app_exact _ _ 4 Le). intros E. apply HP1'.
    rewrite <- (tobytes_f32_elements P1') by (rewrite LP1'; reflexivity).
    now rewrite E.
  - apply (skipn_app_exact _ _ 4 Le).
Qed.

(** C10. No integrity check: for a template of at least four [float32]
    elements, replacing any one byte among the first sixteen (the IV) of the
    blob [encrypt_template] produced by a different byte still decrypts to a
    non-null array of the same length; its first four elements differ from
    the original's, the others are unchanged, and no failure is reported. *)
Theorem decrypt_accepts_tampered_iv
  (self : IrisBiometricEngine) (random_bytes : list byte) (T : template_data float32)
  (i : nat) (b : byte) :
  engine_ok self -> length random_bytes = 16%nat ->
  Forall is_float32 (template T) -> (4 <= length (template T))%nat ->
  (i < 16)%nat -> b <> nth i random_bytes Byte.x00 ->
  encrypt_template self random_bytes T =
    Some (Base64.b64encode (envelope self random_bytes (template T))) /\
  exists a' : list float32,
    decrypt_template self
      (Base64.b64encode (tamper i b (envelope self random_bytes (template T))))
      = Some a' /\
    length a' = length (template T) /\
    firstn 4 a' <> firstn 4 (template T) /\
    skipn 4 a' = skipn 4 (template T).
Proof.
  intros Hs Hiv HT Hlen Hi Hb.
  split; [now apply encrypt_template_envelope|].
  assert (E : tamper i b (envelope self random_bytes (template T)) =
              tamper i b random_bytes
                ++ skipn 16 (envelope self random_bytes (template T))).
  { unfold envelope at 2. rewrite (skipn_app_exact _ _ 16 Hiv).
    unfold envelope. apply tamper_app. lia. }
  rewrite E. apply decrypt_other_iv; auto.
  - rewrite tamper_length; lia.
  - intros Heq. apply Hb. rewrite <- Heq at 1. symmetry. apply tamper_nth. lia.
Qed.

End EnvelopeProperties.

(** ** A small instance of the interface

    A stand-in block transformation (the block is combined with the first
    sixteen key bytes and reversed) and a stand-in digest, on which the
    statements above are run at concrete inputs. *)

Module Toy.

Definition encrypt_block (key b : list byte) : list byte :=
  rev (xor_bytes b (firstn 16 key)).

Definition decrypt_block (key b : list byte) : list byte :=
  xor_bytes (rev b) (firstn 16 key).

Definition sha256 (m : list byte) : list byte :=
  firstn 32 (m ++ repeat Byte.x00 32).

Lemma key_prefix (key : list byte) :
  key_size_ok key = true -> length (firstn 16 key) = 16%nat.
Proof.
  unfold key_size_ok. intros H. rewrite length_firstn.
  apply orb_true_iff in H as [H|H]; [apply orb_true_iff in H as [H|H]|];
    apply Nat.eqb_eq in H; lia.
Qed.

Lemma encrypt_block_length (key b : list byte) :
  key_size_ok key = true -> length b = 16%nat -> length (encrypt_block key b) = 16%nat.
Proof.
  intros Hk Hb. unfold encrypt_block.
  rewrite length_rev, xor_bytes_length; rewrite ?(key_prefix key Hk); lia.
Qed.

Lemma decrypt_block_length (key b : list byte) :
  key_size_ok key = true -> length b = 16%nat -> length (decrypt_block key b) = 16%nat.
Proof.
  intros Hk Hb. unfold decrypt_block.
  rewrite xor_bytes_length; rewrite length_rev, ?(key_prefix key Hk); lia.
Qed.

Lemma decrypt_encrypt_block (key b : list byte) :
  key_size_ok key = true -> length b = 16%nat ->
  decrypt_block key (encrypt_block key b) = b.
Proof.
  intros Hk Hb. unfold decrypt_block, encrypt_block.
  rewrite rev_involutive. apply xor_bytes_involutive.
  rewrite (key_prefix key Hk). lia.
Qed.

Lemma encrypt_decrypt_block (key b : list byte) :
  key_size_ok key = true -> length b = 16%nat ->
  encrypt_block key (decrypt_block key b) = b.
Proof.
  intros Hk Hb. unfold decrypt_block, encrypt_block.
  rewrite xor_bytes_involutive; [apply rev_involutive|].
  rewrite length_rev, (key_prefix key Hk). lia.
Qed.

Lemma sha256_length (m : list byte) : length (sha256 m) = 32%nat.
Proof.
  unfold sha256. rewrite length_firstn, length_app, repeat_length. lia.
Qed.

Definition crypto : CryptoLib :=
  Build_CryptoLib encrypt_block decrypt_block sha256
    encrypt_block_length decrypt_block_length
    decrypt_encrypt_block encrypt_decrypt_block sha256_length.

(** The engine built with no key and no environment variable. *)
Definition engine : IrisBiometricEngine := __init__ (crypto := crypto) None None.

Definition iv : list byte := map byte_of_N (map N.of_nat (seq 1 16)).

(** The array [1.0, 0.5, -2.0, 0.0, 0.25] as [float32] patterns. *)
Definition stored : template_data float32 :=
  {| template := [1065353216; 1056964608; 3221225472; 0; 1048576000];
     quality_score := 0.5%R;
     num_frames := 5 |}.

Lemma stored_float32 : Forall is_float32 (template stored).
Proof. repeat constructor; unfold is_float32; lia. Qed.

End Toy.

Lemma encrypt_decrypt_round_trip_witness :
  exists encrypted : string,
    encrypt_template (crypto := Toy.crypto) Toy.engine Toy.iv Toy.stored = Some encrypted /\
    decrypt_template (crypto := Toy.crypto) Toy.engine encrypted
      = Some (template Toy.stored).
Proof.
  apply (encrypt_decrypt_round_trip (crypto := Toy.crypto)).
  - apply init_ok.
  - reflexivity.
  - exact Toy.stored_float32.
Defined.

Lemma decrypt_template_fails_closed_witness :
  decrypt_template (crypto := Toy.crypto) Toy.engine "not-valid-base64!!!" = None.
Proof.
  apply (decrypt_template_fails_closed (crypto := Toy.crypto)).
  intros (iv & a & _ & _ & H).
  change (Base64.b64decode "not-valid-base64!!!")
    with (@Raise (list byte) "Incorrect padding") in H.
  discriminate H.
Defined.

Lemma decrypt_accepts_tampered_iv_witness :
  encrypt_template (crypto := Toy.crypto) Toy.engine Toy.iv Toy.stored =
    Some (Base64.b64encode
            (envelope (crypto := Toy.crypto) Toy.engine Toy.iv (template Toy.stored))) /\
  exists a' : list float32,
    decrypt_template (crypto := Toy.crypto) Toy.engine
      (Base64.b64encode
         (tamper 3 Byte.xff
            (envelope (crypto := Toy.crypto) Toy.engine Toy.iv (template Toy.stored))))
      = Some a' /\
    length a' = length (template Toy.stored) /\
    firstn 4 a' <> firstn 4 (template Toy.stored) /\
    skipn 4 a' = skipn 4 (template Toy.stored).
Proof.
  apply (decrypt_accepts_tampered_iv (crypto := Toy.crypto)).
  - apply init_ok.
  - reflexivity.
  - exact Toy.stored_float32.
  - simpl. lia.
  - lia.
  - vm_compute. discriminate.
Defined.

(** ** Numeric arrays

    One-dimensional [numpy] arrays of floats are lists of reals.  The
    functions below are the elementary [numpy] and [scipy] operations the
    engine calls; an operation that raises on a shape mismatch does so here.
    A division by zero, which yields [nan] or [inf] in [numpy], has no
    counterpart over the reals: the statements about scores are about
    arrays on which it does not occur. *)

Module Num.

Local Open Scope R_scope.

Definition Rltb (x y : R) : bool := if Rlt_dec x y then true else false.

Lemma Rltb_true (x y : R) : Rltb x y = true <-> x < y.
Proof. unfold Rltb. destruct (Rlt_dec x y); split; auto; discriminate. Qed.

Lemma Rltb_false (x y : R) : Rltb x y = false <-> ~ x < y.
Proof. unfold Rltb. destruct (Rlt_dec x y); split; auto; try discriminate. tauto. Qed.

Definition sum (v : list R) : R := fold_right Rplus 0 v.

(** [np.dot] of two one-dimensional arrays. *)
Definition dot (u v : list R) : exc R :=
  if Nat.eqb (length u) (length v) then
    Ok (sum (map (fun p => fst p * snd p) (combine u v)))
  else
    let n := str_of_nat (length u) in
    let m := str_of_nat (length v) in
    Raise ("shapes (" ++ n ++ ",) and (" ++ m ++ ",) not aligned: "
           ++ n ++ " (dim 0) != " ++ m ++ " (dim 0)")%string.

(** [np.linalg.norm] of a one-dimensional array. *)
Definition norm (v : list R) : R := sqrt (sum (map (fun x => x * x) v)).

(** [u - v] with [numpy] broadcasting of a one-element array. *)
Definition sub (u v : list R) : exc (list R) :=
  if Nat.eqb (length u) (length v) then
    Ok (map (fun p => fst p - snd p) (combine u v))
  else
    match u, v with
    | [x], _ => Ok (map (fun y => x - y) v)
    | _, [y] => Ok (map (fun x => x - y) u)
    | _, _ => Raise "operands could not be broadcast together"
    end.

(** [np.clip]. *)
Definition clip (x lo hi : R) : R := Rmin (Rmax x lo) hi.

(** [scipy.spatial.distance.cosine]: one minus the cosine of the angle,
    clipped to [[0, 2]].  (For an array of zeros, or an empty one, the
    quotient is 0/0, which the package computes as nan; the real number it
    is here stands for nothing then, and what is stated about the
    similarity leaves such arrays out.) *)
Definition cosine (u v : list R) : exc R :=
  (uv <- dot u v ;;
   uu <- dot u u ;;
   vv <- dot v v ;;
   let dist := 1 - uv / sqrt (uu * vv) in
   Ok (clip dist 0 2))%exc.

(** [np.mean] and [np.var] of a one-dimensional array. *)
Definition mean (v : list R) : R := sum v / INR (length v).

Definition var (v : list R) : R :=
  let m := mean v in
  mean (map (fun x => (x - m) * (x - m)) v).

Definition std (v : list R) : R := sqrt (var v).

Lemma dot_self (u : list R) : dot u u = Ok (sum (map (fun x => x * x) u)).
Proof.
  unfold dot. rewrite Nat.eqb_refl. f_equal. f_equal.
  induction u as [|x u IH]; [reflexivity|].
  cbn [combine map fst snd]. now rewrite IH.
Qed.

Lemma sum_squares_nonneg (u : list R) : 0 <= sum (map (fun x => x * x) u).
Proof.
  induction u as [|x u IH]; cbn [map sum fold_right]; [lra|].
  fold (sum (map (fun x => x * x) u)). nra.
Qed.

Lemma sum_squares_pos (u : list R) :
  Exists (fun x => x <> 0) u -> 0 < sum (map (fun x => x * x) u).
Proof.
  induction 1 as [x u Hx|x u _ IH]; cbn [map sum fold_right];
    fold (sum (map (fun x => x * x) u)).
  - pose proof (sum_squares_nonneg u). nra.
  - nra.
Qed.

Lemma sub_self (u : list R) : sub u u = Ok (map (fun _ => 0) u).
Proof.
  unfold sub. rewrite Nat.eqb_refl. f_equal.
  induction u as [|x u IH]; [reflexivity|].
  cbn [combine map fst snd]. rewrite IH. f_equal. lra.
Qed.

Lemma norm_zeros {A} (u : list A) : norm (map (fun _ => 0) u) = 0.
Proof.
  unfold norm.
  assert (E : sum (map (fun x => x * x) (map (fun _ : A => 0) u)) = 0).
  { induction u as [|x u IH]; [reflexivity|].
    cbn [map sum fold_right].
    fold (sum (map (fun x => x * x) (map (fun _ : A => 0) u))).
    rewrite IH. lra. }
  rewrite E. apply sqrt_0.
Qed.

Lemma clip_id (x lo hi : R) : lo <= x <= hi -> clip x lo hi = x.
Proof.
  intros H. unfold clip. rewrite Rmax_left by lra. apply Rmin_left. lra.
Qed.

(** The cosine distance of a non-zero array to itself is zero. *)
Lemma cosine_self (u : list R) : Exists (fun x => x <> 0) u -> cosine u u = Ok 0.
Proof.
  intros H. unfold cosine. rewrite dot_self. cbn [bind].
  pose proof (sum_squares_pos u H) as Hs.
  set (s := sum (map (fun x => x * x) u)) in *.
  rewrite sqrt_square by lra.
  replace (1 - s / s) with 0 by (field; lra).
  f_equal. apply clip_id. lra.
Qed.

End Num.

(** ** Matching *)

(** The real number a finite [float32] pattern denotes: sign bit, eight
    exponent bits, twenty-three fraction bits.  (Patterns with exponent 255
    are infinities and NaNs in IEEE-754; they denote no real number.) *)
Definition f32_value (w : float32) : R :=
  let sign := w / 2 ^ 31 in
  let e := (w / 2 ^ 23) mod 256 in
  let m := w mod 2 ^ 23 in
  let magnitude :=
    if e =? 0 then (IZR m * powerRZ 2 (-149))%R
    else (IZR (2 ^ 23 + m) * powerRZ 2 (e - 150))%R in
  if sign =? 0 then magnitude else (- magnitude)%R.

(** What [match_templates] accepts for a template. *)
Inductive template_arg :=
| Array (a : list R)
| Encrypted (s : string)
| PyNone.

(** The dictionary [match_templates] returns: the keys [match] and
    [confidence] are always present, [distance] and [similarity] on the
    scoring path, [error] on the failure paths. *)
Record match_result := {
  is_match : bool;
  confidence : R;
  distance : option R;
  similarity : option R;
  error : option string
}.

Definition match_failure (reason : string) : match_result :=
  {| is_match := false; confidence := 0%R;
     distance := None; similarity := None; error := Some reason |}.

Definition default_threshold : R := 0.15%R.

Section Matching.

Context {crypto : CryptoLib}.

Local Open Scope R_scope.

(** [if isinstance(t, str): t = self.decrypt_template(t)]. *)
Definition decrypt_if_needed (self : IrisBiometricEngine) (t : template_arg)
  : option (list R) :=
  match t with
  | Array a => Some a
  | Encrypted s => option_map (map f32_value) (decrypt_template self s)
  | PyNone => None
  end.

Definition match_templates (self : IrisBiometricEngine)
  (template1 template2 : template_arg) (threshold : R) : match_result :=
  let body : exc match_result :=
    match decrypt_if_needed self template1, decrypt_if_needed self template2 with
    | Some template1, Some template2 =>
        (cos <- Num.cosine template1 template2 ;;
         let similarity := 1 - cos in
         diff <- Num.sub template1 template2 ;;
         let distance := Num.norm diff in
         let normalized_distance := distance / sqrt (INR (length template1)) in
         let confidence := (similarity + (1 - normalized_distance)) / 2 in
         let is_match := Num.Rltb normalized_distance threshold in
         Ok {| is_match := is_match;
               confidence := confidence;
               distance := Some normalized_distance;
               similarity := Some similarity;
               error := None |})%exc
    | _, _ => Ok (match_failure "Decryption failed")
    end in
  match body with
  | Ok result => result
  | Raise e => match_failure e
  end.

(** The three failures: a null input, a string that does not decrypt, two
    arrays of different lengths. *)
Definition cannot_match (self : IrisBiometricEngine) (t1 t2 : template_arg) : Prop :=
  decrypt_if_needed self t1 = None \/
  decrypt_if_needed self t2 = None \/
  exists a b, decrypt_if_needed self t1 = Some a /\
              decrypt_if_needed self t2 = Some b /\
              length a <> length b.

Lemma decrypt_if_needed_None (self : IrisBiometricEngine) (t : template_arg) :
  decrypt_if_needed self t = None <->
  t = PyNone \/ exists s, t = Encrypted s /\ decrypt_template self s = None.
Proof.
  destruct t as [a|s|]; cbn [decrypt_if_needed]; split.
  - discriminate.
  - intros [H|(s & H & _)]; discriminate H.
  - destruct (decrypt_template self s) eqn:E; [discriminate|]. eauto.
  - intros [H|(s' & H & H')]; [discriminate|]. injection H as <-. now rewrite H'.
  - auto.
  - auto.
Qed.

Lemma cosine_mismatch (a b : list R) :
  length a <> length b ->
  exists rest : string, Num.cosine a b = Raise (String "s" rest).
Proof.
  intros H. unfold Num.cosine, Num.dot.
  destruct (Nat.eqb_spec (length a) (length b)); [contradiction|].
  cbn [bind append]. eauto.
Qed.

Lemma match_templates_failure (self : IrisBiometricEngine)
  (t1 t2 : template_arg) (threshold : R) :
  cannot_match self t1 t2 ->
  exists reason : string,
    match_templates self t1 t2 threshold = match_failure reason /\ reason <> ""%string.
Proof.
  unfold match_templates. intros [H|[H|(a & b & Ha & Hb & Hl)]].
  - rewrite H. exists "Decryption failed"%string. split; [reflexivity|discriminate].
  - rewrite H. exists "Decryption failed"%string.
    split; [|discriminate]. destruct (decrypt_if_needed self t1); reflexivity.
  - destruct (cosine_mismatch a b Hl) as [rest Hc].
    rewrite Ha, Hb, Hc. cbn [bind].
    exists (String "s" rest). split; [reflexivity|discriminate].
Qed.

(** C4. [match_templates] is total (it raises on no input), and on a
    failure, that is a null input, a string [decrypt_template] rejects, or
    two templates of different dimensions, it returns the structured result
    with [match] false, [confidence] 0.0 and a non-empty [error] string. *)
Theorem match_templates_never_raises (self : IrisBiometricEngine)
  (template1 template2 : template_arg) (threshold : R) :
  cannot_match self template1 template2 ->
  exists reason : string,
    let result := match_templates self template1 template2 threshold in
    is_match result = false /\
    confidence result = 0 /\
    error result = Some reason /\
    reason <> ""%string.
Proof.
  intros H.
  destruct (match_templates_failure self template1 template2 threshold H)
    as (reason & E & Hne).
  exists reason. cbv zeta. rewrite E. auto.
Qed.

Lemma match_templates_self (self : IrisBiometricEngine) (a : list R) (threshold : R) :
  Exists (fun x => x <> 0) a -> 0 < threshold ->
  match_templates self (Array a) (Array a) threshold =
  {| is_match := true; confidence := 1;
     distance := Some 0; similarity := Some 1; error := None |}.
Proof.
  intros Ha Ht. unfold match_templates. cbn [decrypt_if_needed].
  rewrite (Num.cosine_self a Ha). cbn [bind].
  rewrite Num.sub_self. cbn [bind].
  rewrite Num.norm_zeros.
  replace (0 / sqrt (INR (length a))) with 0 by (unfold Rdiv; ring).
  replace (Num.Rltb 0 threshold) with true
    by (symmetry; now apply Num.Rltb_true).
  f_equal; [lra | f_equal; lra].
Qed.


End Matching.

Lemma match_templates_never_raises_witness :
  exists reason : string,
    let result :=
      match_templates (crypto := Toy.crypto) Toy.engine
        (Encrypted "not-valid-base64!!!") (Array [1%R; 2%R]) default_threshold in
    is_match result = false /\
    confidence result = 0%R /\
    error result = Some reason /\
    reason <> ""%string.
Proof.
  apply (match_templates_never_raises (crypto := Toy.crypto)).
  left. reflexivity.
Defined.


(** ** Images

    A two-dimensional [uint8] array is its shape and its intensities by row
    and column; [crop] is [numpy]'s basic slicing [img[y1:y2, x1:x2]], with
    Python's treatment of negative and out-of-range bounds. *)

Record image := {
  rows : nat;
  cols : nat;
  pixel : nat -> nat -> Z
}.

(** [ndarray.size]. *)
Definition size (img : image) : nat := (rows img * cols img)%nat.

(** A decoded colour image (three channels per pixel). *)
Record color_image := {
  color_rows : nat;
  color_cols : nat;
  channel : nat -> nat -> nat -> Z
}.

(** A bound of a slice over [n] elements, as [slice.indices] normalises it. *)
Definition slice_index (n : nat) (k : Z) : Z :=
  if k <? 0 then Z.max 0 (k + Z.of_nat n) else Z.min k (Z.of_nat n).

(** Offset and length of [start:stop] over [n] elements. *)
Definition slice (n : nat) (start stop : Z) : nat * nat :=
  let a := slice_index n start in
  let b := slice_index n stop in
  (Z.to_nat a, Z.to_nat (b - a)).

Definition crop (img : image) (y1 y2 x1 x2 : Z) : image :=
  let '(oy, h) := slice (rows img) y1 y2 in
  let '(ox, w) := slice (cols img) x1 x2 in
  {| rows := h; cols := w;
     pixel := fun i j => pixel img (oy + i)%nat (ox + j)%nat |}.

(** [ndarray.ravel]: the intensities row by row. *)
Definition ravel (img : image) : list Z :=
  flat_map (fun i => map (fun j => pixel img i j) (seq 0 (cols img)))
           (seq 0 (rows img)).

(** [np.around]: rounding to the nearest integer, halves to the even one. *)
Definition np_around (q : Q) : Z :=
  let f := Qfloor q in
  match Qcompare (q - inject_Z f) (1 # 2) with
  | Lt => f
  | Gt => f + 1
  | Eq => if Z.even f then f else f + 1
  end.

(** [np.uint16] of an integral value. *)
Definition np_uint16 (z : Z) : Z := z mod 2 ^ 16.

(** [int(r * 1.3)], truncation of the product. *)
Definition expand_radius (r : Z) : Z := Qfloor (inject_Z r * 1.3).

(** How the installed NumPy types [a - b] and [a + b] for a [uint16] scalar
    [a] and a Python [int] [b].  NumPy 1.x promotes by value: both become
    signed integers wide enough for the result.  Since NumPy 2 the Python
    [int] takes the type of the scalar: the operation raises
    [OverflowError] when [b] is no [uint16] value, and its result is a
    [uint16] that wraps around. *)
Inductive promotion := value_based | weak_scalar.

Definition uint16_result (p : promotion) (z : Z) : Z :=
  match p with
  | value_based => z
  | weak_scalar => np_uint16 z
  end.

Definition uint16_op (p : promotion) (op : Z -> Z -> Z) (a b : Z) : exc Z :=
  match p with
  | value_based => Ok (op a b)
  | weak_scalar =>
      if (0 <=? b) && (b <? 2 ^ 16) then Ok (np_uint16 (op a b))
      else Raise "Python integer out of bounds for uint16"
  end.

Lemma slice_length_pos (n : nat) (a b : Z) :
  0 <= a -> a < b -> a < Z.of_nat n -> (0 < snd (slice n a b))%nat.
Proof.
  intros Ha Hab Hn. unfold slice, slice_index. cbn [snd].
  destruct (Z.ltb_spec a 0); [lia|].
  destruct (Z.ltb_spec b 0); [lia|]. lia.
Qed.

Lemma slice_length_zero (n : nat) (a b : Z) :
  0 <= a -> 0 <= b -> b <= a \/ Z.of_nat n <= a -> snd (slice n a b) = 0%nat.
Proof.
  intros Ha Hb H. unfold slice, slice_index. cbn [snd].
  destruct (Z.ltb_spec a 0); [lia|].
  destruct (Z.ltb_spec b 0); [lia|]. lia.
Qed.

Lemma crop_rows (img : image) (y1 y2 x1 x2 : Z) :
  rows (crop img y1 y2 x1 x2) = snd (slice (rows img) y1 y2).
Proof.
  unfold crop. destruct (slice (rows img) y1 y2), (slice (cols img) x1 x2).
  reflexivity.
Qed.

Lemma crop_cols (img : image) (y1 y2 x1 x2 : Z) :
  cols (crop img y1 y2 x1 x2) = snd (slice (cols img) x1 x2).
Proof.
  unfold crop. destruct (slice (rows img) y1 y2), (slice (cols img) x1 x2).
  reflexivity.
Qed.

Lemma np_around_bounds (q : Q) : Qfloor q <= np_around q <= Qfloor q + 1.
Proof.
  unfold np_around.
  destruct (Qcompare _ _); [destruct (Z.even _)| |]; lia.
Qed.

Lemma Qfloor_nonneg (q : Q) : (0 <= q)%Q -> 0 <= Qfloor q.
Proof. intros H. apply (Qfloor_resp_le 0 q) in H. exact H. Qed.

Lemma Qfloor_lt (q : Q) (n : Z) : (q < inject_Z n)%Q -> Qfloor q < n.
Proof.
  intros H. pose proof (Qfloor_le q) as Hf.
  assert (Hlt : (inject_Z (Qfloor q) < inject_Z n)%Q) by (eapply Qle_lt_trans; eauto).
  rewrite <- Zlt_Qlt in Hlt. exact Hlt.
Qed.

Lemma Qfloor_ge (q : Q) (n : Z) : (inject_Z n <= q)%Q -> n <= Qfloor q.
Proof. intros H. apply Qfloor_resp_le in H. now rewrite Qfloor_Z in H. Qed.

Lemma Qfloor_le_Z (q : Q) (n : Z) : (q <= inject_Z n)%Q -> Qfloor q <= n.
Proof. intros H. apply Qfloor_resp_le in H. now rewrite Qfloor_Z in H. Qed.

(** A coordinate inside [[0, n)] stays in [[0, n]] when rounded and cast. *)
Lemma coordinate_in_range (q : Q) (n : nat) :
  (0 <= q)%Q -> (q < inject_Z (Z.of_nat n))%Q ->
  0 <= np_uint16 (np_around q) <= Z.of_nat n.
Proof.
  intros H0 Hn.
  pose proof (np_around_bounds q) as Hb.
  pose proof (Qfloor_nonneg q H0) as Hf0.
  pose proof (Qfloor_lt q _ Hn) as Hfn.
  unfold np_uint16.
  pose proof (Z.mod_pos_bound (np_around q) (2 ^ 16) ltac:(lia)) as Hm.
  pose proof (Z.mod_le (np_around q) (2 ^ 16) ltac:(lia) ltac:(lia)). lia.
Qed.

(** A radius of at least 20 and at most 120 gives an expanded radius of at
    least 26. *)
Lemma expanded_radius_pos (q : Q) :
  (inject_Z 20 <= q)%Q -> (q <= inject_Z 120)%Q ->
  26 <= expand_radius (np_uint16 (np_around q)).
Proof.
  intros Hlo Hhi.
  pose proof (np_around_bounds q) as Hb.
  pose proof (Qfloor_ge q 20 Hlo) as H20.
  pose proof (Qfloor_le_Z q 120 Hhi) as H120.
  unfold np_uint16. rewrite Z.mod_small by lia.
  unfold expand_radius.
  apply (Qfloor_ge _ 26).
  assert (E : (inject_Z 26 == inject_Z 20 * 1.3)%Q) by reflexivity.
  rewrite E. apply Qmult_le_compat_r; [|discriminate].
  rewrite <- Zle_Qle. lia.
Qed.

(** ** The image-processing packages

    The OpenCV and scikit-image operations the engine calls, with what the
    engine relies on: which inputs they accept, the shape of what they
    return, and the range of the circles and of the pattern codes; and the
    promotion rule of the NumPy that is installed with them. *)

Definition circle : Type := (Q * Q * Q)%type.

Definition HOUGH_GRADIENT : Z := 3.

Class VisionLib := {
  (** [cv2.imdecode(buf, cv2.IMREAD_COLOR)]: [None] when the buffer is not an
      image. *)
  imdecode : list byte -> exc (option color_image);
  (** [cv2.cvtColor(img, cv2.COLOR_BGR2GRAY)]. *)
  cvtColor_BGR2GRAY : color_image -> exc image;
  (** [cv2.createCLAHE(clipLimit, tileGridSize).apply(gray)]. *)
  CLAHE_apply : Q -> nat * nat -> image -> exc image;
  fastNlMeansDenoising : image -> exc image;
  (** [cv2.GaussianBlur(img, ksize, sigmaX)]. *)
  GaussianBlur : image -> nat * nat -> Q -> exc image;
  (** [cv2.HoughCircles(img, method, dp, minDist, param1, param2, minRadius,
      maxRadius)]: [None], or the circles [(x, y, r)] found. *)
  HoughCircles : image -> Z -> Q -> Q -> Q -> Q -> Z -> Z -> exc (option (list circle));
  (** [cv2.resize(img, (width, height))]. *)
  resize : image -> nat * nat -> exc image;
  (** [local_binary_pattern(img, P, R, method='uniform').ravel()]. *)
  local_binary_pattern : image -> nat -> nat -> exc (list Z);
  (** [hog(img, orientations, pixels_per_cell, cells_per_block)]. *)
  hog : image -> nat -> nat * nat -> nat * nat -> exc (list R);
  (** [cv2.filter2D(img, cv2.CV_8UC3, cv2.getGaborKernel((21, 21), 5.0,
      theta / 4 * pi, 10.0, 0.5, 0))] for the orientation index [theta]. *)
  gabor_filter2D : image -> nat -> exc image;
  (** [cv2.Laplacian(img, cv2.CV_64F).ravel()]. *)
  Laplacian : image -> exc (list R);
  (** The promotion rule of the installed NumPy. *)
  scalar_promotion : promotion;

  GaussianBlur_accepts : forall img ksize sigma,
    (0 < size img)%nat ->
    exists blurred, GaussianBlur img ksize sigma = Ok blurred;
  GaussianBlur_shape : forall img ksize sigma blurred,
    GaussianBlur img ksize sigma = Ok blurred ->
    rows blurred = rows img /\ cols blurred = cols img;
  HoughCircles_accepts : forall img method dp minDist p1 p2 minR maxR,
    (0 < size img)%nat ->
    exists found, HoughCircles img method dp minDist p1 p2 minR maxR = Ok found;
  (** Circles are reported with their centre inside the image and their
      radius between the bounds asked for; [None] stands for no circle. *)
  HoughCircles_found : forall img method dp minDist p1 p2 minR maxR circles,
    HoughCircles img method dp minDist p1 p2 minR maxR = Ok (Some circles) ->
    circles <> [] /\
    Forall (fun c : circle =>
              let '(x, y, r) := c in
              (0 <= x)%Q /\ (x < inject_Z (Z.of_nat (cols img)))%Q /\
              (0 <= y)%Q /\ (y < inject_Z (Z.of_nat (rows img)))%Q /\
              (inject_Z minR <= r)%Q /\ (r <= inject_Z maxR)%Q) circles;
  resize_accepts : forall img w h,
    (0 < size img)%nat -> (0 < w)%nat -> (0 < h)%nat ->
    exists out, resize img (w, h) = Ok out;
  resize_shape : forall img w h out,
    resize img (w, h) = Ok out -> rows out = h /\ cols out = w;
  (** Uniform patterns over [P] points take the [P + 2] codes [0 .. P + 1],
      one per pixel. *)
  local_binary_pattern_codes : forall img P radius codes,
    local_binary_pattern img P radius = Ok codes ->
    length codes = size img /\
    Forall (fun c => 0 <= c <= Z.of_nat P + 1) codes;
  (** One block per cell: a histogram of [orientations] bins for each cell
      of [cy] by [cx] pixels. *)
  hog_length : forall img orientations cy cx features,
    hog img orientations (cy, cx) (1, 1)%nat = Ok features ->
    (0 < cy)%nat -> (0 < cx)%nat ->
    length features = (rows img / cy * (cols img / cx) * orientations)%nat
}.

(** ** Frame decoding and region location *)

(** What a caller passes as a frame: base64 text, possibly after a data-URI
    prefix, or an array. *)
Inductive frame :=
| FrameText (s : string)
| FrameGray (img : image)
| FrameColor (img : color_image).

(** [s.split(',')[-1]]: what follows the last comma. *)
Fixpoint after_last_comma (s : string) : string :=
  match s with
  | EmptyString => EmptyString
  | String c rest =>
      if existsb (Ascii.eqb ","%char) (list_ascii_of_string rest)
      then after_last_comma rest
      else if Ascii.eqb c ","%char then rest else s
  end.

Section Pipeline.

Context {vision : VisionLib}.

Definition preprocess_frame (image_data : frame) : option image :=
  except_None (
    img <- match image_data with
           | FrameText s =>
               img_bytes <- Base64.b64decode (after_last_comma s) ;;
               decoded <- imdecode img_bytes ;;
               match decoded with
               | Some c => Ok (FrameColor c)
               | None => Raise "'NoneType' object has no attribute 'shape'"
               end
           | _ => Ok image_data
           end ;;
    gray <- match img with
            | FrameColor c => cvtColor_BGR2GRAY c
            | FrameGray g => Ok g
            | FrameText _ => Raise "'str' object has no attribute 'shape'"
            end ;;
    normalized <- CLAHE_apply 2.0 (8, 8)%nat gray ;;
    denoised <- fastNlMeansDenoising normalized ;;
    Ok denoised)%exc.

(** The fallback of [detect_iris_region]: the middle half of the image in
    each direction. *)
Definition center_crop (img : image) : image :=
  let h := Z.of_nat (rows img) in
  let w := Z.of_nat (cols img) in
  crop img (h / 4) (3 * h / 4) (w / 4) (3 * w / 4).

(** The region cut out around a circle [(x, y, r)] as [HoughCircles]
    reported it.  [x], [y] and [r] are rounded and cast to [uint16]; the
    expanded radius is a Python [int]; the bounds [x - r], [y - r], [x + r]
    and [y + r] are computed between a [uint16] scalar and that [int], as
    the installed NumPy does it. *)
Definition circle_crop (img : image) (c : circle) : exc image :=
  let '(x, y, r) := c in
  let x := np_uint16 (np_around x) in
  let y := np_uint16 (np_around y) in
  let r := np_uint16 (np_around r) in
  let r := expand_radius r in
  let h := Z.of_nat (rows img) in
  let w := Z.of_nat (cols img) in
  (x_minus_r <- uint16_op scalar_promotion Z.sub x r ;;
   let x1 := Z.max 0 x_minus_r in
   y_minus_r <- uint16_op scalar_promotion Z.sub y r ;;
   let y1 := Z.max 0 y_minus_r in
   x_plus_r <- uint16_op scalar_promotion Z.add x r ;;
   let x2 := Z.min w x_plus_r in
   y_plus_r <- uint16_op scalar_promotion Z.add y r ;;
   let y2 := Z.min h y_plus_r in
   Ok (crop img y1 y2 x1 x2))%exc.

Definition detect_iris_region (preprocessed_img : image) : option image :=
  let fallback : exc (option image) :=
    let center := center_crop preprocessed_img in
    if Nat.ltb 0 (size center) then
      (resized <- resize center (128, 128)%nat ;; Ok (Some resized))%exc
    else Ok None in
  let body : exc (option image) :=
    (blurred <- GaussianBlur preprocessed_img (5, 5)%nat 0 ;;
     circles <- HoughCircles blurred HOUGH_GRADIENT 1 100 50 30 20 120 ;;
     match circles with
     | Some found =>
         first <- match found with
                  | c :: _ => Ok c
                  | [] => Raise "index 0 is out of bounds"
                  end ;;
         iris_region <- circle_crop preprocessed_img first ;;
         if Nat.ltb 0 (size iris_region) then
           resized <- resize iris_region (128, 128)%nat ;; Ok (Some resized)
         else fallback
     | None => fallback
     end)%exc in
  match body with
  | Ok result => result
  | Raise _ => None
  end.

(** *** Region location: C8 *)

Lemma size_pos (img : image) : (0 < size img)%nat <-> (0 < rows img /\ 0 < cols img)%nat.
Proof. unfold size. nia. Qed.

Lemma center_crop_empty_of_empty (img : image) :
  size img = 0%nat -> size (center_crop img) = 0%nat.
Proof.
  unfold size, center_crop. intros H. rewrite crop_rows, crop_cols.
  assert (Hz : rows img = 0%nat \/ cols img = 0%nat) by nia.
  destruct Hz as [Hz|Hz]; rewrite Hz.
  - rewrite slice_length_zero; [reflexivity| | |]; cbn; lia.
  - rewrite (slice_length_zero 0); [lia| | |]; cbn; lia.
Qed.

(** A slice inside the array starts at its lower bound and has the length
    of the difference of its bounds. *)
Lemma slice_within (n : nat) (a b : Z) :
  0 <= a -> a <= b -> b <= Z.of_nat n ->
  slice n a b = (Z.to_nat a, Z.to_nat (b - a)).
Proof.
  intros Ha Hab Hb. unfold slice, slice_index.
  destruct (Z.ltb_spec a 0); [lia|].
  destruct (Z.ltb_spec b 0); [lia|].
  rewrite !Z.min_l by lia. reflexivity.
Qed.

Lemma expand_radius_upper (r : Z) : 0 <= r -> expand_radius r <= 2 * r.
Proof.
  intros Hr. unfold expand_radius. apply Qfloor_le_Z.
  unfold Qle. cbn [Qnum Qden inject_Z Qmult].
  change (Z.pos (1 * 10)) with 10. change (Z.pos 1) with 1. lia.
Qed.

(** What the contract of [HoughCircles] gives for the values read off the
    first circle: the centre lies in the image, the expanded radius between
    26 and 242. *)
Lemma reported_circle (img blurred : image) (cx cy cr : Q) (rest : list circle) :
  rows blurred = rows img -> cols blurred = cols img ->
  HoughCircles blurred HOUGH_GRADIENT 1 100 50 30 20 120
  = Ok (Some ((cx, cy, cr) :: rest)) ->
  let x := np_uint16 (np_around cx) in
  let y := np_uint16 (np_around cy) in
  let r := expand_radius (np_uint16 (np_around cr)) in
  0 <= x <= Z.of_nat (cols img) /\ x < 2 ^ 16 /\
  0 <= y <= Z.of_nat (rows img) /\ y < 2 ^ 16 /\
  26 <= r <= 242 /\
  0 < Z.of_nat (cols img) /\ 0 < Z.of_nat (rows img).
Proof.
  intros Hr Hc Hh. cbv zeta.
  apply HoughCircles_found in Hh as [_ Hf].
  apply Forall_inv in Hf.
  destruct Hf as (Hx0 & Hxw & Hy0 & Hyh & Hr0 & Hr1).
  rewrite Hc in Hxw. rewrite Hr in Hyh.
  pose proof (coordinate_in_range cx _ Hx0 Hxw) as Hx.
  pose proof (coordinate_in_range cy _ Hy0 Hyh) as Hy.
  pose proof (expanded_radius_pos cr Hr0 Hr1) as Hrad.
  assert (Hup : expand_radius (np_uint16 (np_around cr)) <= 242).
  { pose proof (np_around_bounds cr) as Hb.
    pose proof (Qfloor_ge cr 20 Hr0) as H20.
    pose proof (Qfloor_le_Z cr 120 Hr1) as H120.
    assert (E : np_uint16 (np_around cr) = np_around cr)
      by (unfold np_uint16; apply Z.mod_small; lia).
    rewrite E.
    pose proof (expand_radius_upper (np_around cr) ltac:(lia)). lia. }
  assert (Hw : 0 < Z.of_nat (cols img)).
  { pose proof (Qfloor_nonneg cx Hx0). pose proof (Qfloor_lt cx _ Hxw). lia. }
  assert (Hh' : 0 < Z.of_nat (rows img)).
  { pose proof (Qfloor_nonneg cy Hy0). pose proof (Qfloor_lt cy _ Hyh). lia. }
  pose proof (Z.mod_pos_bound (np_around cx) (2 ^ 16) ltac:(lia)).
  pose proof (Z.mod_pos_bound (np_around cy) (2 ^ 16) ltac:(lia)).
  unfold np_uint16 in *. lia.
Qed.

Lemma uint16_op_Ok (op : Z -> Z -> Z) (a b : Z) :
  0 <= b < 2 ^ 16 ->
  uint16_op scalar_promotion op a b = Ok (uint16_result scalar_promotion (op a b)).
Proof.
  intros Hb. unfold uint16_op, uint16_result.
  destruct scalar_promotion; [reflexivity|].
  destruct (Z.leb_spec 0 b); [|lia]. destruct (Z.ltb_spec b (2 ^ 16)); [|lia].
  reflexivity.
Qed.

(** The crop around a circle whose expanded radius is a [uint16] value. *)
Lemma circle_crop_Ok (img : image) (cx cy cr : Q) :
  let x := np_uint16 (np_around cx) in
  let y := np_uint16 (np_around cy) in
  let r := expand_radius (np_uint16 (np_around cr)) in
  let h := Z.of_nat (rows img) in
  let w := Z.of_nat (cols img) in
  0 <= r < 2 ^ 16 ->
  circle_crop img (cx, cy, cr) =
  Ok (crop img
        (Z.max 0 (uint16_result scalar_promotion (y - r)))
        (Z.min h (uint16_result scalar_promotion (y + r)))
        (Z.max 0 (uint16_result scalar_promotion (x - r)))
        (Z.min w (uint16_result scalar_promotion (x + r)))).
Proof.
  cbv zeta. intros Hr. unfold circle_crop.
  rewrite !uint16_op_Ok by assumption. reflexivity.
Qed.

(** The box of half-side [r] around [(x, y)], clipped to the image: its
    shape and its pixels. *)
Lemma clipped_box (img : image) (x y r : Z) :
  let h := Z.of_nat (rows img) in
  let w := Z.of_nat (cols img) in
  let y1 := Z.max 0 (y - r) in
  let y2 := Z.min h (y + r) in
  let x1 := Z.max 0 (x - r) in
  let x2 := Z.min w (x + r) in
  let region := crop img y1 y2 x1 x2 in
  0 <= x <= w -> 0 <= y <= h -> 0 < r -> 0 < w -> 0 < h ->
  rows region = Z.to_nat (y2 - y1) /\
  cols region = Z.to_nat (x2 - x1) /\
  (0 < size region)%nat /\
  (forall i j, pixel region i j = pixel img (Z.to_nat y1 + i)%nat (Z.to_nat x1 + j)%nat).
Proof.
  cbv zeta. intros Hx Hy Hr Hw Hh.
  unfold crop.
  rewrite (slice_within (rows img)) by lia.
  rewrite (slice_within (cols img)) by lia.
  cbn [rows cols pixel]. split; [reflexivity|]. split; [reflexivity|].
  split; [|reflexivity].
  apply size_pos. cbn [rows cols]. lia.
Qed.

(** With wrap-around, a bound below the radius gives an empty slice. *)
Lemma wrapped_slice_empty (n : nat) (a r : Z) :
  0 <= a -> a < r -> r <= 242 ->
  snd (slice n (Z.max 0 (np_uint16 (a - r))) (Z.min (Z.of_nat n) (np_uint16 (a + r))))
  = 0%nat.
Proof.
  intros Ha Har Hr. unfold np_uint16.
  assert (E1 : (a - r) mod 2 ^ 16 = a - r + 2 ^ 16).
  { symmetry. apply Z.mod_unique with (q := -1); lia. }
  assert (E2 : (a + r) mod 2 ^ 16 = a + r) by (apply Z.mod_small; lia).
  rewrite E1, E2.
  unfold slice, slice_index. cbn [snd].
  destruct (Z.ltb_spec (Z.max 0 (a - r + 2 ^ 16)) 0); [lia|].
  destruct (Z.ltb_spec (Z.min (Z.of_nat n) (a + r)) 0); [lia|].
  lia.
Qed.

(** The two outcomes of the fallback. *)
Definition falls_back (img : image) (result : option image) : Prop :=
  ((0 < size (center_crop img))%nat ->
   exists patch,
     resize (center_crop img) (128, 128)%nat = Ok patch /\ result = Some patch) /\
  (size (center_crop img) = 0%nat -> result = None).

(** What [detect_iris_region] returns after the circle search, by the
    region cut out around the first circle. *)
Lemma detect_iris_region_found (img blurred : image) (c : circle) (rest : list circle)
  (region : image) :
  GaussianBlur img (5, 5)%nat 0 = Ok blurred ->
  HoughCircles blurred HOUGH_GRADIENT 1 100 50 30 20 120 = Ok (Some (c :: rest)) ->
  circle_crop img c = Ok region ->
  ((0 < size region)%nat ->
   exists patch,
     resize region (128, 128)%nat = Ok patch /\ detect_iris_region img = Some patch) /\
  (size region = 0%nat -> falls_back img (detect_iris_region img)).
Proof.
  intros Hb Hh Hc. unfold detect_iris_region.
  rewrite Hb. cbn [bind]. rewrite Hh. cbn [bind]. rewrite Hc. cbn [bind]. split.
  - intros Hne.
    destruct (resize_accepts region 128 128 Hne) as [patch Hp]; [lia|lia|].
    exists patch. apply Nat.ltb_lt in Hne. rewrite Hne, Hp. auto.
  - intros Hz. rewrite Hz. change (Nat.ltb 0 0) with false. cbv iota.
    unfold falls_back. split.
    + intros Hne.
      destruct (resize_accepts (center_crop img) 128 128 Hne) as [patch Hp]; [lia|lia|].
      exists patch. apply Nat.ltb_lt in Hne. rewrite Hne, Hp. auto.
    + intros ->. reflexivity.
Qed.

Lemma detect_iris_region_no_circle (img blurred : image) :
  GaussianBlur img (5, 5)%nat 0 = Ok blurred ->
  HoughCircles blurred HOUGH_GRADIENT 1 100 50 30 20 120 = Ok None ->
  ((0 < size (center_crop img))%nat ->
   exists patch,
     resize (center_crop img) (128, 128)%nat = Ok patch /\
     detect_iris_region img = Some patch) /\
  (size (center_crop img) = 0%nat -> detect_iris_region img = None).
Proof.
  intros Hb Hh. unfold detect_iris_region.
  rewrite Hb. cbn [bind]. rewrite Hh. cbn [bind]. split.
  - intros Hne.
    destruct (resize_accepts (center_crop img) 128 128 Hne) as [patch Hp]; [lia|lia|].
    exists patch. apply Nat.ltb_lt in Hne. rewrite Hne, Hp. auto.
  - intros ->. reflexivity.
Qed.

(** The first circle with either promotion rule. *)
Lemma detect_iris_region_circle (img blurred : image) (cx cy cr : Q)
  (rest : list circle) :
  GaussianBlur img (5, 5)%nat 0 = Ok blurred ->
  HoughCircles blurred HOUGH_GRADIENT 1 100 50 30 20 120
  = Ok (Some ((cx, cy, cr) :: rest)) ->
  let x := np_uint16 (np_around cx) in
  let y := np_uint16 (np_around cy) in
  let r := Qfloor (inject_Z (np_uint16 (np_around cr)) * 1.3) in
  let h := Z.of_nat (rows img) in
  let w := Z.of_nat (cols img) in
  let region :=
    crop img (Z.max 0 (y - r)) (Z.min h (y + r)) (Z.max 0 (x - r)) (Z.min w (x + r)) in
  (scalar_promotion = value_based \/
   (r <= x /\ r <= y /\ x + r < 2 ^ 16 /\ y + r < 2 ^ 16) ->
   exists patch,
     resize region (128, 128)%nat = Ok patch /\ detect_iris_region img = Some patch) /\
  (scalar_promotion = weak_scalar -> x < r \/ y < r ->
   falls_back img (detect_iris_region img)).
Proof.
  intros Hb Hh. cbv zeta.
  destruct (GaussianBlur_shape _ _ _ _ Hb) as [Hrows Hcols].
  pose proof (reported_circle img blurred cx cy cr rest Hrows Hcols Hh) as Hc.
  cbv zeta in Hc. unfold expand_radius in Hc.
  destruct Hc as (Hx & Hx16 & Hy & Hy16 & Hr & Hw & Hh0).
  pose proof (circle_crop_Ok img cx cy cr) as Hcrop.
  cbv zeta in Hcrop. unfold expand_radius in Hcrop.
  specialize (Hcrop ltac:(lia)).
  set (x := np_uint16 (np_around cx)) in *.
  set (y := np_uint16 (np_around cy)) in *.
  set (r := Qfloor (inject_Z (np_uint16 (np_around cr)) * 1.3)) in *.
  split.
  - intros Hcase.
    assert (E : circle_crop img (cx, cy, cr) =
                Ok (crop img (Z.max 0 (y - r)) (Z.min (Z.of_nat (rows img)) (y + r))
                      (Z.max 0 (x - r)) (Z.min (Z.of_nat (cols img)) (x + r)))).
    { rewrite Hcrop. unfold uint16_result.
      destruct Hcase as [->|(Hrx & Hry & Hxr & Hyr)]; [reflexivity|].
      destruct scalar_promotion; [reflexivity|].
      unfold np_uint16. rewrite !Z.mod_small by lia. reflexivity. }
    destruct (detect_iris_region_found img blurred _ rest _ Hb Hh E) as [Hsome _].
    apply Hsome.
    now apply (clipped_box img x y r); try lia.
  - intros Hweak Hcross. rewrite Hweak in Hcrop. unfold uint16_result in Hcrop.
    destruct (detect_iris_region_found img blurred _ rest _ Hb Hh Hcrop) as [_ Hzero].
    apply Hzero. unfold size. rewrite crop_rows, crop_cols.
    destruct Hcross as [Hlt|Hlt].
    + rewrite (wrapped_slice_empty (cols img) x r) by lia. lia.
    + rewrite (wrapped_slice_empty (rows img) y r) by lia. lia.
Qed.

Lemma circle_crop_nonempty (img blurred : image) (c : circle) (rest : list circle) :
  scalar_promotion = value_based ->
  rows blurred = rows img -> cols blurred = cols img ->
  HoughCircles blurred HOUGH_GRADIENT 1 100 50 30 20 120 = Ok (Some (c :: rest)) ->
  exists region, circle_crop img c = Ok region /\ (0 < size region)%nat.
Proof.
  intros Hp Hr Hc Hh. destruct c as [[cx cy] cr].
  pose proof (reported_circle img blurred cx cy cr rest Hr Hc Hh) as Hrc.
  cbv zeta in Hrc. destruct Hrc as (Hx & Hx16 & Hy & Hy16 & Hrad & Hw & Hh0).
  pose proof (circle_crop_Ok img cx cy cr) as Hcrop. cbv zeta in Hcrop.
  specialize (Hcrop ltac:(lia)). rewrite Hp in Hcrop. unfold uint16_result in Hcrop.
  eexists. split; [exact Hcrop|].
  now apply clipped_box; try lia.
Qed.

Lemma detect_iris_region_None (img : image) :
  detect_iris_region img = None -> size (center_crop img) = 0%nat.
Proof.
  intros Hnone.
  destruct (Nat.eq_dec (size img) 0) as [He|Hne];
    [now apply center_crop_empty_of_empty|].
  assert (Hpos : (0 < size img)%nat) by lia.
  destruct (GaussianBlur_accepts img (5, 5)%nat 0 Hpos) as [blurred Hb].
  destruct (GaussianBlur_shape _ _ _ _ Hb) as [Hr Hc].
  assert (Hposb : (0 < size blurred)%nat) by (unfold size in *; rewrite Hr, Hc; lia).
  destruct (Nat.eq_dec (size (center_crop img)) 0) as [|Hcenter]; [assumption|].
  exfalso.
  destruct (HoughCircles_accepts blurred HOUGH_GRADIENT 1 100 50 30 20 120 Hposb)
    as [[[|[[cx cy] cr] rest]|] Hh].
  - apply HoughCircles_found in Hh as [Hh _]. now elim Hh.
  - pose proof (reported_circle img blurred cx cy cr rest Hr Hc Hh) as Hrc.
    cbv zeta in Hrc. destruct Hrc as (_ & _ & _ & _ & Hrad & _).
    pose proof (circle_crop_Ok img cx cy cr) as Hcrop. cbv zeta in Hcrop.
    specialize (Hcrop ltac:(lia)).
    destruct (detect_iris_region_found img blurred _ rest _ Hb Hh Hcrop)
      as [Hsome Hzero].
    match type of Hcrop with _ = Ok ?region =>
      destruct (Nat.eq_dec (size region) 0) as [Hz|Hnz] end.
    + destruct (Hzero Hz) as [Hfb _].
      destruct Hfb as (p & _ & E); [lia|]. rewrite E in Hnone. discriminate.
    + destruct Hsome as (p & _ & E); [lia|]. rewrite E in Hnone. discriminate.
  - destruct (detect_iris_region_no_circle img blurred Hb Hh) as [Hsome _].
    destruct Hsome as (p & _ & E); [lia|]. rewrite E in Hnone. discriminate.
Qed.

Lemma resized_shape (img out : image) :
  resize img (128, 128)%nat = Ok out -> rows out = 128%nat /\ cols out = 128%nat.
Proof. apply resize_shape. Qed.

Lemma detect_iris_region_shape (img patch : image) :
  detect_iris_region img = Some patch ->
  rows patch = 128%nat /\ cols patch = 128%nat.
Proof.
  unfold detect_iris_region.
  destruct (GaussianBlur img (5, 5)%nat 0) as [blurred|]; [|discriminate].
  cbn [bind].
  destruct (HoughCircles blurred HOUGH_GRADIENT 1 100 50 30 20 120)
    as [[[|c rest]|]|]; cbn [bind]; try discriminate.
  - destruct (circle_crop img c) as [region|]; cbn [bind]; [|discriminate].
    destruct (Nat.ltb 0 (size region)).
    + destruct (resize _ _) as [out|] eqn:E; cbn [bind]; [|discriminate].
      intros H. injection H as <-. now apply resized_shape in E.
    + destruct (Nat.ltb 0 (size (center_crop img))); [|discriminate].
      destruct (resize _ _) as [out|] eqn:E; cbn [bind]; [|discriminate].
      intros H. injection H as <-. now apply resized_shape in E.
  - destruct (Nat.ltb 0 (size (center_crop img))); [|discriminate].
    destruct (resize _ _) as [out|] eqn:E; cbn [bind]; [|discriminate].
    intros H. injection H as <-. now apply resized_shape in E.
Qed.

(** C8, as the code has it.  When the circle search finds a circle, the
    values of the first one are rounded, the radius is multiplied by 1.3
    and truncated, and the box of that half-side around the centre is
    clipped to the image: it is not empty, and its pixels are those of the
    image from its top-left corner on.  Under NumPy's value-based
    promotion, and under either rule when the box reaches beyond neither
    the top nor the left border, that box is what is returned, resized to
    128 by 128.  With the wrap-around of NumPy 2 a box that reaches beyond
    the top or the left border gives an empty crop instead, and the result
    is that of the fallback.  When no circle is found the middle half of
    the image is returned resized to 128 by 128; [None] is returned only
    when that crop is empty; every result that is not [None] is 128 by
    128. *)
Theorem detect_iris_region_spec (img : image) :
  (forall blurred cx cy cr rest,
      GaussianBlur img (5, 5)%nat 0 = Ok blurred ->
      HoughCircles blurred HOUGH_GRADIENT 1 100 50 30 20 120
      = Ok (Some ((cx, cy, cr) :: rest)) ->
      let x := np_uint16 (np_around cx) in
      let y := np_uint16 (np_around cy) in
      let r := Qfloor (inject_Z (np_uint16 (np_around cr)) * 1.3) in
      let h := Z.of_nat (rows img) in
      let w := Z.of_nat (cols img) in
      let y1 := Z.max 0 (y - r) in
      let y2 := Z.min h (y + r) in
      let x1 := Z.max 0 (x - r) in
      let x2 := Z.min w (x + r) in
      let region := crop img y1 y2 x1 x2 in
      (rows region = Z.to_nat (y2 - y1) /\
       cols region = Z.to_nat (x2 - x1) /\
       (0 < size region)%nat /\
       (forall i j,
           pixel region i j = pixel img (Z.to_nat y1 + i)%nat (Z.to_nat x1 + j)%nat)) /\
      (scalar_promotion = value_based \/
       (r <= x /\ r <= y /\ x + r < 2 ^ 16 /\ y + r < 2 ^ 16) ->
       exists patch,
         resize region (128, 128)%nat = Ok patch /\
         detect_iris_region img = Some patch) /\
      (scalar_promotion = weak_scalar -> x < r \/ y < r ->
       ((0 < size (center_crop img))%nat ->
        exists patch,
          resize (center_crop img) (128, 128)%nat = Ok patch /\
          detect_iris_region img = Some patch) /\
       (size (center_crop img) = 0%nat -> detect_iris_region img = None))) /\
  (forall blurred,
      GaussianBlur img (5, 5)%nat 0 = Ok blurred ->
      HoughCircles blurred HOUGH_GRADIENT 1 100 50 30 20 120 = Ok None ->
      (0 < size (center_crop img))%nat ->
      exists patch,
        resize (center_crop img) (128, 128)%nat = Ok patch /\
        detect_iris_region img = Some patch) /\
  (detect_iris_region img = None -> size (center_crop img) = 0%nat) /\
  (forall patch,
      detect_iris_region img = Some patch ->
      rows patch = 128%nat /\ cols patch = 128%nat).
Proof.
  split; [|split; [|split]].
  - intros blurred cx cy cr rest Hb Hh. cbv zeta.
    destruct (GaussianBlur_shape _ _ _ _ Hb) as [Hrows Hcols].
    pose proof (reported_circle img blurred cx cy cr rest Hrows Hcols Hh) as Hc.
    cbv zeta in Hc. unfold expand_radius in Hc.
    destruct Hc as (Hx & _ & Hy & _ & Hr & Hw & Hh0).
    split; [apply (clipped_box img); lia|].
    exact (detect_iris_region_circle img blurred cx cy cr rest Hb Hh).
  - intros blurred Hb Hh. now apply detect_iris_region_no_circle with blurred.
  - apply detect_iris_region_None.
  - apply detect_iris_region_shape.
Qed.

(** ** Feature extraction *)

(** [np.histogram(values, bins=32, range=(0, 32))[0]] for integral values:
    bin [k] counts the values in [[k, k + 1)], the last bin also 32. *)
Definition bin_index (v : Z) : option nat :=
  if (0 <=? v) && (v <? 32) then Some (Z.to_nat v)
  else if v =? 32 then Some 31%nat
  else None.

Definition in_bin (k : nat) (v : Z) : bool :=
  match bin_index v with
  | Some b => Nat.eqb b k
  | None => false
  end.

Definition np_histogram (values : list Z) : list nat :=
  map (fun k => length (filter (in_bin k) values)) (seq 0 32).

(** [ndarray.min], [ndarray.max] and [np.median] over the intensities. *)
Definition np_min (l : list Z) : exc Z :=
  match l with
  | [] => Raise "zero-size array to reduction operation minimum which has no identity"
  | x :: t => Ok (fold_left Z.min t x)
  end.

Definition np_max (l : list Z) : exc Z :=
  match l with
  | [] => Raise "zero-size array to reduction operation maximum which has no identity"
  | x :: t => Ok (fold_left Z.max t x)
  end.

Fixpoint insert_sorted (x : Z) (l : list Z) : list Z :=
  match l with
  | [] => [x]
  | y :: t => if x <=? y then x :: l else y :: insert_sorted x t
  end.

Definition sorted (l : list Z) : list Z := fold_right insert_sorted [] l.

Definition np_median (l : list Z) : R :=
  let s := sorted l in
  let n := length s in
  let lower := nth (n / 2 - 1)%nat s 0 in
  let upper := nth (n / 2)%nat s 0 in
  if Nat.even n then ((IZR lower + IZR upper) / 2)%R else IZR upper.

Definition intensities (img : image) : list R := map IZR (ravel img).

(** The LBP histogram, normalised to sum to one. *)
Definition lbp_histogram (lbp : list Z) : list R :=
  let lbp_hist := map INR (np_histogram lbp) in
  map (fun c => (c / (Num.sum lbp_hist + 1e-7))%R) lbp_hist.

(** Mean and standard deviation of the Gabor responses, one orientation
    after the other. *)
Fixpoint gabor_features (iris_region : image) (thetas : list nat) : exc (list R) :=
  match thetas with
  | [] => Ok []
  | theta :: rest =>
      (filtered <- gabor_filter2D iris_region theta ;;
       others <- gabor_features iris_region rest ;;
       Ok (Num.mean (intensities filtered) :: Num.std (intensities filtered) :: others))%exc
  end.

Definition intensity_statistics (iris_region : image) : exc (list R) :=
  (lowest <- np_min (ravel iris_region) ;;
   highest <- np_max (ravel iris_region) ;;
   Ok [ Num.mean (intensities iris_region);
        Num.std (intensities iris_region);
        np_median (ravel iris_region);
        IZR lowest;
        IZR highest ])%exc.

(** [v / (np.linalg.norm(v) + 1e-7)]. *)
Definition l2_normalize (v : list R) : list R :=
  map (fun x => (x / (Num.norm v + 1e-7))%R) v.

(** The four sub-features, concatenated in the order of the source. *)
Definition concatenated_features (iris_region : image) : exc (list R) :=
  (lbp <- local_binary_pattern iris_region 8 1 ;;
   let lbp_hist := lbp_histogram lbp in
   hog_features <- hog iris_region 8 (16, 16)%nat (1, 1)%nat ;;
   gabor <- gabor_features iris_region (seq 0 4) ;;
   stats <- intensity_statistics iris_region ;;
   Ok (lbp_hist ++ firstn 64 hog_features ++ gabor ++ stats))%exc.

(** [extract_features].  The vector is the normalised one: the final
    [astype('float32')], which changes a component by less than one part
    in ten million, is left out, and what is stated about the vector
    carries a tolerance that covers it. *)
Definition extract_features (iris_region : option image) : option (list R) :=
  let body : exc (option (list R)) :=
    match iris_region with
    | None => Ok None
    | Some iris_region =>
        if Nat.eqb (size iris_region) 0 then Ok None
        else
          (feature_vector <- concatenated_features iris_region ;;
           let feature_vector := l2_normalize feature_vector in
           Ok (Some feature_vector))%exc
    end in
  match body with
  | Ok result => result
  | Raise _ => None
  end.

(** ** Quality *)

Definition _calculate_quality (iris_region : image) : R :=
  let body : exc R :=
    (laplacian <- Laplacian iris_region ;;
     let sharpness := Num.var laplacian in
     let contrast := Num.std (intensities iris_region) in
     let quality := ((sharpness / 100 + contrast / 50) / 2)%R in
     Ok (Rmin 1 quality))%exc in
  match body with
  | Ok quality => quality
  | Raise _ => 0.5%R
  end.

(** *** Lengths and norm of the feature vector: C2 *)

Lemma np_histogram_length (values : list Z) : length (np_histogram values) = 32%nat.
Proof. unfold np_histogram. now rewrite length_map, length_seq. Qed.

Lemma list_sum_indicator (b n start : nat) :
  (start <= b < start + n)%nat ->
  list_sum (map (fun k => if Nat.eqb b k then 1 else 0)%nat (seq start n)) = 1%nat.
Proof.
  revert start. induction n as [|n IH]; intros start H; [lia|].
  cbn [seq map list_sum fold_right].
  destruct (Nat.eqb_spec b start) as [->|Hne].
  - assert (E : forall m s, (start < s)%nat ->
              list_sum (map (fun k => if Nat.eqb start k then 1 else 0)%nat (seq s m)) = 0%nat).
    { induction m as [|m IHm]; intros s Hs; [reflexivity|].
      cbn [seq map list_sum fold_right].
      destruct (Nat.eqb_spec start s); [lia|].
      fold (list_sum (map (fun k => if Nat.eqb start k then 1 else 0)%nat (seq (S s) m))).
      rewrite IHm by lia. reflexivity. }
    fold (list_sum (map (fun k => if Nat.eqb start k then 1 else 0)%nat (seq (S start) n))).
    rewrite E by lia. reflexivity.
  - fold (list_sum (map (fun k => if Nat.eqb b k then 1 else 0)%nat (seq (S start) n))).
    rewrite IH by lia. reflexivity.
Qed.

Lemma list_sum_map_add {A} (f g : A -> nat) (l : list A) :
  list_sum (map (fun k => f k + g k)%nat l) = (list_sum (map f l) + list_sum (map g l))%nat.
Proof.
  induction l as [|x l IH]; [reflexivity|].
  cbn [map list_sum fold_right].
  fold (list_sum (map (fun k => f k + g k)%nat l)) (list_sum (map f l)) (list_sum (map g l)).
  rewrite IH. lia.
Qed.

Lemma bin_index_in_range (v : Z) :
  0 <= v <= 32 -> exists b, bin_index v = Some b /\ (b < 32)%nat.
Proof.
  intros H. unfold bin_index.
  destruct (Z.leb_spec 0 v); [|lia].
  destruct (Z.ltb_spec v 32); cbn [andb].
  - exists (Z.to_nat v). split; [reflexivity|lia].
  - destruct (Z.eqb_spec v 32); [|lia]. exists 31%nat. split; [reflexivity|lia].
Qed.

(** Every value inside the range is counted once. *)
Lemma np_histogram_total (values : list Z) :
  Forall (fun v => 0 <= v <= 32) values ->
  list_sum (np_histogram values) = length values.
Proof.
  induction 1 as [|v values Hv _ IH]; unfold np_histogram in *.
  - cbn [filter length]. generalize (seq 0 32).
    induction l as [|k l IHl]; [reflexivity|]. exact IHl.
  - destruct (bin_index_in_range v Hv) as (b & Hb & Hlt).
    rewrite (map_ext _
      (fun k => ((if Nat.eqb b k then 1 else 0)
                 + length (filter (in_bin k) values))%nat)).
    + rewrite list_sum_map_add, IH, list_sum_indicator by lia.
      reflexivity.
    + intros k. cbn [filter]. unfold in_bin at 1. rewrite Hb.
      destruct (Nat.eqb b k); reflexivity.
Qed.

Lemma sum_nil : Num.sum [] = 0%R.
Proof. reflexivity. Qed.

Lemma sum_cons (x : R) (l : list R) : Num.sum (x :: l) = (x + Num.sum l)%R.
Proof. reflexivity. Qed.

Lemma sum_map_INR (l : list nat) : Num.sum (map INR l) = INR (list_sum l).
Proof.
  induction l as [|x l IH]; [reflexivity|].
  cbn [map]. rewrite sum_cons, IH.
  change (list_sum (x :: l)) with (x + list_sum l)%nat.
  now rewrite plus_INR.
Qed.

Lemma sum_map_div (l : list R) (d : R) :
  Num.sum (map (fun c => c / d)%R l) = (Num.sum l / d)%R.
Proof.
  induction l as [|x l IH]; cbn [map].
  - rewrite sum_nil. unfold Rdiv. ring.
  - rewrite !sum_cons, IH. unfold Rdiv. ring.
Qed.

Definition sum_squares (v : list R) : R := Num.sum (map (fun x => x * x)%R v).

Lemma sum_squares_nil : sum_squares [] = 0%R.
Proof. reflexivity. Qed.

Lemma sum_squares_cons (x : R) (v : list R) :
  sum_squares (x :: v) = (x * x + sum_squares v)%R.
Proof. reflexivity. Qed.

Lemma sum_squares_app (u v : list R) :
  sum_squares (u ++ v) = (sum_squares u + sum_squares v)%R.
Proof.
  induction u as [|x u IH]; cbn [app].
  - rewrite sum_squares_nil. ring.
  - rewrite !sum_squares_cons, IH. ring.
Qed.

Lemma sum_squares_div (v : list R) (d : R) :
  sum_squares (map (fun x => x / d)%R v) = (sum_squares v / (d * d))%R.
Proof.
  induction v as [|x v IH]; cbn [map].
  - rewrite sum_squares_nil. unfold Rdiv. ring.
  - rewrite !sum_squares_cons, IH. unfold Rdiv.
    destruct (Req_dec d 0) as [->|Hd].
    + rewrite Rmult_0_l, !Rinv_0. ring.
    + rewrite Rinv_mult. ring.
Qed.

(** The square of a sum of [n] numbers is at most [n] times the sum of
    their squares. *)
Lemma sum_sq_le (l : list R) :
  (Num.sum l * Num.sum l <= INR (length l) * sum_squares l)%R.
Proof.
  induction l as [|x l IH].
  - rewrite sum_nil, sum_squares_nil. cbn. lra.
  - rewrite sum_cons, sum_squares_cons.
    change (length (x :: l)) with (S (length l)). rewrite S_INR.
    set (s := Num.sum l) in *. set (q := sum_squares l) in *.
    set (n := INR (length l)) in *.
    assert (Hn : (0 <= n)%R) by apply pos_INR.
    assert (Hq : (0 <= q)%R) by apply Num.sum_squares_nonneg.
    assert (Hc : (2 * x * s <= n * (x * x) + q)%R).
    { destruct (Rle_lt_dec n 0) as [Hn0|Hn0].
      - assert (Hn1 : (n = 0)%R) by lra.
        assert (Hs : (s * s = 0)%R).
        { pose proof (Rle_0_sqr s) as H0. unfold Rsqr in H0.
          rewrite Hn1, Rmult_0_l in IH. lra. }
        apply Rmult_integral in Hs.
        assert (Hs0 : (s = 0)%R) by (destruct Hs; assumption).
        rewrite Hs0, Hn1. lra.
      - pose proof (Rle_0_sqr (n * x - s)) as Hsq. unfold Rsqr in Hsq.
        assert (Ht : (0 <= n * (n * (x * x) + q - 2 * x * s))%R).
        { replace (n * (n * (x * x) + q - 2 * x * s))%R
            with ((n * x - s) * (n * x - s) + (n * q - s * s))%R by ring.
          lra. }
        destruct (Rle_lt_dec 0 (n * (x * x) + q - 2 * x * s)) as [Hp|Hneg]; [lra|].
        pose proof (Rmult_lt_compat_l n _ 0 Hn0 Hneg) as Hcontra.
        rewrite Rmult_0_r in Hcontra. lra. }
    replace ((x + s) * (x + s))%R with (x * x + 2 * x * s + s * s)%R by ring.
    replace ((n + 1) * (x * x + q))%R with (n * (x * x) + q + x * x + n * q)%R by ring.
    lra.
Qed.

Lemma norm_sqrt (v : list R) : Num.norm v = sqrt (sum_squares v).
Proof. reflexivity. Qed.

Lemma norm_nonneg (v : list R) : (0 <= Num.norm v)%R.
Proof. apply sqrt_pos. Qed.

Lemma norm_l2_normalize (v : list R) :
  Num.norm (l2_normalize v) = (Num.norm v / (Num.norm v + 1e-7))%R.
Proof.
  unfold l2_normalize. pose proof (norm_nonneg v) as Hn.
  set (d := (Num.norm v + 1e-7)%R). assert (Hd : (0 < d)%R) by (unfold d; lra).
  rewrite norm_sqrt, sum_squares_div.
  rewrite sqrt_div_alt by nra.
  rewrite sqrt_square by lra. reflexivity.
Qed.

Lemma norm_lower_bound (v : list R) (c : R) :
  (0 <= c)%R -> (c * c <= sum_squares v)%R -> (c <= Num.norm v)%R.
Proof.
  intros Hc H. rewrite norm_sqrt, <- (sqrt_square c) by assumption.
  now apply sqrt_le_1_alt.
Qed.


Lemma lbp_histogram_length (lbp : list Z) : length (lbp_histogram lbp) = 32%nat.
Proof. unfold lbp_histogram. now rewrite !length_map, np_histogram_length. Qed.

(** The normalised histogram of at least one in-range code has a sum of
    squares of at least 0.03. *)
Lemma lbp_histogram_sum_squares (lbp : list Z) :
  lbp <> [] -> Forall (fun v => 0 <= v <= 32) lbp ->
  (0.03 <= sum_squares (lbp_histogram lbp))%R.
Proof.
  intros Hne Hr.
  pose proof (sum_sq_le (lbp_histogram lbp)) as Hcs.
  rewrite lbp_histogram_length in Hcs.
  unfold lbp_histogram in Hcs at 1 2.
  rewrite sum_map_div, sum_map_INR, np_histogram_total in Hcs by assumption.
  assert (Hlen : (1 <= INR (length lbp))%R).
  { destruct lbp as [|x l]; [congruence|].
    change 1%R with (INR 1). apply le_INR. cbn [length]. lia. }
  set (S := INR (length lbp)) in *.
  assert (Hratio : (0.99 <= S / (S + 1e-7))%R).
  { apply (Rmult_le_reg_r (S + 1e-7)); [lra|].
    unfold Rdiv. rewrite Rmult_assoc, Rinv_l by lra. lra. }
  assert (H32 : INR 32 = 32%R) by (rewrite INR_IZR_INZ; reflexivity).
  rewrite H32 in Hcs.
  set (r := (S / (S + 1e-7))%R) in *.
  assert (Hr2 : (0.99 * 0.99 <= r * r)%R) by (apply Rmult_le_compat; lra).
  lra.
Qed.

Lemma gabor_features_length (img : image) (thetas : list nat) (g : list R) :
  gabor_features img thetas = Ok g -> length g = (2 * length thetas)%nat.
Proof.
  revert g. induction thetas as [|theta rest IH]; intros g H; cbn [gabor_features] in H.
  - injection H as <-. reflexivity.
  - apply bind_Ok in H as (filtered & _ & H).
    apply bind_Ok in H as (others & Ho & H).
    injection H as <-. cbn [length]. rewrite (IH others Ho). lia.
Qed.

Lemma intensity_statistics_length (img : image) (stats : list R) :
  intensity_statistics img = Ok stats -> length stats = 5%nat.
Proof.
  unfold intensity_statistics. intros H.
  apply bind_Ok in H as (lowest & _ & H).
  apply bind_Ok in H as (highest & _ & H).
  injection H as <-. reflexivity.
Qed.

Lemma l2_normalize_length (v : list R) : length (l2_normalize v) = length v.
Proof. apply length_map. Qed.

(** The parts of the concatenated vector of a 128 by 128 patch. *)
Lemma concatenated_features_128 (patch : image) (raw : list R) :
  rows patch = 128%nat -> cols patch = 128%nat ->
  concatenated_features patch = Ok raw ->
  exists (lbp : list Z) (hog_features gabor stats : list R),
    local_binary_pattern patch 8 1 = Ok lbp /\
    hog patch 8 (16, 16)%nat (1, 1)%nat = Ok hog_features /\
    gabor_features patch (seq 0 4) = Ok gabor /\
    intensity_statistics patch = Ok stats /\
    raw = lbp_histogram lbp ++ firstn 64 hog_features ++ gabor ++ stats /\
    length (lbp_histogram lbp) = 32%nat /\
    length (firstn 64 hog_features) = 64%nat /\
    length gabor = 8%nat /\
    length stats = 5%nat /\
    (0.1 <= Num.norm raw)%R.
Proof.
  intros Hr Hc H. unfold concatenated_features in H.
  apply bind_Ok in H as (lbp & Hlbp & H).
  apply bind_Ok in H as (hogf & Hhog & H).
  apply bind_Ok in H as (gabor & Hgabor & H).
  apply bind_Ok in H as (stats & Hstats & H).
  apply Ok_inj in H. subst raw.
  exists lbp, hogf, gabor, stats.
  do 4 (split; [assumption|]). split; [reflexivity|].
  destruct (local_binary_pattern_codes _ _ _ _ Hlbp) as [Hlen Hcodes].
  pose proof (hog_length _ _ _ _ _ Hhog ltac:(lia) ltac:(lia)) as Hhl.
  rewrite Hr, Hc in Hhl. change (128 / 16 * (128 / 16) * 8)%nat with 512%nat in Hhl.
  split; [apply lbp_histogram_length|].
  split; [rewrite length_firstn; lia|].
  split; [apply (gabor_features_length _ _ _ Hgabor)|].
  split; [apply (intensity_statistics_length _ _ Hstats)|].
  apply norm_lower_bound; [lra|].
  rewrite sum_squares_app.
  assert (Hne : lbp <> []).
  { intros ->. unfold size in Hlen. rewrite Hr, Hc in Hlen. discriminate Hlen. }
  assert (Hrange : Forall (fun v => 0 <= v <= 32) lbp).
  { eapply Forall_impl; [|exact Hcodes]. cbv beta. intros; lia. }
  pose proof (lbp_histogram_sum_squares lbp Hne Hrange) as Hl.
  pose proof (Num.sum_squares_nonneg (firstn 64 hogf ++ gabor ++ stats)) as Hrest.
  fold (sum_squares (firstn 64 hogf ++ gabor ++ stats)) in Hrest. lra.
Qed.

Lemma extract_features_Some (img : image) (v : list R) :
  extract_features (Some img) = Some v ->
  exists raw, concatenated_features img = Ok raw /\ v = l2_normalize raw.
Proof.
  unfold extract_features.
  destruct (Nat.eqb (size img) 0); [discriminate|].
  destruct (concatenated_features img) as [raw|]; cbn [bind]; [|discriminate].
  intros H. injection H as <-. eauto.
Qed.

Lemma extract_features_length (patch : image) (v : list R) :
  rows patch = 128%nat -> cols patch = 128%nat ->
  extract_features (Some patch) = Some v -> length v = 109%nat.
Proof.
  intros Hr Hc H.
  apply extract_features_Some in H as (raw & Hraw & ->).
  destruct (concatenated_features_128 patch raw Hr Hc Hraw)
    as (lbp & hogf & gabor & stats & _ & _ & _ & _ & -> & H1 & H2 & H3 & H4 & _).
  rewrite l2_normalize_length, !length_app, H1, H2, H3, H4. reflexivity.
Qed.


(** ** Template fusion *)

Definition vadd (u v : list R) : list R :=
  map (fun p => (fst p + snd p)%R) (combine u v).

(** [np.mean(arrays, axis=0)] of a non-empty list of one-dimensional arrays:
    the arrays are stacked, which raises when their lengths differ, summed
    along the first axis and divided by their number.  (An empty list does
    not reach this call.) *)
Definition np_mean_axis0 (arrays : list (list R)) : exc (list R) :=
  match arrays with
  | [] => Ok []
  | first :: others =>
      if forallb (fun a => Nat.eqb (length a) (length first)) others then
        Ok (map (fun s => (s / INR (length arrays))%R) (fold_left vadd others first))
      else
        Raise "setting an array element with a sequence. The requested array has an inhomogeneous shape"
  end.

(** One iteration of the loop of [create_template] over the two lists it
    appends to. *)
Definition create_template_step (acc : list (list R) * list R) (frame : frame)
  : list (list R) * list R :=
  let '(feature_vectors, quality_scores) := acc in
  match preprocess_frame frame with
  | None => acc
  | Some preprocessed =>
      match detect_iris_region preprocessed with
      | None => acc
      | Some iris_region =>
          match extract_features (Some iris_region) with
          | Some features =>
              (feature_vectors ++ [features],
               quality_scores ++ [_calculate_quality iris_region])
          | None => acc
          end
      end
  end.

Definition create_template (frames : list frame) : option (template_data R) :=
  let body : exc (option (template_data R)) :=
    let '(feature_vectors, quality_scores) :=
      fold_left create_template_step frames ([], []) in
    if Nat.eqb (length feature_vectors) 0 then Ok None
    else
      (template <- np_mean_axis0 feature_vectors ;;
       let avg_quality := Num.mean quality_scores in
       Ok (Some {| template := template;
                   quality_score := avg_quality;
                   num_frames := length feature_vectors |}))%exc in
  match body with
  | Ok result => result
  | Raise _ => None
  end.

(** ** Liveness *)

(** The dictionary [check_liveness] returns: [is_live] always, [reason] on
    the failure paths, the variances and the confidence on the verdict
    path. *)
Record liveness_result := {
  is_live : bool;
  reason : option string;
  quality_variance : option R;
  brightness_variance : option R;
  liveness_confidence : option R
}.

Definition not_live (why : string) : liveness_result :=
  {| is_live := false; reason := Some why;
     quality_variance := None; brightness_variance := None;
     liveness_confidence := None |}.

Definition check_liveness_step (acc : list R * list R) (frame : frame)
  : list R * list R :=
  let '(quality_scores, brightness_values) := acc in
  match preprocess_frame frame with
  | None => acc
  | Some preprocessed =>
      match detect_iris_region preprocessed with
      | Some iris_region =>
          (quality_scores ++ [_calculate_quality iris_region],
           brightness_values ++ [Num.mean (intensities iris_region)])
      | None => acc
      end
  end.

Definition check_liveness (frames : list frame) : liveness_result :=
  let body : exc liveness_result :=
    if Nat.ltb (length frames) 3 then Ok (not_live "Insufficient frames")
    else
      let '(quality_scores, brightness_values) :=
        fold_left check_liveness_step frames ([], []) in
      if Nat.ltb (length quality_scores) 3 then Ok (not_live "Failed to process frames")
      else
        let quality_variance := Num.var quality_scores in
        let brightness_variance := Num.var brightness_values in
        let is_live :=
          Num.Rltb 0.001 quality_variance && Num.Rltb 1.0 brightness_variance in
        Ok {| is_live := is_live;
              reason := None;
              quality_variance := Some quality_variance;
              brightness_variance := Some brightness_variance;
              liveness_confidence :=
                Some (Rmin 1.0 ((quality_variance * 100 + brightness_variance / 10) / 2)) |} in
  match body with
  | Ok result => result
  | Raise e => not_live e
  end.

(** ** The frames that survive *)

(** The region of a frame that passes decoding and region location. *)
Definition located_region (frame : frame) : option image :=
  match preprocess_frame frame with
  | None => None
  | Some preprocessed => detect_iris_region preprocessed
  end.

(** Feature vector and quality score of a frame that passes decoding,
    region location and feature extraction. *)
Definition surviving_frame (frame : frame) : option (list R * R) :=
  match located_region frame with
  | None => None
  | Some iris_region =>
      match extract_features (Some iris_region) with
      | None => None
      | Some features => Some (features, _calculate_quality iris_region)
      end
  end.

Definition keep {A B} (f : A -> option B) (l : list A) : list B :=
  flat_map (fun a => match f a with Some b => [b] | None => [] end) l.

Definition surviving_frames (frames : list frame) : list (list R * R) :=
  keep surviving_frame frames.

Definition located_regions (frames : list frame) : list image :=
  keep located_region frames.

Lemma create_template_loop (frames : list frame) :
  forall feature_vectors quality_scores,
    fold_left create_template_step frames (feature_vectors, quality_scores) =
    (feature_vectors ++ map fst (surviving_frames frames),
     quality_scores ++ map snd (surviving_frames frames)).
Proof.
  induction frames as [|f frames IH]; intros fvs qs.
  - cbn. now rewrite !app_nil_r.
  - cbn [fold_left]. unfold surviving_frames, keep. cbn [flat_map].
    fold (keep surviving_frame frames). fold (surviving_frames frames).
    unfold create_template_step at 2, surviving_frame, located_region.
    destruct (preprocess_frame f) as [pre|]; [|apply IH].
    destruct (detect_iris_region pre) as [iris|]; [|apply IH].
    destruct (extract_features (Some iris)) as [features|]; [|apply IH].
    rewrite IH. cbn [app map fst snd]. now rewrite <- !app_assoc.
Qed.

Lemma check_liveness_loop (frames : list frame) :
  forall quality_scores brightness_values,
    fold_left check_liveness_step frames (quality_scores, brightness_values) =
    (quality_scores ++ map _calculate_quality (located_regions frames),
     brightness_values
       ++ map (fun r => Num.mean (intensities r)) (located_regions frames)).
Proof.
  induction frames as [|f frames IH]; intros qs bs.
  - cbn. now rewrite !app_nil_r.
  - cbn [fold_left]. unfold located_regions, keep. cbn [flat_map].
    fold (keep located_region frames). fold (located_regions frames).
    unfold check_liveness_step at 2, located_region.
    destruct (preprocess_frame f) as [pre|]; [|apply IH].
    destruct (detect_iris_region pre) as [iris|]; [|apply IH].
    rewrite IH. cbn [app map]. now rewrite <- !app_assoc.
Qed.

(** *** Fusion: C3 *)

Lemma vadd_length (u v : list R) (n : nat) :
  length u = n -> length v = n -> length (vadd u v) = n.
Proof.
  intros Hu Hv. unfold vadd. rewrite length_map, length_combine. lia.
Qed.

Lemma vadd_nth (u v : list R) (j : nat) :
  length u = length v -> (j < length u)%nat ->
  nth j (vadd u v) 0%R = (nth j u 0 + nth j v 0)%R.
Proof.
  revert v j. induction u as [|x u IH]; intros [|y v] j Hl Hj;
    cbn [length] in *; try lia.
  destruct j as [|j]; [reflexivity|].
  unfold vadd. cbn [combine map nth]. apply IH; lia.
Qed.

Lemma fold_vadd (n : nat) (others : list (list R)) :
  forall first,
    length first = n -> Forall (fun a => length a = n) others ->
    length (fold_left vadd others first) = n /\
    forall j, (j < n)%nat ->
      nth j (fold_left vadd others first) 0%R =
      (nth j first 0 + Num.sum (map (fun a => nth j a 0%R) others))%R.
Proof.
  induction others as [|a others IH]; intros first Hf Ho.
  - cbn [fold_left map]. split; [assumption|]. intros j _. rewrite sum_nil. ring.
  - apply Forall_cons_iff in Ho as [Ha Ho]. cbn [fold_left map].
    destruct (IH (vadd first a) (vadd_length _ _ _ Hf Ha) Ho) as [Hlen Hnth].
    split; [assumption|]. intros j Hj.
    rewrite (Hnth j Hj), vadd_nth, sum_cons by lia. ring.
Qed.

Lemma map_div_nth (l : list R) (d : R) (j : nat) :
  (j < length l)%nat ->
  nth j (map (fun s => s / d)%R l) 0%R = (nth j l 0 / d)%R.
Proof.
  intros Hj.
  rewrite (nth_indep _ 0%R ((fun s => s / d)%R 0%R)) by (now rewrite length_map).
  exact (map_nth (fun s => (s / d)%R) l 0%R j).
Qed.

(** The mean along the first axis of arrays of one length is their
    element-wise arithmetic mean. *)
Lemma np_mean_axis0_spec (arrays : list (list R)) (n : nat) :
  arrays <> [] -> Forall (fun a => length a = n) arrays ->
  exists m,
    np_mean_axis0 arrays = Ok m /\
    length m = n /\
    forall j, (j < n)%nat ->
      nth j m 0%R = Num.mean (map (fun a => nth j a 0%R) arrays).
Proof.
  intros Hne Hall. destruct arrays as [|first others]; [congruence|].
  apply Forall_cons_iff in Hall as [Hf Ho].
  destruct (fold_vadd n others first Hf Ho) as [Hlen Hnth].
  unfold np_mean_axis0.
  assert (Hb : forallb (fun a => Nat.eqb (length a) (length first)) others = true).
  { apply forallb_forall. intros a Ha. rewrite Forall_forall in Ho.
    apply Nat.eqb_eq. rewrite Hf. now apply Ho. }
  rewrite Hb. eexists. split; [reflexivity|]. split.
  - now rewrite length_map.
  - intros j Hj. rewrite map_div_nth by lia. rewrite (Hnth j Hj).
    unfold Num.mean. rewrite length_map. cbn [map]. rewrite sum_cons. reflexivity.
Qed.

Lemma located_region_shape (f : frame) (iris : image) :
  located_region f = Some iris -> rows iris = 128%nat /\ cols iris = 128%nat.
Proof.
  unfold located_region. destruct (preprocess_frame f); [|discriminate].
  apply detect_iris_region_shape.
Qed.

Lemma surviving_frame_length (f : frame) (features : list R) (q : R) :
  surviving_frame f = Some (features, q) -> length features = 109%nat.
Proof.
  unfold surviving_frame.
  destruct (located_region f) as [iris|] eqn:El; [|discriminate].
  destruct (extract_features (Some iris)) as [v|] eqn:Ee; [|discriminate].
  intros H. injection H as <- _.
  destruct (located_region_shape f iris El) as [Hr Hc].
  now apply (extract_features_length iris).
Qed.

Lemma keep_In {A B} (f : A -> option B) (l : list A) (b : B) :
  In b (keep f l) -> exists a, In a l /\ f a = Some b.
Proof.
  unfold keep. rewrite in_flat_map. intros (a & Ha & Hb).
  exists a. split; [assumption|].
  destruct (f a) as [b'|]; [|contradiction].
  destruct Hb as [->|[]]. reflexivity.
Qed.

Lemma surviving_frames_lengths (frames : list frame) :
  Forall (fun a => length a = 109%nat) (map fst (surviving_frames frames)).
Proof.
  apply Forall_forall. intros v Hv. apply in_map_iff in Hv as ([v' q] & <- & Hin).
  apply keep_In in Hin as (f & _ & Hf). cbn [fst].
  now apply (surviving_frame_length f v' q).
Qed.

(** What [create_template] computes from the surviving frames. *)
Lemma create_template_survivors (frames : list frame) :
  match surviving_frames frames with
  | [] => create_template frames = None
  | _ :: _ =>
      exists m,
        np_mean_axis0 (map fst (surviving_frames frames)) = Ok m /\
        create_template frames =
        Some {| template := m;
                quality_score := Num.mean (map snd (surviving_frames frames));
                num_frames := length (surviving_frames frames) |}
  end.
Proof.
  unfold create_template. rewrite create_template_loop. cbn [app].
  pose proof (surviving_frames_lengths frames) as Hall.
  destruct (surviving_frames frames) as [|s survivors] eqn:E.
  - reflexivity.
  - destruct (np_mean_axis0_spec (map fst (s :: survivors)) 109) as (m & Hm & _);
      [discriminate|assumption|].
    exists m. split; [assumption|].
    rewrite Hm. cbn [map length Nat.eqb bind]. now rewrite length_map.
Qed.

(** C3. [create_template] returns [None] exactly when no frame survives
    decoding, region location and feature extraction; otherwise its
    [template] is the element-wise arithmetic mean of the surviving frames'
    feature vectors, its [quality_score] the arithmetic mean of their
    quality scores, and its [num_frames] their number. *)
Theorem create_template_spec (frames : list frame) :
  (create_template frames = None <-> surviving_frames frames = []) /\
  (forall T,
      create_template frames = Some T ->
      num_frames T = length (surviving_frames frames) /\
      quality_score T = Num.mean (map snd (surviving_frames frames)) /\
      length (template T) = 109%nat /\
      forall j, (j < 109)%nat ->
        nth j (template T) 0%R =
        Num.mean (map (fun s => nth j (fst s) 0%R) (surviving_frames frames))).
Proof.
  pose proof (create_template_survivors frames) as H.
  pose proof (surviving_frames_lengths frames) as Hall.
  destruct (surviving_frames frames) as [|s survivors] eqn:E.
  - split; [tauto|]. intros T HT. rewrite H in HT. discriminate.
  - destruct H as (m & Hm & Hc). split.
    + rewrite Hc. split; discriminate.
    + intros T HT. rewrite Hc in HT. apply (f_equal (fun o => match o with
                                                             | Some t => t
                                                             | None => T
                                                             end)) in HT.
      subst T. cbn [num_frames quality_score template].
      destruct (np_mean_axis0_spec (map fst (s :: survivors)) 109)
        as (m' & Hm' & Hlen & Hnth); [discriminate|assumption|].
      rewrite Hm in Hm'. apply Ok_inj in Hm'. subst m'.
      split; [reflexivity|]. split; [reflexivity|]. split; [assumption|].
      intros j Hj. rewrite (Hnth j Hj), map_map. reflexivity.
Qed.

(** *** Liveness: C6 and C7 *)

Lemma check_liveness_unfold (frames : list frame) :
  check_liveness frames =
  if Nat.ltb (length frames) 3 then not_live "Insufficient frames"
  else if Nat.ltb (length (located_regions frames)) 3
       then not_live "Failed to process frames"
       else
         let qv := Num.var (map _calculate_quality (located_regions frames)) in
         let bv := Num.var (map (fun r => Num.mean (intensities r))
                                (located_regions frames)) in
         {| is_live := Num.Rltb 0.001 qv && Num.Rltb 1.0 bv;
            reason := None;
            quality_variance := Some qv;
            brightness_variance := Some bv;
            liveness_confidence := Some (Rmin 1.0 ((qv * 100 + bv / 10) / 2)) |}.
Proof.
  unfold check_liveness.
  destruct (Nat.ltb (length frames) 3); [reflexivity|].
  rewrite check_liveness_loop. cbn [app]. rewrite length_map.
  destruct (Nat.ltb (length (located_regions frames)) 3); reflexivity.
Qed.

(** C6, as the code has it: with fewer than three frames the result is
    [is_live = False] with the reason "Insufficient frames"; with three or
    more frames of which fewer than three pass decoding and region location
    it is [is_live = False] with the reason "Failed to process frames". *)
Theorem check_liveness_minimum_frames (frames : list frame) :
  ((length frames < 3)%nat ->
   check_liveness frames = not_live "Insufficient frames") /\
  ((3 <= length frames)%nat -> (length (located_regions frames) < 3)%nat ->
   check_liveness frames = not_live "Failed to process frames").
Proof.
  rewrite check_liveness_unfold. split.
  - intros H. apply Nat.ltb_lt in H. now rewrite H.
  - intros H1 H2. apply Nat.ltb_ge in H1. apply Nat.ltb_lt in H2.
    now rewrite H1, H2.
Qed.

Lemma mean_repeat (x : R) (n : nat) : (0 < n)%nat -> Num.mean (repeat x n) = x.
Proof.
  intros Hn. unfold Num.mean. rewrite repeat_length.
  assert (E : Num.sum (repeat x n) = (INR n * x)%R).
  { clear Hn. induction n as [|n IH]; [cbn [repeat INR]; rewrite sum_nil; ring|].
    cbn [repeat]. rewrite sum_cons, IH, S_INR. ring. }
  rewrite E. field. apply not_0_INR. lia.
Qed.

Lemma var_repeat (x : R) (n : nat) : (0 < n)%nat -> Num.var (repeat x n) = 0%R.
Proof.
  intros Hn. unfold Num.var. rewrite mean_repeat by assumption.
  rewrite map_repeat. replace ((x - x) * (x - x))%R with 0%R by ring.
  now apply mean_repeat.
Qed.

Lemma keep_repeat {A B} (f : A -> option B) (a : A) (n : nat) :
  keep f (repeat a n) = match f a with
                        | Some b => repeat b n
                        | None => []
                        end.
Proof.
  unfold keep. induction n as [|n IH]; cbn [repeat flat_map].
  - destruct (f a); reflexivity.
  - rewrite IH. destruct (f a); reflexivity.
Qed.

Lemma check_liveness_verdict (frames : list frame) :
  (3 <= length (located_regions frames))%nat ->
  (3 <= length frames)%nat ->
  is_live (check_liveness frames) = true <->
  (Num.var (map _calculate_quality (located_regions frames)) > 0.001 /\
   Num.var (map (fun r => Num.mean (intensities r)) (located_regions frames)) > 1.0)%R.
Proof.
  intros H3 Hf. rewrite check_liveness_unfold.
  apply Nat.ltb_ge in H3, Hf. rewrite H3, Hf. cbv zeta. cbn [is_live].
  rewrite andb_true_iff, !Num.Rltb_true. unfold Rgt. tauto.
Qed.

Lemma keep_length {A B} (f : A -> option B) (l : list A) :
  (length (keep f l) <= length l)%nat.
Proof.
  unfold keep. induction l as [|a l IH]; [apply Nat.le_refl|].
  cbn [flat_map length]. rewrite length_app.
  destruct (f a); cbn [length]; lia.
Qed.

Lemma check_liveness_identical (f : frame) (n : nat) :
  is_live (check_liveness (repeat f n)) = false.
Proof.
  rewrite check_liveness_unfold, repeat_length.
  destruct (Nat.ltb n 3) eqn:En; [reflexivity|].
  apply Nat.ltb_ge in En.
  unfold located_regions. rewrite keep_repeat.
  destruct (located_region f) as [iris|]; [|reflexivity].
  rewrite repeat_length.
  apply Nat.ltb_ge in En. rewrite En. apply Nat.ltb_ge in En.
  cbv zeta. cbn [is_live]. rewrite !map_repeat, !var_repeat by lia.
  apply andb_false_intro1. apply Num.Rltb_false. lra.
Qed.

(** C7. With at least three surviving frames the verdict is live exactly
    when the variance of the surviving frames' quality scores exceeds 0.001
    and the variance of their mean brightness exceeds 1.0; a batch made of
    one frame repeated is not live. *)
Theorem check_liveness_variance_rule :
  (forall frames : list frame,
      (3 <= length (located_regions frames))%nat ->
      is_live (check_liveness frames) = true <->
      (Num.var (map _calculate_quality (located_regions frames)) > 0.001 /\
       Num.var (map (fun r => Num.mean (intensities r))
                    (located_regions frames)) > 1.0)%R) /\
  (forall (f : frame) (n : nat), is_live (check_liveness (repeat f n)) = false).
Proof.
  split.
  - intros frames H. apply check_liveness_verdict; [assumption|].
    pose proof (keep_length located_region frames). unfold located_regions in H. lia.
  - apply check_liveness_identical.
Qed.

End Pipeline.

(** ** A small instance of the image-processing interface

    Stand-ins for the OpenCV and scikit-image operations (the filters are
    the identity, resizing samples the nearest pixel, a circle is reported
    around the centre of an image whose centre is dark), on which the
    statements above are run at concrete frames. *)

Module ToyVision.

Definition imdecode (buf : list byte) : exc (option color_image) :=
  match buf with
  | [] => Raise "(-215:Assertion failed) !buf.empty() in function 'imdecode_'"
  | b :: _ =>
      if Byte.eqb b Byte.xff then
        Ok (Some {| color_rows := 64; color_cols := 64;
                    channel := fun i j c =>
                      Z_of_byte (nth ((i + j + c) mod length buf) buf Byte.x00) |})
      else Ok None
  end.

Definition cvtColor_BGR2GRAY (c : color_image) : exc image :=
  Ok {| rows := color_rows c; cols := color_cols c;
        pixel := fun i j => (channel c i j 0 + channel c i j 1 + channel c i j 2) / 3 |}.

Definition CLAHE_apply (clipLimit : Q) (tileGridSize : nat * nat) (img : image)
  : exc image := Ok img.

Definition fastNlMeansDenoising (img : image) : exc image := Ok img.

Definition GaussianBlur (img : image) (ksize : nat * nat) (sigma : Q) : exc image :=
  Ok img.

Definition HoughCircles (img : image) (method : Z) (dp minDist param1 param2 : Q)
  (minRadius maxRadius : Z) : exc (option (list circle)) :=
  let h := Z.of_nat (rows img) in
  let w := Z.of_nat (cols img) in
  if (0 <? h) && (0 <? w) && (minRadius <=? maxRadius)
     && (pixel img (rows img / 2) (cols img / 2) <? 64)
  then Ok (Some [(inject_Z (w / 2), inject_Z (h / 2), inject_Z minRadius)])
  else Ok None.

Definition resize (img : image) (dsize : nat * nat) : exc image :=
  let '(w, h) := dsize in
  Ok {| rows := h; cols := w;
        pixel := fun i j => pixel img (i * rows img / h)%nat (j * cols img / w)%nat |}.

Definition local_binary_pattern (img : image) (P radius : nat) : exc (list Z) :=
  Ok (map (fun v => if v <? 128 then 0 else Z.of_nat P) (ravel img)).

Definition hog (img : image) (orientations : nat) (pixels_per_cell cells_per_block : nat * nat)
  : exc (list R) :=
  let '(cy, cx) := pixels_per_cell in
  Ok (repeat 0%R (rows img / cy * (cols img / cx) * orientations)).

Definition gabor_filter2D (img : image) (theta : nat) : exc image := Ok img.

Definition Laplacian (img : image) : exc (list R) := Ok (map IZR (ravel img)).

Lemma ravel_length (img : image) : length (ravel img) = size img.
Proof.
  unfold ravel, size.
  assert (H : forall l : list nat,
             length (flat_map (fun i => map (fun j => pixel img i j) (seq 0 (cols img))) l)
             = (length l * cols img)%nat).
  { induction l as [|i l IH]; [reflexivity|].
    cbn [flat_map]. rewrite length_app, IH, length_map, length_seq. cbn [length]. lia. }
  now rewrite H, length_seq.
Qed.

Lemma GaussianBlur_accepts (img : image) (ksize : nat * nat) (sigma : Q) :
  (0 < size img)%nat -> exists blurred, GaussianBlur img ksize sigma = Ok blurred.
Proof. intros _. now exists img. Qed.

Lemma GaussianBlur_shape (img : image) (ksize : nat * nat) (sigma : Q) (blurred : image) :
  GaussianBlur img ksize sigma = Ok blurred ->
  rows blurred = rows img /\ cols blurred = cols img.
Proof. intros H. apply Ok_inj in H. subst blurred. auto. Qed.

Lemma HoughCircles_accepts (img : image) (method : Z) (dp minDist p1 p2 : Q)
  (minR maxR : Z) :
  (0 < size img)%nat ->
  exists found, HoughCircles img method dp minDist p1 p2 minR maxR = Ok found.
Proof. intros _. unfold HoughCircles. destruct (_ && _); eauto. Qed.

Lemma HoughCircles_found (img : image) (method : Z) (dp minDist p1 p2 : Q)
  (minR maxR : Z) (circles : list circle) :
  HoughCircles img method dp minDist p1 p2 minR maxR = Ok (Some circles) ->
  circles <> [] /\
  Forall (fun c : circle =>
            let '(x, y, r) := c in
            (0 <= x)%Q /\ (x < inject_Z (Z.of_nat (cols img)))%Q /\
            (0 <= y)%Q /\ (y < inject_Z (Z.of_nat (rows img)))%Q /\
            (inject_Z minR <= r)%Q /\ (r <= inject_Z maxR)%Q) circles.
Proof.
  unfold HoughCircles.
  destruct (_ && _) eqn:E; [|discriminate].
  intros H. apply Ok_inj in H. injection H as <-.
  apply andb_true_iff in E as [E _]. apply andb_true_iff in E as [E Hr].
  apply andb_true_iff in E as [Hh Hw].
  apply Z.ltb_lt in Hh, Hw. apply Z.leb_le in Hr.
  split; [discriminate|]. constructor; [|constructor].
  assert (H0 : (0 == inject_Z 0)%Q) by reflexivity.
  repeat split.
  - rewrite H0, <- Zle_Qle. apply Z.div_pos; lia.
  - rewrite <- Zlt_Qlt. apply Z.div_lt; lia.
  - rewrite H0, <- Zle_Qle. apply Z.div_pos; lia.
  - rewrite <- Zlt_Qlt. apply Z.div_lt; lia.
  - apply Qle_refl.
  - now rewrite <- Zle_Qle.
Qed.

Lemma resize_accepts (img : image) (w h : nat) :
  (0 < size img)%nat -> (0 < w)%nat -> (0 < h)%nat ->
  exists out, resize img (w, h) = Ok out.
Proof. intros _ _ _. unfold resize. eauto. Qed.

Lemma resize_shape (img : image) (w h : nat) (out : image) :
  resize img (w, h) = Ok out -> rows out = h /\ cols out = w.
Proof. unfold resize. intros H. apply Ok_inj in H. subst out. auto. Qed.

Lemma local_binary_pattern_codes (img : image) (P radius : nat) (codes : list Z) :
  local_binary_pattern img P radius = Ok codes ->
  length codes = size img /\ Forall (fun c => 0 <= c <= Z.of_nat P + 1) codes.
Proof.
  unfold local_binary_pattern. intros H. apply Ok_inj in H. subst codes.
  split; [now rewrite length_map, ravel_length|].
  apply Forall_forall. intros c Hc. apply in_map_iff in Hc as (v & <- & _).
  destruct (v <? 128); lia.
Qed.

Lemma hog_length (img : image) (orientations cy cx : nat) (features : list R) :
  hog img orientations (cy, cx) (1, 1)%nat = Ok features ->
  (0 < cy)%nat -> (0 < cx)%nat ->
  length features = (rows img / cy * (cols img / cx) * orientations)%nat.
Proof.
  unfold hog. intros H _ _. apply Ok_inj in H. subst features.
  apply repeat_length.
Qed.

Definition lib_with (numpy : promotion) : VisionLib :=
  Build_VisionLib imdecode cvtColor_BGR2GRAY CLAHE_apply fastNlMeansDenoising
    GaussianBlur HoughCircles resize local_binary_pattern hog gabor_filter2D
    Laplacian numpy
    GaussianBlur_accepts GaussianBlur_shape HoughCircles_accepts HoughCircles_found
    resize_accepts resize_shape local_binary_pattern_codes hog_length.

(** The stand-ins with NumPy 1.x and with NumPy 2. *)
Definition lib : VisionLib := lib_with value_based.

Definition lib_numpy2 : VisionLib := lib_with weak_scalar.

(** A 400 by 400 frame with a dark disc of radius 80 at its centre, and a
    128 by 128 patch. *)
Definition eye : image :=
  {| rows := 400; cols := 400;
     pixel := fun i j =>
       let dy := Z.of_nat i - 200 in
       let dx := Z.of_nat j - 200 in
       if dx * dx + dy * dy <? 6400 then 40 + (dx + dy) mod 16 else 230 |}.

Definition patch : image :=
  {| rows := 128; cols := 128;
     pixel := fun i j => (Z.of_nat i * 3 + Z.of_nat j * 5) mod 256 |}.

(** A dark frame of 40 by 40 whose intensity is the row number: the circle
    reported at its centre [(20, 20)] has radius 20, so the box of half-side
    26 around it reaches beyond all four borders. *)
Definition corner : image :=
  {| rows := 40; cols := 40; pixel := fun i _ => Z.of_nat i |}.

End ToyVision.


Lemma create_template_spec_witness :
  create_template (vision := ToyVision.lib)
    [FrameGray ToyVision.eye; FrameText "data:image/jpeg;base64,AAAA"] = None <->
  surviving_frames (vision := ToyVision.lib)
    [FrameGray ToyVision.eye; FrameText "data:image/jpeg;base64,AAAA"] = [].
Proof.
  exact (proj1 (create_template_spec (vision := ToyVision.lib)
                  [FrameGray ToyVision.eye; FrameText "data:image/jpeg;base64,AAAA"])).
Defined.

Lemma check_liveness_minimum_frames_witness :
  check_liveness (vision := ToyVision.lib)
    [FrameGray ToyVision.eye; FrameGray ToyVision.eye]
  = not_live "Insufficient frames".
Proof.
  apply (proj1 (check_liveness_minimum_frames (vision := ToyVision.lib)
                  [FrameGray ToyVision.eye; FrameGray ToyVision.eye])).
  simpl. lia.
Defined.

Lemma check_liveness_variance_rule_witness :
  is_live (check_liveness (vision := ToyVision.lib)
             (repeat (FrameGray ToyVision.eye) 5)) = false.
Proof.
  exact (proj2 (check_liveness_variance_rule (vision := ToyVision.lib))
           (FrameGray ToyVision.eye) 5%nat).
Defined.

(** The frame [ToyVision.corner] with NumPy 2: the clipped box is the whole
    frame, whose first pixel is 0, and what is returned is the resized
    centre crop, whose first pixel is 10. *)
Lemma detect_iris_region_spec_witness :
  (exists patch,
     resize (VisionLib := ToyVision.lib_numpy2) (center_crop ToyVision.corner)
       (128, 128)%nat = Ok patch /\
     detect_iris_region (vision := ToyVision.lib_numpy2) ToyVision.corner
     = Some patch /\
     pixel patch 0 0 = 10) /\
  (let region := crop ToyVision.corner (Z.max 0 (20 - 26)) (Z.min 40 (20 + 26))
                   (Z.max 0 (20 - 26)) (Z.min 40 (20 + 26)) in
   (rows region, cols region) = (40%nat, 40%nat) /\
   exists clipped,
     resize (VisionLib := ToyVision.lib_numpy2) region (128, 128)%nat = Ok clipped /\
     pixel clipped 0 0 = 0).
Proof.
  pose proof (detect_iris_region_spec (vision := ToyVision.lib_numpy2) ToyVision.corner)
    as (Hcircle & _).
  destruct (Hcircle ToyVision.corner (inject_Z 20) (inject_Z 20) (inject_Z 20) []
              eq_refl eq_refl) as (_ & _ & Hwrap).
  destruct (Hwrap eq_refl) as [Hsome _]; [left; vm_compute; reflexivity|].
  split.
  - destruct Hsome as (patch & Hp & Hd); [vm_compute; lia|].
    exists patch. split; [exact Hp|]. split; [exact Hd|].
    apply Ok_inj in Hp. subst patch. reflexivity.
  - cbv zeta. split; [reflexivity|].
    eexists. split; reflexivity.
Defined.

(** The reason [check_liveness] gives for too few frames is not the
    lower-case text: C6 as the specification words it fails on the empty
    batch. *)
Lemma check_liveness_reason_counterexample :
  (length (@nil frame) < 3)%nat /\
  reason (check_liveness (vision := ToyVision.lib) []) <> Some "insufficient frames"%string.
Proof.
  split; [simpl; lia|].
  rewrite (check_liveness_unfold (vision := ToyVision.lib)).
  cbn [length Nat.ltb Nat.leb not_live reason]. discriminate.
Qed.

(** ** The models on concrete values *)

Module Examples.

Import Base64.

Definition bytes (s : string) : list byte := list_byte_of_string s.

Example b64encode_three : b64encode (bytes "Man") = "TWFu"%string.
Proof. reflexivity. Qed.

Example b64encode_two : b64encode (bytes "Ma") = "TWE="%string.
Proof. reflexivity. Qed.

Example b64encode_one : b64encode (bytes "M") = "TQ=="%string.
Proof. reflexivity. Qed.

Example b64decode_skips_blank : b64decode "TW Fu" = Ok (bytes "Man").
Proof. reflexivity. Qed.

Example b64decode_stops_at_padding : b64decode "TWE=extra" = Ok (bytes "Ma").
Proof. reflexivity. Qed.

Example b64decode_lone_pad_skipped : b64decode "TQ=a=" = Ok [Byte.x4d; Byte.x06].
Proof. reflexivity. Qed.

Example b64decode_short_padding : b64decode "TQ=" = Raise "Incorrect padding".
Proof. reflexivity. Qed.

Example b64decode_one_character :
  b64decode "T" =
  Raise "Invalid base64-encoded string: number of data characters (1) cannot be 1 more than a multiple of 4".
Proof. reflexivity. Qed.

Example b64decode_not_valid : b64decode "not-valid-base64!!!" = Raise "Incorrect padding".
Proof. reflexivity. Qed.

Example pad_short :
  Padding.pad [Byte.x01; Byte.x02; Byte.x03] 16 =
  [Byte.x01; Byte.x02; Byte.x03] ++ repeat Byte.x0d 13.
Proof. reflexivity. Qed.

Example pad_full_block :
  Padding.pad (bytes "YELLOW SUBMARINE") 16 =
  bytes "YELLOW SUBMARINE" ++ repeat Byte.x10 16.
Proof. reflexivity. Qed.

Example unpad_wrong_fill :
  Padding.unpad (repeat Byte.x00 13 ++ [Byte.x01; Byte.x02; Byte.x03]) 16 =
  Raise "PKCS#7 padding is incorrect.".
Proof. reflexivity. Qed.

Example unpad_zero_length_byte :
  Padding.unpad (repeat Byte.x00 16) 16 = Raise "Padding is incorrect.".
Proof. reflexivity. Qed.

Example unpad_empty : Padding.unpad [] 16 = Raise "Zero-length input cannot be unpadded".
Proof. reflexivity. Qed.

(** The bytes of [1.0] and of the array [[1.0, -2.0]]. *)
Example tobytes_one : f32_tobytes 1065353216 = [Byte.x00; Byte.x00; Byte.x80; Byte.x3f].
Proof. reflexivity. Qed.

Example frombuffer_two :
  frombuffer [Byte.x00; Byte.x00; Byte.x80; Byte.x3f; Byte.x00; Byte.x00; Byte.x00; Byte.xc0]
  = Ok [1065353216; 3221225472].
Proof. reflexivity. Qed.

Example frombuffer_partial_element :
  frombuffer [Byte.x00; Byte.x00; Byte.x80] =
  Raise "buffer size must be a multiple of element size".
Proof. reflexivity. Qed.

Example f32_value_one : f32_value 1065353216 = 1%R.
Proof.
  unfold f32_value.
  change (1065353216 / 2 ^ 31 =? 0) with true.
  change ((1065353216 / 2 ^ 23) mod 256 =? 0) with false.
  change ((1065353216 / 2 ^ 23) mod 256 - 150) with (-23).
  change (2 ^ 23 + 1065353216 mod 2 ^ 23) with (2 ^ 23).
  cbv iota. unfold powerRZ.
  replace (IZR (2 ^ 23)) with (2 ^ Pos.to_nat 23)%R.
  - apply Rinv_r. apply pow_nonzero. lra.
  - rewrite pow_IZR. reflexivity.
Qed.

Example around_half_down : np_around (1 # 2) = 0.
Proof. reflexivity. Qed.

Example around_half_up : np_around (3 # 2) = 2.
Proof. reflexivity. Qed.

Example around_half_even : np_around (5 # 2) = 2.
Proof. reflexivity. Qed.

Example expand_radius_80 : expand_radius 80 = 104.
Proof. reflexivity. Qed.

Example slice_inside : slice 400 96 304 = (96%nat, 208%nat).
Proof. reflexivity. Qed.

Example slice_negative_start : slice 10 (-3) 20 = (7%nat, 3%nat).
Proof. reflexivity. Qed.

Example slice_empty : slice 10 7 3 = (7%nat, 0%nat).
Proof. reflexivity. Qed.

Example data_uri_payload :
  after_last_comma "data:image/jpeg;base64,/9j/4AAQ" = "/9j/4AAQ"%string.
Proof. reflexivity. Qed.

Example no_comma : after_last_comma "/9j/4AAQ" = "/9j/4AAQ"%string.
Proof. reflexivity. Qed.

(** The frame of [ToyVision.eye]: a circle is reported at its centre, so the
    region is the square of side 52 around [(200, 200)]; an image without a
    dark centre falls back to the centre crop. *)
Example eye_region_shape :
  option_map (fun r => (rows r, cols r))
    (detect_iris_region (vision := ToyVision.lib) ToyVision.eye)
  = Some (128%nat, 128%nat).
Proof. reflexivity. Qed.

Example eye_circle_crop_shape :
  match circle_crop (vision := ToyVision.lib) ToyVision.eye
          (inject_Z 200, inject_Z 200, inject_Z 20) with
  | Ok region => (rows region, cols region) = (52%nat, 52%nat)
  | Raise _ => False
  end.
Proof. reflexivity. Qed.

(** A circle that reaches beyond the left and top borders is clipped with
    NumPy 1.x; with NumPy 2 the differences wrap around and the crop is
    empty. *)
Example border_circle_crop_shape :
  match circle_crop (vision := ToyVision.lib) ToyVision.eye
          (inject_Z 50, inject_Z 30, inject_Z 60) with
  | Ok region => (rows region, cols region) = (108%nat, 128%nat)
  | Raise _ => False
  end.
Proof. reflexivity. Qed.

Example border_circle_crop_wraps :
  match circle_crop (vision := ToyVision.lib_numpy2) ToyVision.eye
          (inject_Z 50, inject_Z 30, inject_Z 60) with
  | Ok region => (rows region, cols region) = (0%nat, 0%nat)
  | Raise _ => False
  end.
Proof. reflexivity. Qed.

Example wrapped_bound : uint16_op weak_scalar Z.sub 50 78 = Ok 65508.
Proof. reflexivity. Qed.

Example corner_region_numpy1 :
  option_map (fun r => pixel r 0 0)
    (detect_iris_region (vision := ToyVision.lib) ToyVision.corner) = Some 0.
Proof. reflexivity. Qed.

Example corner_region_numpy2 :
  option_map (fun r => pixel r 0 0)
    (detect_iris_region (vision := ToyVision.lib_numpy2) ToyVision.corner) = Some 10.
Proof. reflexivity. Qed.

Example center_crop_shape :
  (rows (center_crop ToyVision.eye), cols (center_crop ToyVision.eye))
  = (200%nat, 200%nat).
Proof. reflexivity. Qed.

Example one_row_has_no_region :
  detect_iris_region (vision := ToyVision.lib)
    {| rows := 1; cols := 400; pixel := fun _ _ => 230 |} = None.
Proof. reflexivity. Qed.

(** Matching arrays of two and of three elements, and a null input. *)
Example match_dimension_mismatch :
  match_templates (crypto := Toy.crypto) Toy.engine
    (Array [1%R; 2%R]) (Array [1%R; 2%R; 3%R]) default_threshold
  = match_failure "shapes (2,) and (3,) not aligned: 2 (dim 0) != 3 (dim 0)".
Proof. reflexivity. Qed.

Example match_null_input :
  match_templates (crypto := Toy.crypto) Toy.engine
    PyNone (Array [1%R; 2%R]) default_threshold
  = match_failure "Decryption failed".
Proof. reflexivity. Qed.

Example liveness_no_frames :
  check_liveness (vision := ToyVision.lib) [] = not_live "Insufficient frames".
Proof. reflexivity. Qed.

Example liveness_undecodable_frames :
  check_liveness (vision := ToyVision.lib)
    [FrameText "AAAA"; FrameText "AAAA"; FrameText "AAAA"]
  = not_live "Failed to process frames".
Proof. reflexivity. Qed.

End Examples.

(** * Further properties of the engine

    Bounds the scores keep, how the operations compose, and what the
    engine does at the edges of its inputs. *)

(** ** Means and variances *)

Lemma sum_bounds (a b : R) (l : list R) :
  Forall (fun x => a <= x <= b)%R l ->
  (INR (length l) * a <= Num.sum l <= INR (length l) * b)%R.
Proof.
  induction 1 as [|x l Hx _ IH].
  - rewrite sum_nil. cbn [length INR]. lra.
  - rewrite sum_cons. change (length (x :: l)) with (S (length l)).
    rewrite S_INR. lra.
Qed.

Lemma mean_bounds (a b : R) (l : list R) :
  l <> [] -> Forall (fun x => a <= x <= b)%R l -> (a <= Num.mean l <= b)%R.
Proof.
  intros Hne Hall. pose proof (sum_bounds a b l Hall) as [Hlo Hhi].
  assert (Hn : (0 < INR (length l))%R).
  { apply lt_0_INR. destruct l; [congruence|cbn; lia]. }
  unfold Num.mean. split.
  - apply (Rmult_le_reg_r (INR (length l))); [assumption|].
    unfold Rdiv. rewrite Rmult_assoc, Rinv_l by lra. lra.
  - apply (Rmult_le_reg_r (INR (length l))); [assumption|].
    unfold Rdiv. rewrite Rmult_assoc, Rinv_l by lra. lra.
Qed.

Lemma Rinv_INR_nonneg (n : nat) : (0 <= / INR n)%R.
Proof.
  destruct n as [|n].
  - cbn [INR]. rewrite Rinv_0. lra.
  - apply Rlt_le, Rinv_0_lt_compat, lt_0_INR. lia.
Qed.

Lemma mean_nonneg (l : list R) : Forall (fun x => 0 <= x)%R l -> (0 <= Num.mean l)%R.
Proof.
  intros H. unfold Num.mean, Rdiv. apply Rmult_le_pos; [|apply Rinv_INR_nonneg].
  induction H as [|x l Hx _ IH]; [rewrite sum_nil; lra|].
  rewrite sum_cons. lra.
Qed.

Lemma var_nonneg (l : list R) : (0 <= Num.var l)%R.
Proof.
  unfold Num.var. apply mean_nonneg. apply Forall_forall.
  intros y Hy. apply in_map_iff in Hy as (x & <- & _).
  exact (Rle_0_sqr (x - Num.mean l)).
Qed.

Lemma std_nonneg (l : list R) : (0 <= Num.std l)%R.
Proof. apply sqrt_pos. Qed.

Section ScoreBounds.

Context {vision : VisionLib}.

(** The quality score lies between 0 and 1, whatever the region and
    whether or not the Laplacian could be computed. *)
Theorem quality_in_unit_interval (iris_region : image) :
  (0 <= _calculate_quality iris_region <= 1)%R.
Proof.
  unfold _calculate_quality.
  destruct (Laplacian iris_region) as [laplacian|]; cbn [bind]; [|lra].
  pose proof (var_nonneg laplacian) as Hv.
  pose proof (std_nonneg (intensities iris_region)) as Hs.
  set (q := ((Num.var laplacian / 100 + Num.std (intensities iris_region) / 50) / 2)%R).
  assert (Hq : (0 <= q)%R) by (unfold q; lra).
  split.
  - apply Rmin_glb; lra.
  - apply Rmin_l.
Qed.

Lemma surviving_quality_bounds (frames : list frame) :
  Forall (fun q => 0 <= q <= 1)%R (map snd (surviving_frames frames)).
Proof.
  apply Forall_forall. intros q Hq. apply in_map_iff in Hq as ([v q'] & <- & Hin).
  apply keep_In in Hin as (f & _ & Hf). cbn [snd].
  unfold surviving_frame in Hf.
  destruct (located_region f) as [iris|]; [|discriminate].
  destruct (extract_features (Some iris)); [|discriminate].
  injection Hf as _ <-. unfold _calculate_quality.
  destruct (Laplacian iris) as [laplacian|]; cbn [bind]; [|lra].
  pose proof (var_nonneg laplacian) as Hv.
  pose proof (std_nonneg (intensities iris)) as Hs.
  split; [apply Rmin_glb; lra | apply Rmin_l].
Qed.

(** A template that [create_template] returns was fused from at least one
    frame and from no more frames than were given, and its quality score
    lies between 0 and 1. *)
Theorem create_template_counts (frames : list frame) (T : template_data R) :
  create_template frames = Some T ->
  (1 <= num_frames T <= length frames)%nat /\
  (0 <= quality_score T <= 1)%R.
Proof.
  intros HT. pose proof (create_template_survivors frames) as H.
  pose proof (surviving_quality_bounds frames) as Hq.
  pose proof (keep_length surviving_frame frames) as Hl.
  fold (surviving_frames frames) in Hl.
  destruct (surviving_frames frames) as [|s survivors] eqn:E.
  - rewrite H in HT. discriminate.
  - destruct H as (m & _ & Hc). rewrite Hc in HT.
    apply (f_equal (fun o => match o with Some t => t | None => T end)) in HT.
    subst T. cbn [num_frames quality_score]. split.
    + cbn [length] in *. lia.
    + apply mean_bounds; [discriminate|assumption].
Qed.

(** The confidence [check_liveness] reports lies between 0 and 1; a live
    verdict is given on at least three frames only, and with a confidence
    above 0.1. *)
Theorem check_liveness_confidence (frames : list frame) :
  match liveness_confidence (check_liveness frames) with
  | Some c => (0 <= c <= 1)%R
  | None => is_live (check_liveness frames) = false
  end /\
  (is_live (check_liveness frames) = true ->
   (3 <= length frames)%nat /\
   exists c, liveness_confidence (check_liveness frames) = Some c /\ (0.1 < c)%R).
Proof.
  rewrite check_liveness_unfold.
  destruct (Nat.ltb (length frames) 3) eqn:E1.
  { cbn [not_live liveness_confidence is_live]. split; [reflexivity|discriminate]. }
  destruct (Nat.ltb (length (located_regions frames)) 3) eqn:E2.
  { cbn [not_live liveness_confidence is_live]. split; [reflexivity|discriminate]. }
  cbv zeta. cbn [liveness_confidence is_live].
  set (qv := Num.var (map _calculate_quality (located_regions frames))).
  set (bv := Num.var (map (fun r => Num.mean (intensities r)) (located_regions frames))).
  pose proof (var_nonneg (map _calculate_quality (located_regions frames))) as Hq.
  pose proof (var_nonneg (map (fun r => Num.mean (intensities r))
                              (located_regions frames))) as Hb.
  fold qv in Hq. fold bv in Hb.
  split.
  - split; [apply Rmin_glb; lra|].
    match goal with |- (Rmin ?a ?b <= _)%R => pose proof (Rmin_l a b) end. lra.
  - intros Hlive. apply andb_true_iff in Hlive as [H1 H2].
    apply Num.Rltb_true in H1, H2. apply Nat.ltb_ge in E1.
    split; [assumption|]. eexists. split; [reflexivity|].
    apply Rmin_glb_lt; lra.
Qed.

End ScoreBounds.

(** ** Scores of [match_templates] *)

(** The scores computed from two arrays of one length. *)
Definition dot_product (a b : list R) : R :=
  Num.sum (map (fun p => fst p * snd p)%R (combine a b)).

Definition cosine_distance (a b : list R) : R :=
  Num.clip (1 - dot_product a b / sqrt (dot_product a a * dot_product b b)) 0 2.

Definition normalized_distance (a b : list R) : R :=
  (Num.norm (map (fun p => fst p - snd p)%R (combine a b)) / sqrt (INR (length a)))%R.

Lemma dot_product_comm (a b : list R) : dot_product a b = dot_product b a.
Proof.
  unfold dot_product. revert b. induction a as [|x a IH]; intros [|y b];
    try reflexivity.
  cbn [combine map fst snd]. rewrite !sum_cons, IH. ring.
Qed.

Lemma cosine_distance_comm (a b : list R) : cosine_distance a b = cosine_distance b a.
Proof.
  unfold cosine_distance.
  rewrite (dot_product_comm a b), (Rmult_comm (dot_product a a)). reflexivity.
Qed.

Lemma difference_squares_comm (a b : list R) :
  sum_squares (map (fun p => fst p - snd p)%R (combine a b)) =
  sum_squares (map (fun p => fst p - snd p)%R (combine b a)).
Proof.
  revert b. induction a as [|x a IH]; intros [|y b]; try reflexivity.
  cbn [combine map fst snd]. rewrite !sum_squares_cons, IH. ring.
Qed.

Lemma normalized_distance_comm (a b : list R) :
  length a = length b -> normalized_distance a b = normalized_distance b a.
Proof.
  intros H. unfold normalized_distance.
  rewrite !norm_sqrt, difference_squares_comm, H. reflexivity.
Qed.

Lemma clip_bounds (x lo hi : R) : (lo <= hi -> lo <= Num.clip x lo hi <= hi)%R.
Proof.
  intros H. unfold Num.clip. split.
  - apply Rmin_glb; [apply Rmax_r | assumption].
  - apply Rmin_r.
Qed.

Lemma normalized_distance_nonneg (a b : list R) : (0 <= normalized_distance a b)%R.
Proof.
  unfold normalized_distance, Rdiv. apply Rmult_le_pos; [apply norm_nonneg|].
  destruct (Req_dec (sqrt (INR (length a))) 0) as [->|Hne].
  - rewrite Rinv_0. lra.
  - apply Rlt_le, Rinv_0_lt_compat.
    pose proof (sqrt_pos (INR (length a))). lra.
Qed.

Section MatchingProperties.

Context {crypto : CryptoLib}.

(** The result on two templates that resolve to arrays of one length. *)
Lemma match_templates_scoring (self : IrisBiometricEngine) (t1 t2 : template_arg)
  (a b : list R) (threshold : R) :
  decrypt_if_needed self t1 = Some a -> decrypt_if_needed self t2 = Some b ->
  length a = length b ->
  match_templates self t1 t2 threshold =
  {| is_match := Num.Rltb (normalized_distance a b) threshold;
     confidence := ((1 - cosine_distance a b + (1 - normalized_distance a b)) / 2)%R;
     distance := Some (normalized_distance a b);
     similarity := Some (1 - cosine_distance a b)%R;
     error := None |}.
Proof.
  intros H1 H2 Hl. unfold match_templates. rewrite H1, H2.
  assert (E : Nat.eqb (length a) (length b) = true) by now apply Nat.eqb_eq.
  unfold Num.cosine, Num.dot, Num.sub. rewrite E, !Nat.eqb_refl. cbn [bind].
  reflexivity.
Qed.

(** Every call either fails with a reason or scores. *)
Lemma match_templates_cases (self : IrisBiometricEngine) (t1 t2 : template_arg) :
  cannot_match self t1 t2 \/
  exists a b, decrypt_if_needed self t1 = Some a /\
              decrypt_if_needed self t2 = Some b /\ length a = length b.
Proof.
  unfold cannot_match.
  destruct (decrypt_if_needed self t1) as [a|]; [|now left; left].
  destruct (decrypt_if_needed self t2) as [b|]; [|now left; right; left].
  destruct (Nat.eq_dec (length a) (length b)) as [E|N].
  - right. exists a, b. auto.
  - left. right. right. exists a, b. auto.
Qed.

(** Raising the threshold never turns a match into a non-match. *)
Theorem match_templates_threshold_monotone (self : IrisBiometricEngine)
  (template1 template2 : template_arg) (low high : R) :
  (low <= high)%R ->
  is_match (match_templates self template1 template2 low) = true ->
  is_match (match_templates self template1 template2 high) = true.
Proof.
  intros Hle.
  destruct (match_templates_cases self template1 template2)
    as [Hfail|(a & b & H1 & H2 & Hl)].
  - destruct (match_templates_failure self template1 template2 low Hfail)
      as (reason & E & _).
    rewrite E. discriminate.
  - rewrite !(match_templates_scoring self template1 template2 a b _ H1 H2 Hl).
    cbn [is_match]. rewrite !Num.Rltb_true. lra.
Qed.

(** Two templates of one dimension get the same result in either order. *)
Theorem match_templates_symmetric (self : IrisBiometricEngine)
  (a b : list R) (threshold : R) :
  length a = length b ->
  match_templates self (Array a) (Array b) threshold =
  match_templates self (Array b) (Array a) threshold.
Proof.
  intros Hl.
  rewrite (match_templates_scoring self (Array a) (Array b) a b threshold
             eq_refl eq_refl Hl).
  rewrite (match_templates_scoring self (Array b) (Array a) b a threshold
             eq_refl eq_refl (eq_sym Hl)).
  now rewrite cosine_distance_comm, normalized_distance_comm.
Qed.

(** An array in the range of feature vectors and templates: no component
    beyond 1 in absolute value, and one of at least 1e-6.  The squares of
    such an array and their sums are far from overflow and from underflow
    in single and in double precision, so that the quotient of the cosine
    is a number. *)
Definition well_scaled (a : list R) : Prop :=
  Forall (fun x => Rabs x <= 1)%R a /\ Exists (fun x => 1e-6 <= Rabs x)%R a.

(** For two arrays in that range, a result without an error means that
    the arrays have one length; it carries a similarity between -1 and 1,
    a distance that is not negative and a confidence of at most 1. *)
Theorem match_templates_score_bounds (self : IrisBiometricEngine)
  (a b : list R) (threshold : R) :
  well_scaled a -> well_scaled b ->
  let result := match_templates self (Array a) (Array b) threshold in
  error result = None ->
  length a = length b /\
  (exists s, similarity result = Some s /\ (-1 <= s <= 1)%R) /\
  (exists d, distance result = Some d /\ (0 <= d)%R) /\
  (confidence result <= 1)%R.
Proof.
  intros _ _. cbv zeta.
  destruct (match_templates_cases self (Array a) (Array b))
    as [Hfail|(a' & b' & H1 & H2 & Hl)].
  - destruct (match_templates_failure self (Array a) (Array b) threshold Hfail)
      as (reason & E & _).
    rewrite E. discriminate.
  - cbn [decrypt_if_needed] in H1, H2. injection H1 as <-. injection H2 as <-.
    rewrite (match_templates_scoring self (Array a) (Array b) a b _
               eq_refl eq_refl Hl).
    cbn [error similarity distance confidence]. intros _.
    pose proof (clip_bounds (1 - dot_product a b / sqrt (dot_product a a * dot_product b b))
                  0 2 ltac:(lra)) as Hc.
    fold (cosine_distance a b) in Hc.
    pose proof (normalized_distance_nonneg a b) as Hd.
    split; [assumption|]. split; [|split].
    + eexists. split; [reflexivity|lra].
    + eexists. split; [reflexivity|assumption].
    + lra.
Qed.

(** Two templates that resolve to one array with a non-zero element match
    perfectly. *)
Lemma match_templates_same (self : IrisBiometricEngine) (t1 t2 : template_arg)
  (v : list R) (threshold : R) :
  decrypt_if_needed self t1 = Some v -> decrypt_if_needed self t2 = Some v ->
  Exists (fun x => x <> 0%R) v -> (0 < threshold)%R ->
  match_templates self t1 t2 threshold =
  {| is_match := true; confidence := 1%R;
     distance := Some 0%R; similarity := Some 1%R; error := None |}.
Proof.
  intros H1 H2 Hv Ht. unfold match_templates. rewrite H1, H2.
  rewrite (Num.cosine_self v Hv). cbn [bind].
  rewrite Num.sub_self. cbn [bind]. rewrite Num.norm_zeros.
  replace (0 / sqrt (INR (length v)))%R with 0%R by (unfold Rdiv; ring).
  replace (Num.Rltb 0 threshold) with true by (symmetry; now apply Num.Rltb_true).
  f_equal; [lra | f_equal; lra].
Qed.

(** A pattern of a finite [float32]: the exponent 255 of infinities and
    NaNs apart. *)
Definition finite_float32 (w : float32) : Prop :=
  is_float32 w /\ (w / 2 ^ 23) mod 256 <> 255.

(** The stored form of a template matches the array it was made from: what
    [encrypt_template] returns for a [float32] array that is not empty and
    holds finite values only, and the values of that array, are a match at
    distance 0, without an error. *)
Theorem match_templates_stored_template (self : IrisBiometricEngine)
  (random_bytes : list byte) (T : template_data float32) (stored : string) :
  engine_ok self -> length random_bytes = 16%nat ->
  template T <> [] ->
  Forall finite_float32 (template T) ->
  encrypt_template self random_bytes T = Some stored ->
  let result :=
    match_templates self (Encrypted stored) (Array (map f32_value (template T)))
      default_threshold in
  is_match result = true /\ distance result = Some 0%R /\ error result = None.
Proof.
  intros Hs Hiv _ HT Henc. cbv zeta.
  assert (HT' : Forall is_float32 (template T)).
  { apply Forall_forall. intros w Hw.
    exact (proj1 (proj1 (Forall_forall _ _) HT w Hw)). }
  rewrite encrypt_template_envelope in Henc by assumption.
  apply (f_equal (fun o => match o with Some s => s | None => stored end)) in Henc.
  subst stored.
  set (v := map f32_value (template T)).
  rewrite (match_templates_scoring self _ (Array v) v v _); try reflexivity.
  2:{ cbn [decrypt_if_needed]. now rewrite decrypt_envelope. }
  cbn [is_match distance error].
  assert (E : normalized_distance v v = 0%R).
  { unfold normalized_distance.
    assert (Ez : map (fun p => (fst p - snd p)%R) (combine v v) = map (fun _ => 0%R) v).
    { clear. induction v as [|x v IH]; [reflexivity|].
      cbn [combine map fst snd]. rewrite IH. f_equal. lra. }
    rewrite Ez, Num.norm_zeros. unfold Rdiv. ring. }
  rewrite E. split; [|split; reflexivity].
  apply Num.Rltb_true. unfold default_threshold. lra.
Qed.

(** The string [encrypt_template] returns determines the IV and the array:
    two calls that return the same string used the same random bytes and
    encrypted the same array.  In particular a fresh IV gives a fresh
    string. *)
Theorem encrypt_template_injective (self : IrisBiometricEngine)
  (iv iv' : list byte) (T T' : template_data float32) :
  engine_ok self -> length iv = 16%nat -> length iv' = 16%nat ->
  Forall is_float32 (template T) -> Forall is_float32 (template T') ->
  encrypt_template self iv T = encrypt_template self iv' T' ->
  iv = iv' /\ template T = template T'.
Proof.
  intros Hs Hiv Hiv' HT HT' E.
  rewrite !encrypt_template_envelope in E by assumption.
  apply (f_equal (fun o => match o with Some s => s | None => EmptyString end)) in E.
  split.
  - apply (f_equal Base64.b64decode) in E.
    rewrite !Base64.b64decode_b64encode in E. apply Ok_inj in E.
    apply (f_equal (firstn 16)) in E. unfold envelope in E.
    now rewrite (firstn_app_exact _ _ 16 Hiv), (firstn_app_exact _ _ 16 Hiv') in E.
  - pose proof (decrypt_envelope self iv (template T) Hs Hiv HT) as D.
    pose proof (decrypt_envelope self iv' (template T') Hs Hiv' HT') as D'.
    rewrite E in D. rewrite D' in D. now injection D.
Qed.

Lemma b2a_base64_length (bs : list byte) :
  String.length (Base64.b2a_base64 bs) = (4 * ((length bs + 2) / 3))%nat.
Proof.
  induction bs as [|x|x y|x y z rest IH] using list_ind3; try reflexivity.
  cbn [Base64.b2a_base64 String.length]. rewrite IH. cbn [length].
  replace (S (S (S (length rest))) + 2)%nat with (length rest + 2 + 1 * 3)%nat by lia.
  rewrite Nat.div_add by lia. lia.
Qed.

Lemma envelope_length (self : IrisBiometricEngine) (iv : list byte) (a : list float32) :
  engine_ok self -> length iv = 16%nat ->
  length (envelope self iv a) = (32 + 16 * (length a / 4))%nat.
Proof.
  intros Hs Hiv. unfold envelope, block_size. rewrite length_app, Hiv.
  pose proof (padded_blocks (tobytes a)) as Hp.
  rewrite (cbc_encrypt_blocks_length _ _ (engine_key_size self Hs) iv _ Hiv Hp).
  rewrite <- Hp, Padding.pad_length, tobytes_length.
  replace (4 * length a / 16)%nat with (length a / 4)%nat; [lia|].
  replace 16%nat with (4 * 4)%nat by reflexivity.
  now rewrite Nat.Div0.div_mul_cancel_l by lia.
Qed.

(** An engine built by the constructor, whatever key is configured,
    encrypts every template; the text has four characters for every three
    bytes of the IV and the padded array. *)
Theorem encrypt_template_succeeds (encryption_key BIOMETRIC_KEY : option string)
  (random_bytes : list byte) (T : template_data float32) :
  length random_bytes = 16%nat ->
  exists encrypted : string,
    encrypt_template (__init__ encryption_key BIOMETRIC_KEY) random_bytes T
      = Some encrypted /\
    String.length encrypted
      = (4 * ((32 + 16 * (length (template T) / 4) + 2) / 3))%nat.
Proof.
  intros Hiv.
  pose proof (init_ok encryption_key BIOMETRIC_KEY) as Hs.
  eexists. split; [now apply encrypt_template_envelope|].
  unfold Base64.b64encode. now rewrite b2a_base64_length, envelope_length.
Qed.

End MatchingProperties.

(** ** Frames, regions and feature vectors at the edges *)

Definition has_comma (s : string) : bool :=
  existsb (Ascii.eqb ","%char) (list_ascii_of_string s).

Lemma has_comma_app (prefix payload : string) :
  has_comma (prefix ++ String ","%char payload) = true.
Proof.
  unfold has_comma. induction prefix as [|c prefix IH].
  - reflexivity.
  - cbn [append list_ascii_of_string existsb]. rewrite IH. apply orb_true_r.
Qed.

Lemma after_last_comma_none (s : string) :
  has_comma s = false -> after_last_comma s = s.
Proof.
  unfold has_comma. destruct s as [|c rest]; [reflexivity|].
  cbn [list_ascii_of_string existsb after_last_comma].
  intros H. apply orb_false_iff in H as [Hc Hr].
  rewrite Hr. destruct (Ascii.eqb_spec c ","%char) as [->|_]; [discriminate|].
  reflexivity.
Qed.

(** What follows the last comma of a header, a comma and a payload without
    commas is the payload. *)
Lemma after_last_comma_header (prefix payload : string) :
  has_comma payload = false ->
  after_last_comma (prefix ++ String ","%char payload) = payload.
Proof.
  intros H. induction prefix as [|c prefix IH].
  - cbn [append after_last_comma]. fold (has_comma payload). rewrite H.
    reflexivity.
  - cbn [append after_last_comma].
    fold (has_comma (prefix ++ String ","%char payload)).
    now rewrite has_comma_app.
Qed.

Section Edges.

Context {vision : VisionLib}.

(** A text frame with a data-URI header is processed as its payload alone:
    whatever stands before the last comma is ignored. *)
Theorem preprocess_frame_ignores_header (header payload : string) :
  has_comma payload = false ->
  preprocess_frame (FrameText (header ++ String ","%char payload)) =
  preprocess_frame (FrameText payload).
Proof.
  intros H. unfold preprocess_frame.
  now rewrite after_last_comma_header, after_last_comma_none.
Qed.

Lemma center_crop_nonempty (img : image) :
  (2 <= rows img)%nat -> (2 <= cols img)%nat -> (0 < size (center_crop img))%nat.
Proof.
  intros Hr Hc. apply size_pos. unfold center_crop.
  rewrite crop_rows, crop_cols.
  split; apply slice_length_pos; try (apply Z.div_pos; lia);
    try (apply Z.div_lt_upper_bound; lia).
  - assert (Z.of_nat (rows img) / 4 * 4 <= Z.of_nat (rows img))
      by (rewrite Z.mul_comm; apply Z.mul_div_le; lia).
    assert (3 * Z.of_nat (rows img) < (3 * Z.of_nat (rows img) / 4 + 1) * 4).
    { pose proof (Z.mul_succ_div_gt (3 * Z.of_nat (rows img)) 4 ltac:(lia)). lia. }
    lia.
  - assert (Z.of_nat (cols img) / 4 * 4 <= Z.of_nat (cols img))
      by (rewrite Z.mul_comm; apply Z.mul_div_le; lia).
    assert (3 * Z.of_nat (cols img) < (3 * Z.of_nat (cols img) / 4 + 1) * 4).
    { pose proof (Z.mul_succ_div_gt (3 * Z.of_nat (cols img)) 4 ltac:(lia)). lia. }
    lia.
Qed.

Lemma detect_iris_region_available (img : image) :
  (2 <= rows img)%nat -> (2 <= cols img)%nat -> detect_iris_region img <> None.
Proof.
  intros Hr Hc E. apply detect_iris_region_None in E.
  pose proof (center_crop_nonempty img Hr Hc). lia.
Qed.

(** The fallback makes region location available: every image of at least
    two rows and two columns gets a region, of 128 by 128. *)
Theorem detect_iris_region_never_fails (img : image) :
  (2 <= rows img)%nat -> (2 <= cols img)%nat ->
  exists region,
    detect_iris_region img = Some region /\
    rows region = 128%nat /\ cols region = 128%nat.
Proof.
  intros Hr Hc. pose proof (detect_iris_region_available img Hr Hc) as Hne.
  destruct (detect_iris_region img) as [region|] eqn:E; [|congruence].
  exists region. split; [reflexivity|].
  now apply detect_iris_region_shape with img.
Qed.

Lemma square_le_sum_squares (x : R) (v : list R) :
  In x v -> (x * x <= sum_squares v)%R.
Proof.
  induction v as [|y v IH]; [contradiction|].
  rewrite sum_squares_cons.
  pose proof (Num.sum_squares_nonneg v) as Hv. fold (sum_squares v) in Hv.
  intros [->|Hin].
  - lra.
  - specialize (IH Hin). nra.
Qed.

Lemma abs_le_norm (x : R) (v : list R) : In x v -> (Rabs x <= Num.norm v)%R.
Proof.
  intros Hin. rewrite norm_sqrt.
  rewrite <- (sqrt_Rsqr_abs x). apply sqrt_le_1_alt. unfold Rsqr.
  now apply square_le_sum_squares.
Qed.

(** Whatever the size of the patch, every component of a feature vector
    and its norm are at most 1, within the tolerance 1e-6 that covers the
    rounding of the vector to single precision. *)
Theorem extract_features_bounded (iris_region : image) (v : list R) :
  extract_features (Some iris_region) = Some v ->
  Forall (fun x => Rabs x <= 1 + 1e-6)%R v /\ (Num.norm v <= 1 + 1e-6)%R.
Proof.
  intros H. apply extract_features_Some in H as (raw & _ & ->).
  pose proof (norm_nonneg raw) as Hn.
  assert (Hd : (0 < Num.norm raw + 1e-7)%R) by lra.
  assert (Hnorm : (Num.norm (l2_normalize raw) < 1)%R).
  { rewrite norm_l2_normalize.
    apply (Rmult_lt_reg_r (Num.norm raw + 1e-7)); [assumption|].
    unfold Rdiv. rewrite Rmult_assoc, Rinv_l by lra. lra. }
  split; [|lra].
  apply Forall_forall. intros y Hy.
  pose proof (abs_le_norm y (l2_normalize raw) Hy). lra.
Qed.

Lemma keep_none {A B} (f : A -> option B) (l : list A) :
  Forall (fun a => f a = None) l -> keep f l = [].
Proof.
  unfold keep. induction 1 as [|a l Ha _ IH]; [reflexivity|].
  cbn [flat_map]. now rewrite Ha, IH.
Qed.

(** When no frame of a batch can be decoded, no template is created and
    the batch is not live; with three frames or more the reason is "Failed
    to process frames". *)
Theorem undecodable_batch (frames : list frame) :
  Forall (fun f => preprocess_frame f = None) frames ->
  create_template frames = None /\
  is_live (check_liveness frames) = false /\
  ((3 <= length frames)%nat ->
   check_liveness frames = not_live "Failed to process frames").
Proof.
  intros H.
  assert (Hl : located_regions frames = []).
  { apply keep_none. eapply Forall_impl; [|exact H].
    intros f Hf. unfold located_region. now rewrite Hf. }
  assert (Hs : surviving_frames frames = []).
  { apply keep_none. eapply Forall_impl; [|exact H].
    intros f Hf. unfold surviving_frame, located_region. now rewrite Hf. }
  split; [|split].
  - pose proof (create_template_survivors frames) as Hc. now rewrite Hs in Hc.
  - rewrite check_liveness_unfold, Hl.
    destruct (Nat.ltb (length frames) 3); reflexivity.
  - intros H3. rewrite check_liveness_unfold, Hl.
    apply Nat.ltb_ge in H3. now rewrite H3.
Qed.

Lemma keep_app {A B} (f : A -> option B) (l1 l2 : list A) :
  keep f (l1 ++ l2) = keep f l1 ++ keep f l2.
Proof. unfold keep. apply flat_map_app. Qed.

(** The number of frames a template was fused from; 0 when there is none. *)
Definition frames_used (frames : list frame) : nat :=
  match create_template frames with
  | Some T => num_frames T
  | None => 0
  end.

Lemma frames_used_survivors (frames : list frame) :
  frames_used frames = length (surviving_frames frames).
Proof.
  unfold frames_used. pose proof (create_template_survivors frames) as H.
  destruct (surviving_frames frames) as [|s l].
  - now rewrite H.
  - destruct H as (m & _ & ->). reflexivity.
Qed.

(** Frames are judged one by one: a batch made of two parts uses as many
    frames as the parts use together, and it yields no template exactly
    when neither part yields one. *)
Theorem create_template_batches (batch1 batch2 : list frame) :
  frames_used (batch1 ++ batch2) = (frames_used batch1 + frames_used batch2)%nat /\
  (create_template (batch1 ++ batch2) = None <->
   create_template batch1 = None /\ create_template batch2 = None).
Proof.
  assert (Hn : forall l, create_template l = None <-> surviving_frames l = []).
  { intros l. pose proof (create_template_survivors l) as H.
    destruct (surviving_frames l) as [|s r].
    - tauto.
    - destruct H as (m & _ & ->). split; discriminate. }
  split.
  - rewrite !frames_used_survivors. unfold surviving_frames.
    now rewrite keep_app, length_app.
  - rewrite !Hn. unfold surviving_frames. rewrite keep_app.
    split.
    + intros H. now apply app_eq_nil in H.
    + intros [-> ->]. reflexivity.
Qed.

End Edges.

(** ** The stand-in operations on concrete frames *)

Module ToyRuns.

Lemma preprocess_gray (img : image) :
  preprocess_frame (vision := ToyVision.lib) (FrameGray img) = Some img.
Proof. reflexivity. Qed.

Lemma located_gray (img : image) :
  (2 <= rows img)%nat -> (2 <= cols img)%nat ->
  exists region,
    located_region (vision := ToyVision.lib) (FrameGray img) = Some region /\
    size region <> 0%nat.
Proof.
  intros Hr Hc. unfold located_region. rewrite preprocess_gray.
  pose proof (detect_iris_region_available (vision := ToyVision.lib) img Hr Hc) as Hne.
  destruct (detect_iris_region (vision := ToyVision.lib) img) as [region|] eqn:E;
    [|congruence].
  exists region. split; [reflexivity|].
  apply (detect_iris_region_shape (vision := ToyVision.lib)) in E as [E1 E2].
  unfold size. rewrite E1, E2. discriminate.
Qed.

Lemma extract_features_some (img : image) :
  size img <> 0%nat ->
  exists v, extract_features (vision := ToyVision.lib) (Some img) = Some v.
Proof.
  intros Hs. unfold extract_features.
  destruct (Nat.eqb_spec (size img) 0) as [|_]; [contradiction|].
  unfold concatenated_features, intensity_statistics.
  change (local_binary_pattern (VisionLib := ToyVision.lib) img 8 1)
    with (ToyVision.local_binary_pattern img 8 1).
  change (hog (VisionLib := ToyVision.lib) img 8 (16, 16)%nat (1, 1)%nat)
    with (ToyVision.hog img 8 (16, 16)%nat (1, 1)%nat).
  unfold ToyVision.local_binary_pattern, ToyVision.hog. cbn [bind].
  change (gabor_features (vision := ToyVision.lib) img (seq 0 4))
    with (@Ok (list R)
            [Num.mean (intensities img); Num.std (intensities img);
             Num.mean (intensities img); Num.std (intensities img);
             Num.mean (intensities img); Num.std (intensities img);
             Num.mean (intensities img); Num.std (intensities img)]).
  cbn [bind].
  pose proof (ToyVision.ravel_length img) as Hl.
  destruct (ravel img) as [|x t] eqn:E; [cbn [length] in Hl; congruence|].
  cbn [np_min np_max bind]. eauto.
Qed.

(** One frame showing the eye survives all three stages. *)
Lemma eye_survives :
  exists v q, surviving_frames (vision := ToyVision.lib) [FrameGray ToyVision.eye]
              = [(v, q)].
Proof.
  destruct (located_gray ToyVision.eye) as (region & Hl & Hs);
    [cbn; lia | cbn; lia |].
  destruct (extract_features_some region Hs) as [v Hv].
  exists v, (_calculate_quality (vision := ToyVision.lib) region).
  unfold surviving_frames, keep, surviving_frame. cbn [flat_map].
  rewrite Hl, Hv. reflexivity.
Qed.

Lemma eye_template :
  exists T, create_template (vision := ToyVision.lib) [FrameGray ToyVision.eye] = Some T.
Proof.
  destruct eye_survives as (v & q & Hs).
  pose proof (create_template_survivors (vision := ToyVision.lib)
                [FrameGray ToyVision.eye]) as H.
  rewrite Hs in H. destruct H as (m & _ & H). eauto.
Qed.

Lemma undecodable_text :
  preprocess_frame (vision := ToyVision.lib) (FrameText "!!!") = None.
Proof. reflexivity. Qed.

End ToyRuns.

Lemma create_template_counts_witness :
  exists T,
    create_template (vision := ToyVision.lib) [FrameGray ToyVision.eye] = Some T /\
    (1 <= num_frames T <= length [FrameGray ToyVision.eye])%nat /\
    (0 <= quality_score T <= 1)%R.
Proof.
  destruct ToyRuns.eye_template as [T HT]. exists T. split; [assumption|].
  exact (create_template_counts (vision := ToyVision.lib) _ T HT).
Defined.

Lemma match_templates_threshold_monotone_witness :
  is_match (match_templates (crypto := Toy.crypto) Toy.engine
              (Array [3%R; 4%R; 0%R]) (Array [3%R; 4%R; 0%R]) 0.5%R) = true.
Proof.
  apply (match_templates_threshold_monotone (crypto := Toy.crypto) Toy.engine
           (Array [3%R; 4%R; 0%R]) (Array [3%R; 4%R; 0%R]) 0.15%R 0.5%R).
  - lra.
  - rewrite (match_templates_self (crypto := Toy.crypto)); [reflexivity| |lra].
    apply Exists_cons_hd. lra.
Defined.

Lemma match_templates_symmetric_witness :
  match_templates (crypto := Toy.crypto) Toy.engine
    (Array [1%R; 2%R]) (Array [3%R; 4%R]) default_threshold =
  match_templates (crypto := Toy.crypto) Toy.engine
    (Array [3%R; 4%R]) (Array [1%R; 2%R]) default_threshold.
Proof.
  apply (match_templates_symmetric (crypto := Toy.crypto)). reflexivity.
Defined.

Lemma match_templates_score_bounds_witness :
  let result :=
    match_templates (crypto := Toy.crypto) Toy.engine
      (Array [0.5%R; 1%R]) (Array [1%R; 0.25%R]) default_threshold in
  length [0.5%R; 1%R] = length [1%R; 0.25%R] /\
  (exists s, similarity result = Some s /\ (-1 <= s <= 1)%R) /\
  (exists d, distance result = Some d /\ (0 <= d)%R) /\
  (confidence result <= 1)%R.
Proof.
  apply (match_templates_score_bounds (crypto := Toy.crypto)).
  - split.
    + do 2 (constructor; [apply Rabs_le; lra|]). constructor.
    + apply Exists_cons_hd. rewrite Rabs_right; lra.
  - split.
    + do 2 (constructor; [apply Rabs_le; lra|]). constructor.
    + apply Exists_cons_hd. rewrite Rabs_right; lra.
  - reflexivity.
Defined.

Lemma match_templates_stored_template_witness :
  let result :=
    match_templates (crypto := Toy.crypto) Toy.engine
      (Encrypted (Base64.b64encode
                    (envelope (crypto := Toy.crypto) Toy.engine Toy.iv
                       (template Toy.stored))))
      (Array (map f32_value (template Toy.stored))) default_threshold in
  is_match result = true /\ distance result = Some 0%R /\ error result = None.
Proof.
  apply (match_templates_stored_template (crypto := Toy.crypto) Toy.engine
           Toy.iv Toy.stored).
  - apply init_ok.
  - reflexivity.
  - discriminate.
  - repeat constructor; unfold is_float32; try lia; discriminate.
  - apply encrypt_template_envelope; [apply init_ok | reflexivity].
Defined.

Lemma encrypt_template_injective_witness :
  Toy.iv = Toy.iv /\ template Toy.stored = template Toy.stored.
Proof.
  apply (encrypt_template_injective (crypto := Toy.crypto) Toy.engine
           Toy.iv Toy.iv Toy.stored Toy.stored).
  - apply init_ok.
  - reflexivity.
  - reflexivity.
  - exact Toy.stored_float32.
  - exact Toy.stored_float32.
  - reflexivity.
Defined.

Lemma encrypt_template_succeeds_witness :
  exists encrypted : string,
    encrypt_template (crypto := Toy.crypto)
      (__init__ (crypto := Toy.crypto) (Some "secret"%string) None) Toy.iv Toy.stored
      = Some encrypted /\
    String.length encrypted = 64%nat.
Proof.
  apply (encrypt_template_succeeds (crypto := Toy.crypto)
           (Some "secret"%string) None Toy.iv Toy.stored).
  reflexivity.
Defined.

Lemma preprocess_frame_ignores_header_witness :
  preprocess_frame (vision := ToyVision.lib)
    (FrameText ("data:image/jpeg;base64" ++ String ","%char "/9j/4AAQ")) =
  preprocess_frame (vision := ToyVision.lib) (FrameText "/9j/4AAQ").
Proof.
  apply (preprocess_frame_ignores_header (vision := ToyVision.lib)). reflexivity.
Defined.

Lemma detect_iris_region_never_fails_witness :
  exists region,
    detect_iris_region (vision := ToyVision.lib) ToyVision.eye = Some region /\
    rows region = 128%nat /\ cols region = 128%nat.
Proof.
  apply (detect_iris_region_never_fails (vision := ToyVision.lib)); cbn; lia.
Defined.

Lemma extract_features_bounded_witness :
  exists v,
    extract_features (vision := ToyVision.lib) (Some ToyVision.patch) = Some v /\
    Forall (fun x => Rabs x <= 1 + 1e-6)%R v /\ (Num.norm v <= 1 + 1e-6)%R.
Proof.
  destruct (ToyRuns.extract_features_some ToyVision.patch) as [v Hv];
    [discriminate|].
  exists v. split; [assumption|].
  exact (extract_features_bounded (vision := ToyVision.lib) ToyVision.patch v Hv).
Defined.

Lemma undecodable_batch_witness :
  create_template (vision := ToyVision.lib)
    [FrameText "!!!"; FrameText "!!!"; FrameText "!!!"] = None /\
  is_live (check_liveness (vision := ToyVision.lib)
             [FrameText "!!!"; FrameText "!!!"; FrameText "!!!"]) = false /\
  ((3 <= length [FrameText "!!!"; FrameText "!!!"; FrameText "!!!"])%nat ->
   check_liveness (vision := ToyVision.lib)
     [FrameText "!!!"; FrameText "!!!"; FrameText "!!!"]
   = not_live "Failed to process frames").
Proof.
  apply (undecodable_batch (vision := ToyVision.lib)).
  repeat constructor.
Defined.

(** ** Templates lie in the unit ball *)

Lemma l2_normalize_norm_lt (raw : list R) : (Num.norm (l2_normalize raw) < 1)%R.
Proof.
  pose proof (norm_nonneg raw) as Hn.
  rewrite norm_l2_normalize.
  apply (Rmult_lt_reg_r (Num.norm raw + 1e-7)); [lra|].
  unfold Rdiv. rewrite Rmult_assoc, Rinv_l by lra. lra.
Qed.

Lemma sum_squares_lt_1 (v : list R) : (Num.norm v < 1)%R -> (sum_squares v < 1)%R.
Proof.
  intros H. rewrite norm_sqrt in H.
  pose proof (Num.sum_squares_nonneg v) as Hs. fold (sum_squares v) in Hs.
  destruct (Rlt_dec (sum_squares v) 1) as [|Hge]; [assumption|].
  exfalso. apply Rnot_lt_le in Hge.
  apply sqrt_le_1_alt in Hge. rewrite sqrt_1 in Hge. lra.
Qed.

Lemma sum_map_le {A} (f g : A -> R) (l : list A) :
  (forall x, In x l -> (f x <= g x)%R) ->
  (Num.sum (map f l) <= Num.sum (map g l))%R.
Proof.
  induction l as [|x l IH]; intros H; cbn [map]; [lra|].
  rewrite !sum_cons.
  pose proof (H x (or_introl eq_refl)).
  assert (Num.sum (map f l) <= Num.sum (map g l))%R
    by (apply IH; intros y Hy; apply H; now right).
  lra.
Qed.

Lemma sum_map_plus {A} (f g : A -> R) (l : list A) :
  Num.sum (map (fun x => f x + g x)%R l) = (Num.sum (map f l) + Num.sum (map g l))%R.
Proof.
  induction l as [|x l IH]; cbn [map]; [rewrite !sum_nil; lra|].
  rewrite !sum_cons, IH. lra.
Qed.

Lemma sum_map_zero {A} (l : list A) : Num.sum (map (fun _ => 0%R) l) = 0%R.
Proof.
  induction l as [|x l IH]; cbn [map]; [apply sum_nil|].
  rewrite sum_cons, IH. lra.
Qed.

Lemma sum_map_scale {A} (f : A -> R) (c : R) (l : list A) :
  Num.sum (map (fun x => f x * c)%R l) = (Num.sum (map f l) * c)%R.
Proof.
  induction l as [|x l IH]; cbn [map]; [rewrite !sum_nil; lra|].
  rewrite !sum_cons, IH. lra.
Qed.

(** Summing a table by rows or by columns. *)
Lemma sum_swap {A B} (F : A -> B -> R) (rows_ : list A) (cols_ : list B) :
  Num.sum (map (fun j => Num.sum (map (fun a => F a j) rows_)) cols_) =
  Num.sum (map (fun a => Num.sum (map (fun j => F a j) cols_)) rows_).
Proof.
  induction rows_ as [|a rows_ IH]; cbn [map].
  - rewrite sum_nil. apply sum_map_zero.
  - rewrite sum_cons, <- IH, <- sum_map_plus.
    apply f_equal, map_ext. intros j. apply sum_cons.
Qed.

Lemma map_nth_seq {A} (d : A) (v : list A) :
  v = map (fun j => nth j v d) (seq 0 (length v)).
Proof.
  apply (nth_ext _ _ d (nth 0%nat v d)).
  - now rewrite length_map, length_seq.
  - intros j Hj.
    rewrite (map_nth (fun j => nth j v d) (seq 0 (length v)) 0%nat j).
    now rewrite seq_nth.
Qed.

Lemma sum_squares_by_index (v : list R) :
  sum_squares v =
  Num.sum (map (fun j => nth j v 0 * nth j v 0)%R (seq 0 (length v))).
Proof.
  unfold sum_squares. rewrite (map_nth_seq 0%R v) at 1.
  now rewrite map_map.
Qed.

(** The square of a mean is at most the mean of the squares. *)
Lemma mean_square_le (l : list R) :
  (Num.mean l * Num.mean l <= Num.mean (map (fun x => x * x) l))%R.
Proof.
  unfold Num.mean. rewrite length_map.
  destruct l as [|x l]; [cbn; unfold Rdiv; rewrite Rinv_0; lra|].
  set (l' := x :: l).
  assert (Hk : (0 < INR (length l'))%R) by (apply lt_0_INR; cbn; lia).
  pose proof (sum_sq_le l') as H. unfold sum_squares in H.
  set (s := Num.sum l') in *. set (q := Num.sum (map (fun x => x * x)%R l')) in *.
  set (k := INR (length l')) in *.
  replace (s / k * (s / k))%R with (s * s / (k * k))%R by (field; lra).
  apply (Rmult_le_reg_r (k * k)); [nra|].
  replace (s * s / (k * k) * (k * k))%R with (s * s)%R by (field; lra).
  replace (q / k * (k * k))%R with (k * q)%R by (field; lra).
  exact H.
Qed.

Lemma sum_map_const {A} (c : R) (l : list A) :
  Num.sum (map (fun _ => c) l) = (INR (length l) * c)%R.
Proof.
  induction l as [|x l IH]; [cbn; lra|].
  cbn [map length]. rewrite sum_cons, S_INR, IH. lra.
Qed.

Lemma sum_ball_scaled (arrays : list (list R)) (n : nat) (c : R) :
  (0 < c)%R -> arrays <> [] ->
  Forall (fun a => length a = n) arrays ->
  Forall (fun a => sum_squares a < 1)%R arrays ->
  (Num.sum (map (fun a =>
      Num.sum (map (fun j => nth j a 0 * nth j a 0 * c) (seq 0 n))) arrays)
   < Num.sum (map (fun _ => c) arrays))%R.
Proof.
  intros Hc Hne Hlen Hball.
  induction arrays as [|a arrays IH]; [congruence|].
  apply Forall_cons_iff in Hlen as [Ha Hlen].
  apply Forall_cons_iff in Hball as [Hb Hball].
  cbn [map]. rewrite !sum_cons.
  assert (Hhead :
    (Num.sum (map (fun j => nth j a 0 * nth j a 0 * c) (seq 0 n)) < c)%R).
  { rewrite sum_map_scale, <- Ha, <- sum_squares_by_index. nra. }
  destruct arrays as [|b arrays].
  - cbn [map]. rewrite !sum_nil. lra.
  - assert (Hne' : b :: arrays <> []) by discriminate.
    specialize (IH Hne' Hlen Hball). lra.
Qed.

(** The mean of vectors of the unit ball lies in the unit ball. *)
Lemma mean_axis0_unit_ball (arrays : list (list R)) (n : nat) (m : list R) :
  arrays <> [] ->
  Forall (fun a => length a = n) arrays ->
  Forall (fun a => sum_squares a < 1)%R arrays ->
  length m = n ->
  (forall j, (j < n)%nat ->
     nth j m 0%R = Num.mean (map (fun a => nth j a 0%R) arrays)) ->
  (sum_squares m < 1)%R.
Proof.
  intros Hne Hlen Hball Hm Hnth.
  set (k := INR (length arrays)).
  assert (Hk : (0 < k)%R).
  { apply lt_0_INR. destruct arrays; [congruence | cbn; lia]. }
  rewrite sum_squares_by_index, Hm.
  apply Rle_lt_trans with
    (Num.sum (map (fun j =>
       Num.sum (map (fun a => nth j a 0 * nth j a 0 * / k)%R arrays)) (seq 0 n))).
  - apply sum_map_le. intros j Hj. apply in_seq in Hj.
    rewrite Hnth by lia.
    eapply Rle_trans; [apply mean_square_le|].
    unfold Num.mean. rewrite !length_map, map_map. fold k.
    rewrite sum_map_scale. unfold Rdiv. lra.
  - rewrite (sum_swap (fun a j => nth j a 0 * nth j a 0 * / k)%R arrays (seq 0 n)).
    apply Rlt_le_trans with (Num.sum (map (fun _ => / k)%R arrays)).
    + apply sum_ball_scaled; try assumption. now apply Rinv_0_lt_compat.
    + rewrite sum_map_const. fold k. rewrite Rinv_r by lra. lra.
Qed.

Section TemplateBall.

Context {vision : VisionLib} {crypto : CryptoLib}.

Lemma surviving_frames_features (frames : list frame) :
  Forall (fun a => length a = 109%nat) (map fst (surviving_frames frames)) /\
  Forall (fun a => sum_squares a < 1)%R (map fst (surviving_frames frames)).
Proof.
  assert (H : forall a, In a (map fst (surviving_frames frames)) ->
                        length a = 109%nat /\ (sum_squares a < 1)%R).
  { intros a Ha. apply in_map_iff in Ha as ([v q] & <- & Hin). cbn [fst].
    apply keep_In in Hin as (f & _ & Hf).
    unfold surviving_frame in Hf.
    destruct (located_region f) as [region|] eqn:Hr; [|discriminate].
    destruct (extract_features (Some region)) as [v'|] eqn:Hv; [|discriminate].
    injection Hf as -> _.
    unfold located_region in Hr.
    destruct (preprocess_frame f) as [img|]; [|discriminate].
    apply detect_iris_region_shape in Hr as [Hrows Hcols].
    split; [now apply extract_features_length with region|].
    apply extract_features_Some in Hv as (raw & _ & ->).
    apply sum_squares_lt_1, l2_normalize_norm_lt. }
  split; apply Forall_forall; intros a Ha; now apply H.
Qed.

Lemma template_mean_ball (frames : list frame) (T : template_data R) :
  create_template frames = Some T ->
  length (template T) = 109%nat /\ (sum_squares (template T) < 1)%R.
Proof.
  intros H.
  pose proof (create_template_survivors frames) as Hs.
  destruct (surviving_frames_features frames) as [Hlen Hball].
  destruct (surviving_frames frames) as [|s l] eqn:E; [congruence|].
  destruct Hs as (m & Hm & HT). rewrite HT in H. injection H as <-.
  cbn [template].
  assert (Hne : map fst (s :: l) <> []) by discriminate.
  destruct (np_mean_axis0_spec _ 109 Hne Hlen) as (m' & Hm' & Hl & Hnth).
  rewrite Hm in Hm'. apply Ok_inj in Hm'. subst m'.
  split; [assumption|].
  exact (mean_axis0_unit_ball _ 109 m Hne Hlen Hball Hl Hnth).
Qed.


(** The squared distance of two arrays in terms of their squares and their
    dot product. *)
Lemma difference_squares (a b : list R) :
  length a = length b ->
  sum_squares (map (fun p => fst p - snd p)%R (combine a b)) =
  (sum_squares a + sum_squares b - 2 * dot_product a b)%R.
Proof.
  revert b. induction a as [|x a IH]; intros [|y b] Hl; try discriminate.
  - unfold dot_product, sum_squares. cbn. lra.
  - injection Hl as Hl. unfold dot_product in *.
    cbn [combine map fst snd]. rewrite !sum_squares_cons, sum_cons, (IH b Hl).
    lra.
Qed.

Lemma dot_product_nonneg (a b : list R) :
  Forall (fun x => 0 <= x)%R a -> Forall (fun x => 0 <= x)%R b ->
  (0 <= dot_product a b)%R.
Proof.
  intros Ha. revert b. unfold dot_product.
  induction Ha as [|x a Hx _ IH]; intros b Hb; [cbn; lra|].
  destruct Hb as [|y b Hy Hb]; [cbn; lra|].
  cbn [combine map fst snd]. rewrite sum_cons.
  specialize (IH b Hb). nra.
Qed.

(** Two arrays of 109 components in the unit ball whose dot product is not
    negative are less than 0.15 apart in normalised distance. *)
Lemma normalized_distance_unit_ball (a b : list R) :
  length a = 109%nat -> length b = 109%nat ->
  (Num.norm a <= 1)%R -> (Num.norm b <= 1)%R ->
  (0 <= dot_product a b)%R ->
  (normalized_distance a b < default_threshold)%R.
Proof.
  intros Ha Hb Hna Hnb Hdot.
  assert (Hsq : forall v, (Num.norm v <= 1)%R -> (sum_squares v <= 1)%R).
  { intros v Hv. rewrite norm_sqrt in Hv.
    pose proof (Num.sum_squares_nonneg v) as Hs. fold (sum_squares v) in Hs.
    destruct (Rle_dec (sum_squares v) 1) as [|Hgt]; [assumption|].
    exfalso. apply Rnot_le_lt in Hgt.
    assert (H1 : (sqrt 1 < sqrt (sum_squares v))%R) by (apply sqrt_lt_1_alt; lra).
    rewrite sqrt_1 in H1. lra. }
  unfold normalized_distance, default_threshold.
  rewrite norm_sqrt, difference_squares by congruence.
  rewrite Ha.
  set (s := (sum_squares a + sum_squares b - 2 * dot_product a b)%R).
  assert (Hs2 : (s <= 2)%R) by (unfold s; pose proof (Hsq a Hna); pose proof (Hsq b Hnb); lra).
  assert (Hs0 : (0 <= s)%R).
  { unfold s. rewrite <- difference_squares by congruence.
    apply Num.sum_squares_nonneg. }
  assert (H109 : INR 109 = 109%R) by (rewrite INR_IZR_INZ; reflexivity).
  rewrite H109.
  rewrite <- sqrt_div_alt by lra.
  replace 0.15%R with (sqrt (0.15 * 0.15)) by (apply sqrt_square; lra).
  apply sqrt_lt_1_alt. split.
  - apply Rmult_le_pos; [lra|]. apply Rlt_le, Rinv_0_lt_compat. lra.
  - apply (Rmult_lt_reg_r 109); [lra|].
    unfold Rdiv. rewrite Rmult_assoc, Rinv_l by lra. lra.
Qed.

(** Any two arrays of 109 non-negative components and norm at most 1 are
    declared a match at the default threshold, however different they
    are. *)
Theorem match_templates_nonnegative_unit (self : IrisBiometricEngine)
  (a b : list R) :
  length a = 109%nat -> length b = 109%nat ->
  Forall (fun x => 0 <= x)%R a -> Forall (fun x => 0 <= x)%R b ->
  (Num.norm a <= 1)%R -> (Num.norm b <= 1)%R ->
  is_match (match_templates self (Array a) (Array b) default_threshold) = true.
Proof.
  intros Ha Hb Hpa Hpb Hna Hnb.
  rewrite (match_templates_scoring self (Array a) (Array b) a b _ eq_refl eq_refl)
    by congruence.
  cbn [is_match]. apply Num.Rltb_true.
  apply normalized_distance_unit_ball; try assumption.
  now apply dot_product_nonneg.
Qed.

End TemplateBall.

(** * The HTTP handlers of [backend/server.py]

    The handlers are functions from the request and the database to a
    response and the database after the call.  The four collections are
    lists of documents in insertion order; [find_one] returns the first
    document with the account number asked for and [update_one] changes
    that document.  What a handler draws from outside (the identifier of
    [uuid.uuid4], the bytes of [get_random_bytes]) is an argument.  The
    identifiers and time stamps of biometric, transaction and audit
    documents, which no handler reads, are left out of the documents.
    Amounts and balances are real numbers. *)

(** ** Python values *)

(** A [numpy] array of booleans, integers or floats: an element, or a list
    of arrays along the first axis. *)
#[warnings="-register-all"] Inductive ndarray : Type :=
| nd_bool (b : bool)
| nd_integer (z : Z)
| nd_floating (x : R)
| nd_axis (l : list ndarray).

(** The values that reach [convert_numpy_types]: native Python values, the
    [numpy] scalars of the three kinds it tests for, [numpy] scalars of
    other kinds (complex, datetime, ...), and arrays.  Dictionary keys are
    strings. *)
#[warnings="-register-all"] Inductive pyval : Type :=
| Py_None
| Py_bool (b : bool)
| Py_int (z : Z)
| Py_float (x : R)
| Py_str (s : string)
| Py_list (l : list pyval)
| Py_tuple (l : list pyval)
| Py_dict (items : list (string * pyval))
| Np_bool_ (b : bool)
| Np_integer (z : Z)
| Np_floating (x : R)
| Np_other (dtype : string)
| Np_ndarray (a : ndarray).

Section ValueInduction.

Variable P : ndarray -> Prop.
Hypothesis P_bool : forall b, P (nd_bool b).
Hypothesis P_integer : forall z, P (nd_integer z).
Hypothesis P_floating : forall x, P (nd_floating x).
Hypothesis P_axis : forall l, Forall P l -> P (nd_axis l).

Fixpoint ndarray_induction (a : ndarray) : P a :=
  match a with
  | nd_bool b => P_bool b
  | nd_integer z => P_integer z
  | nd_floating x => P_floating x
  | nd_axis l =>
      P_axis l
        ((fix all (l : list ndarray) : Forall P l :=
            match l with
            | [] => Forall_nil P
            | x :: rest => Forall_cons x (ndarray_induction x) (all rest)
            end) l)
  end.

Variable Q : pyval -> Prop.
Hypothesis Q_None : Q Py_None.
Hypothesis Q_bool : forall b, Q (Py_bool b).
Hypothesis Q_int : forall z, Q (Py_int z).
Hypothesis Q_float : forall x, Q (Py_float x).
Hypothesis Q_str : forall s, Q (Py_str s).
Hypothesis Q_list : forall l, Forall Q l -> Q (Py_list l).
Hypothesis Q_tuple : forall l, Forall Q l -> Q (Py_tuple l).
Hypothesis Q_dict : forall items, Forall (fun kv => Q (snd kv)) items -> Q (Py_dict items).
Hypothesis Q_np_bool : forall b, Q (Np_bool_ b).
Hypothesis Q_np_integer : forall z, Q (Np_integer z).
Hypothesis Q_np_floating : forall x, Q (Np_floating x).
Hypothesis Q_np_other : forall d, Q (Np_other d).
Hypothesis Q_ndarray : forall a, Q (Np_ndarray a).

Fixpoint pyval_induction (v : pyval) : Q v :=
  match v with
  | Py_None => Q_None
  | Py_bool b => Q_bool b
  | Py_int z => Q_int z
  | Py_float x => Q_float x
  | Py_str s => Q_str s
  | Py_list l =>
      Q_list l
        ((fix all (l : list pyval) : Forall Q l :=
            match l with
            | [] => Forall_nil Q
            | x :: rest => Forall_cons x (pyval_induction x) (all rest)
            end) l)
  | Py_tuple l =>
      Q_tuple l
        ((fix all (l : list pyval) : Forall Q l :=
            match l with
            | [] => Forall_nil Q
            | x :: rest => Forall_cons x (pyval_induction x) (all rest)
            end) l)
  | Py_dict items =>
      Q_dict items
        ((fix all (l : list (string * pyval)) : Forall (fun kv => Q (snd kv)) l :=
            match l with
            | [] => Forall_nil _
            | kv :: rest =>
                Forall_cons kv
                  (match kv return Q (snd kv) with
                   | (_, x) => pyval_induction x
                   end)
                  (all rest)
            end) items)
  | Np_bool_ b => Q_np_bool b
  | Np_integer z => Q_np_integer z
  | Np_floating x => Q_np_floating x
  | Np_other d => Q_np_other d
  | Np_ndarray a => Q_ndarray a
  end.

End ValueInduction.

(** [ndarray.tolist()]: nested lists of native scalars. *)
Fixpoint tolist (a : ndarray) : pyval :=
  match a with
  | nd_bool b => Py_bool b
  | nd_integer z => Py_int z
  | nd_floating x => Py_float x
  | nd_axis l => Py_list (map tolist l)
  end.

Fixpoint convert_numpy_types (obj : pyval) : pyval :=
  match obj with
  | Py_dict items =>
      Py_dict (map (fun kv => let '(k, v) := kv in (k, convert_numpy_types v)) items)
  | Py_list l => Py_list (map convert_numpy_types l)
  | Np_bool_ b => Py_bool b
  | Np_integer z => Py_int z
  | Np_floating x => Py_float x
  | Np_ndarray a => tolist a
  | _ => obj
  end.

(** A value without any [numpy] scalar or array in it. *)
Fixpoint native (v : pyval) : bool :=
  match v with
  | Py_list l | Py_tuple l => forallb native l
  | Py_dict items => forallb (fun kv => native (snd kv)) items
  | Np_bool_ _ | Np_integer _ | Np_floating _ | Np_other _ | Np_ndarray _ => false
  | _ => true
  end.

(** A value whose [numpy] parts are all within the reach of
    [convert_numpy_types]: scalars of the three kinds and arrays, under
    dictionaries and lists only. *)
Fixpoint convertible (v : pyval) : bool :=
  match v with
  | Py_list l => forallb convertible l
  | Py_dict items => forallb (fun kv => convertible (snd kv)) items
  | Py_tuple l => forallb native l
  | Np_other _ => false
  | _ => true
  end.

(** [d.get(key)] on a dictionary. *)
Definition dict_get (key : string) (d : pyval) : option pyval :=
  match d with
  | Py_dict items =>
      option_map snd (find (fun kv => String.eqb (fst kv) key) items)
  | _ => None
  end.

(** ** Documents and collections *)

Record User := {
  user_id : string;
  user_name : string;
  user_account_number : string;
  user_email : string;
  user_balance : R
}.

Record BiometricTemplate := {
  template_user_id : string;
  template_account_number : string;
  template_blob : string;
  template_meta : pyval
}.

Record AuditLog := {
  audit_user_id : option string;
  audit_account_number : option string;
  event_type : string;
  device_info : string;
  audit_success : bool;
  details : pyval
}.

Record Transaction := {
  transaction_id : string;
  transaction_user_id : string;
  transaction_account_number : string;
  transaction_type : string;
  transaction_amount : R;
  balance_after : R
}.

Record database := {
  users : list User;
  biometrics : list BiometricTemplate;
  audit_logs : list AuditLog;
  transactions : list Transaction
}.

(** [collection.find_one({"account_number": account_number})]. *)
Definition find_one {D} (account_number_of : D -> string) (collection : list D)
  (account_number : string) : option D :=
  find (fun doc => String.eqb (account_number_of doc) account_number) collection.

(** [users.update_one({"account_number": ...}, {"$set": {"balance": ...}})]. *)
Fixpoint update_one (account_number : string) (new_balance : R)
  (collection : list User) : list User :=
  match collection with
  | [] => []
  | doc :: rest =>
      if String.eqb (user_account_number doc) account_number then
        {| user_id := user_id doc;
           user_name := user_name doc;
           user_account_number := user_account_number doc;
           user_email := user_email doc;
           user_balance := new_balance |} :: rest
      else doc :: update_one account_number new_balance rest
  end.

(** ** Handlers *)

(** A handler returns a body or raises an [HTTPException]. *)
Inductive response (A : Type) : Type :=
| Returned (body : A)
| HTTPException (status_code : nat) (detail : string).
Arguments Returned {A} _.
Arguments HTTPException {A} _ _.

Definition handler (A : Type) : Type := database -> response A * database.

Definition ret {A} (a : A) : handler A := fun db => (Returned a, db).

Definition raise_http {A} (status_code : nat) (detail : string) : handler A :=
  fun db => (HTTPException status_code detail, db).

Definition handler_bind {A B} (c : handler A) (k : A -> handler B) : handler B :=
  fun db =>
    match c db with
    | (Returned a, db') => k a db'
    | (HTTPException status_code detail, db') =>
        (HTTPException status_code detail, db')
    end.

Declare Scope handler_scope.
Delimit Scope handler_scope with handler.
Notation "x <- c ;; k" := (handler_bind c (fun x => k))
  (at level 61, c at next level, right associativity) : handler_scope.
Notation "c ;; k" := (handler_bind c (fun _ => k))
  (at level 61, right associativity) : handler_scope.

Definition users_find_one (account_number : string) : handler (option User) :=
  fun db => (Returned (find_one user_account_number (users db) account_number), db).

Definition biometrics_find_one (account_number : string)
  : handler (option BiometricTemplate) :=
  fun db =>
    (Returned (find_one template_account_number (biometrics db) account_number), db).

Definition users_insert_one (doc : User) : handler unit :=
  fun db =>
    (Returned tt,
     {| users := users db ++ [doc];
        biometrics := biometrics db;
        audit_logs := audit_logs db;
        transactions := transactions db |}).

Definition users_update_one (account_number : string) (new_balance : R)
  : handler unit :=
  fun db =>
    (Returned tt,
     {| users := update_one account_number new_balance (users db);
        biometrics := biometrics db;
        audit_logs := audit_logs db;
        transactions := transactions db |}).

Definition biometrics_insert_one (doc : BiometricTemplate) : handler unit :=
  fun db =>
    (Returned tt,
     {| users := users db;
        biometrics := biometrics db ++ [doc];
        audit_logs := audit_logs db;
        transactions := transactions db |}).

Definition audit_logs_insert_one (doc : AuditLog) : handler unit :=
  fun db =>
    (Returned tt,
     {| users := users db;
        biometrics := biometrics db;
        audit_logs := audit_logs db ++ [doc];
        transactions := transactions db |}).

Definition transactions_insert_one (doc : Transaction) : handler unit :=
  fun db =>
    (Returned tt,
     {| users := users db;
        biometrics := biometrics db;
        audit_logs := audit_logs db;
        transactions := transactions db ++ [doc] |}).

Definition log_audit (event_type : string) (account_number user_id : option string)
  (success : bool) (details : pyval) : handler unit :=
  let clean_details := convert_numpy_types details in
  audit_logs_insert_one
    {| audit_user_id := user_id;
       audit_account_number := account_number;
       event_type := event_type;
       device_info := "webcam";
       audit_success := success;
       details := clean_details |}.

Definition Rleb (x y : R) : bool := if Rle_dec x y then true else false.

Lemma Rleb_true (x y : R) : Rleb x y = true <-> (x <= y)%R.
Proof. unfold Rleb. destruct (Rle_dec x y); split; auto; discriminate. Qed.

Lemma Rleb_false (x y : R) : Rleb x y = false <-> ~ (x <= y)%R.
Proof. unfold Rleb. destruct (Rle_dec x y); split; auto; try discriminate. tauto. Qed.

(** The dictionary of [check_liveness] with the types of its values: on the
    verdict path [is_live] is a [numpy] boolean and [confidence], the
    smaller of [1.0] and a [numpy] float, is the [numpy] float when that
    is below 1. *)
Definition liveness_dict (r : liveness_result) : pyval :=
  match quality_variance r, brightness_variance r, liveness_confidence r with
  | Some qv, Some bv, Some c =>
      Py_dict [("is_live", Np_bool_ (is_live r));
               ("quality_variance", Py_float qv);
               ("brightness_variance", Py_float bv);
               ("confidence", if Num.Rltb c 1 then Np_floating c else Py_float 1)]
  | _, _, _ =>
      Py_dict [("is_live", Py_bool (is_live r));
               ("reason", Py_str match reason r with Some why => why | None => "" end)]
  end%string.

(** [md5] of the standard library, with the size of its digest. *)
Class HashLib := {
  md5 : list byte -> list byte;
  md5_digest_size : forall m, length (md5 m) = 16%nat
}.

(** [ndarray.astype(np.float32)] on one element: the pattern of the nearest
    [float32]. *)
Class CastLib := {
  astype_float32 : R -> float32;
  astype_float32_pattern : forall x, is_float32 (astype_float32 x)
}.

Definition hex_digit (n : N) : ascii :=
  match String.get (N.to_nat n) "0123456789abcdef" with
  | Some c => c
  | None => "0"%char
  end.

(** [digest.hex()]: two lower-case digits a byte. *)
Fixpoint hexdigest (digest : list byte) : string :=
  match digest with
  | [] => EmptyString
  | b :: rest =>
      String (hex_digit (N.shiftr (Byte.to_N b) 4))
        (String (hex_digit (N.land (Byte.to_N b) 15)) (hexdigest rest))
  end.

Section Handlers.

Context {crypto : CryptoLib} {vision : VisionLib} {hash : HashLib} {cast : CastLib}.

(** The environment's [BIOMETRIC_KEY], and the engine the module builds
    from it. *)
Variable BIOMETRIC_KEY : option string.

Definition bio_engine : IrisBiometricEngine := __init__ None BIOMETRIC_KEY.

Local Open Scope string_scope.
Local Open Scope handler_scope.

(** [template_data] with its array as [encrypt_template] serialises it. *)
Definition as_float32 (data : template_data R) : template_data float32 :=
  {| template := map astype_float32 (template data);
     quality_score := quality_score data;
     num_frames := num_frames data |}.

Definition enroll_user (new_id : string) (random_bytes : list byte)
  (name account_number email : string) (consent : bool) (frames : list string)
  : handler pyval :=
  if negb consent then raise_http 400 "Biometric consent required"
  else
    existing <- users_find_one account_number ;;
    match existing with
    | Some _ => raise_http 400 "Account already enrolled"
    | None =>
        if Nat.ltb (length frames) 3 then raise_http 400 "Minimum 3 frames required"
        else
          let liveness_result := check_liveness (map FrameText frames) in
          if negb (is_live liveness_result) then
            log_audit "enrollment_failed" (Some account_number) None false
              (Py_dict [("reason", Py_str "Liveness check failed");
                        ("liveness", liveness_dict liveness_result)]) ;;
            raise_http 400
              ("Liveness check failed: " ++
               match reason liveness_result with
               | Some why => why
               | None => "Unknown"
               end)
          else
            match create_template (map FrameText frames) with
            | None =>
                log_audit "enrollment_failed" (Some account_number) None false
                  (Py_dict [("reason", Py_str "Failed to create template")]) ;;
                raise_http 400 "Failed to create biometric template"
            | Some template_data =>
                match encrypt_template bio_engine random_bytes
                        (as_float32 template_data) with
                | None => raise_http 500 "Encryption failed"
                | Some encrypted_template =>
                    let user :=
                      {| user_id := new_id;
                         user_name := name;
                         user_account_number := account_number;
                         user_email := email;
                         user_balance := 10000.0 |} in
                    users_insert_one user ;;
                    biometrics_insert_one
                      {| template_user_id := user_id user;
                         template_account_number := account_number;
                         template_blob := encrypted_template;
                         template_meta :=
                           Py_dict
                             [("quality_score", Py_float (quality_score template_data));
                              ("num_frames",
                               Py_int (Z.of_nat (num_frames template_data)));
                              ("algorithm", Py_str "iris_classical_cv");
                              ("liveness_confidence",
                               match dict_get "confidence"
                                       (liveness_dict liveness_result) with
                               | Some c => c
                               | None => Py_int 0
                               end)] |} ;;
                    log_audit "enrollment_success" (Some account_number)
                      (Some (user_id user)) true
                      (Py_dict
                         [("quality_score", Py_float (quality_score template_data));
                          ("liveness", liveness_dict liveness_result)]) ;;
                    ret (Py_dict
                           [("success", Py_bool true);
                            ("enrollment_id", Py_str (user_id user));
                            ("account_number", Py_str account_number);
                            ("quality_score",
                             Py_float (quality_score template_data));
                            ("message", Py_str "Enrollment successful")])
                end
            end
    end.

Definition verify_failed (confidence : R) (why : string) : pyval :=
  Py_dict [("success", Py_bool false);
           ("match", Py_bool false);
           ("confidence", Py_float confidence);
           ("reason", Py_str why)].

Definition verify_user (account_number : string) (frames : list string)
  : handler pyval :=
  user <- users_find_one account_number ;;
  match user with
  | None =>
      log_audit "verification_failed" (Some account_number) None false
        (Py_dict [("reason", Py_str "Account not found")]) ;;
      raise_http 404 "Account not found"
  | Some user =>
      bio_template <- biometrics_find_one account_number ;;
      match bio_template with
      | None => raise_http 404 "Biometric template not found"
      | Some bio_template =>
          if Nat.ltb (length frames) 2 then raise_http 400 "Minimum 2 frames required"
          else
            let liveness_result := check_liveness (map FrameText frames) in
            if negb (is_live liveness_result) then
              log_audit "verification_failed" (Some account_number)
                (Some (user_id user)) false
                (Py_dict [("reason", Py_str "Liveness check failed");
                          ("liveness", liveness_dict liveness_result)]) ;;
              ret (verify_failed 0.0 "Liveness check failed")
            else
              match create_template (map FrameText frames) with
              | None =>
                  log_audit "verification_failed" (Some account_number)
                    (Some (user_id user)) false
                    (Py_dict
                       [("reason", Py_str "Failed to create verification template")]) ;;
                  ret (verify_failed 0.0 "Failed to process frames")
              | Some verify_template_data =>
                  let match_result :=
                    match_templates bio_engine
                      (Encrypted (template_blob bio_template))
                      (Array (template verify_template_data))
                      default_threshold in
                  log_audit
                    (if is_match match_result then "verification_success"
                     else "verification_failed")
                    (Some account_number) (Some (user_id user))
                    (is_match match_result)
                    (Py_dict
                       [("confidence", Py_float (confidence match_result));
                        ("match", Py_bool (is_match match_result));
                        ("liveness", liveness_dict liveness_result)]) ;;
                  if is_match match_result then
                    ret (Py_dict
                           [("success", Py_bool true);
                            ("match", Py_bool true);
                            ("confidence", Py_float (confidence match_result));
                            ("user_id", Py_str (user_id user));
                            ("name", Py_str (user_name user));
                            ("account_number", Py_str (user_account_number user))])
                  else
                    ret (verify_failed (confidence match_result)
                           "Biometric match failed")
              end
      end
  end.

Definition get_balance (account_number : string) : handler pyval :=
  user <- users_find_one account_number ;;
  match user with
  | None => raise_http 404 "Account not found"
  | Some user =>
      ret (Py_dict [("account_number", Py_str account_number);
                    ("balance", Py_float (user_balance user));
                    ("name", Py_str (user_name user))])
  end.

Definition create_transaction (new_id : string) (account_number type : string)
  (amount : R) : handler pyval :=
  user <- users_find_one account_number ;;
  match user with
  | None => raise_http 404 "Account not found"
  | Some user =>
      let current_balance := user_balance user in
      new_balance <-
        (if String.eqb type "withdraw" then
           if Rleb amount 0 then raise_http 400 "Invalid amount"
           else if Num.Rltb current_balance amount
                then raise_http 400 "Insufficient funds"
                else ret (current_balance - amount)%R
         else if String.eqb type "deposit" then
           if Rleb amount 0 then raise_http 400 "Invalid amount"
           else ret (current_balance + amount)%R
         else if String.eqb type "check" then ret current_balance
         else raise_http 400 "Invalid transaction type") ;;
      users_update_one account_number new_balance ;;
      transactions_insert_one
        {| transaction_id := new_id;
           transaction_user_id := user_id user;
           transaction_account_number := account_number;
           transaction_type := type;
           transaction_amount := amount;
           balance_after := new_balance |} ;;
      log_audit ("transaction_" ++ type) (Some account_number) (Some (user_id user))
        true
        (Py_dict [("amount", Py_float amount); ("balance", Py_float new_balance)]) ;;
      ret (Py_dict [("success", Py_bool true);
                    ("transaction_id", Py_str new_id);
                    ("type", Py_str type);
                    ("amount", Py_float amount);
                    ("balance", Py_float new_balance)])
  end.

(** [hashlib.md5(account_number.encode()).hexdigest()[:6]]. *)
Definition expected_pin (account_number : string) : string :=
  substring 0 6 (hexdigest (md5 (str_encode account_number))).

Definition fallback_verify (account_number fingerprint_pin : string)
  : handler pyval :=
  user <- users_find_one account_number ;;
  match user with
  | None => raise_http 404 "Account not found"
  | Some user =>
      if String.eqb fingerprint_pin (expected_pin account_number) then
        log_audit "fallback_verification_success" (Some account_number)
          (Some (user_id user)) true
          (Py_dict [("method", Py_str "fingerprint_pin")]) ;;
        ret (Py_dict [("success", Py_bool true);
                      ("match", Py_bool true);
                      ("user_id", Py_str (user_id user));
                      ("name", Py_str (user_name user));
                      ("method", Py_str "fallback_fingerprint")])
      else
        log_audit "fallback_verification_failed" (Some account_number)
          (Some (user_id user)) false
          (Py_dict [("method", Py_str "fingerprint_pin");
                    ("reason", Py_str "Invalid PIN")]) ;;
        ret (Py_dict [("success", Py_bool false);
                      ("match", Py_bool false);
                      ("reason", Py_str "Invalid fingerprint PIN")])
  end.

Definition get_fallback_pin (account_number : string) : pyval :=
  let pin := expected_pin account_number in
  Py_dict [("account_number", Py_str account_number); ("demo_pin", Py_str pin)].

End Handlers.

(** ** What [convert_numpy_types] converts *)

Lemma tolist_native (a : ndarray) : native (tolist a) = true.
Proof.
  induction a as [b|z|x|l IH] using ndarray_induction; try reflexivity.
  cbn [tolist native]. induction IH as [|a l Ha _ IHl]; [reflexivity|].
  cbn [map forallb]. now rewrite Ha, IHl.
Qed.

Lemma convert_tolist (a : ndarray) : convert_numpy_types (tolist a) = tolist a.
Proof.
  induction a as [b|z|x|l IH] using ndarray_induction; try reflexivity.
  cbn [tolist convert_numpy_types]. f_equal.
  induction IH as [|a l Ha _ IHl]; [reflexivity|].
  cbn [map]. now rewrite Ha, IHl.
Qed.

Lemma convert_numpy_types_native_eq (obj : pyval) :
  native (convert_numpy_types obj) = convertible obj.
Proof.
  induction obj as [| | | | |l IH|l _|items IH| | | | |a] using pyval_induction;
    try reflexivity.
  - cbn [convert_numpy_types native convertible].
    induction IH as [|v l Hv _ IHl]; [reflexivity|].
    cbn [map forallb]. now rewrite Hv, IHl.
  - cbn [convert_numpy_types native convertible].
    induction IH as [|[k v] items Hv _ IHl]; [reflexivity|].
    cbn [map forallb snd] in *. now rewrite Hv, IHl.
  - apply tolist_native.
Qed.

(** The result is free of [numpy] values exactly when every [numpy] value
    of the argument is a boolean, integer or floating scalar or an array
    and lies under dictionaries and lists only: tuples are returned as they
    are, and so are [numpy] scalars of other kinds. *)
Theorem convert_numpy_types_native (obj : pyval) :
  native (convert_numpy_types obj) = convertible obj.
Proof.
  induction obj as [| | | | |l IH|l _|items IH| | | | |a] using pyval_induction;
    try reflexivity.
  - cbn [convert_numpy_types native convertible].
    induction IH as [|v l Hv _ IHl]; [reflexivity|].
    cbn [map forallb]. now rewrite Hv, IHl.
  - cbn [convert_numpy_types native convertible].
    induction IH as [|[k v] items Hv _ IHl]; [reflexivity|].
    cbn [map forallb snd] in *. now rewrite Hv, IHl.
  - apply tolist_native.
Qed.

(** Converting twice is converting once. *)
Theorem convert_numpy_types_idempotent (obj : pyval) :
  convert_numpy_types (convert_numpy_types obj) = convert_numpy_types obj.
Proof.
  induction obj as [| | | | |l IH|l _|items IH| | | | |a] using pyval_induction;
    try reflexivity.
  - cbn [convert_numpy_types]. f_equal.
    induction IH as [|v l Hv _ IHl]; [reflexivity|].
    cbn [map]. now rewrite Hv, IHl.
  - cbn [convert_numpy_types]. f_equal.
    induction IH as [|[k v] items Hv _ IHl]; [reflexivity|].
    cbn [map snd] in *. now rewrite Hv, IHl.
  - apply convert_tolist.
Qed.

(** ** Collections *)

Definition total_balance (collection : list User) : R :=
  Num.sum (map user_balance collection).




Lemma find_one_app_old {D} (f : D -> string) (l : list D) (a : string) (x d : D) :
  find_one f l a = Some x -> find_one f (l ++ [d]) a = Some x.
Proof.
  unfold find_one. induction l as [|y l IH]; cbn [app find]; [discriminate|].
  destruct (String.eqb (f y) a); [trivial|]. apply IH.
Qed.


Lemma update_one_found (a : string) (b : R) (l : list User) (u : User) :
  find_one user_account_number l a = Some u ->
  find_one user_account_number (update_one a b l) a =
  Some {| user_id := user_id u; user_name := user_name u;
          user_account_number := user_account_number u;
          user_email := user_email u; user_balance := b |} /\
  total_balance (update_one a b l) = (total_balance l - user_balance u + b)%R.
Proof.
  unfold find_one, total_balance.
  induction l as [|x l IH]; cbn [find update_one]; [discriminate|].
  destruct (String.eqb (user_account_number x) a) eqn:E.
  - intros H. injection H as <-. cbn [find user_account_number map user_balance].
    rewrite E, !sum_cons. split; [reflexivity | lra].
  - intros H. cbn [find map]. rewrite E, !sum_cons.
    destruct (IH H) as [-> ->]. split; [reflexivity | lra].
Qed.


Section HandlerProperties.

Context {crypto : CryptoLib} {vision : VisionLib} {hash : HashLib} {cast : CastLib}.

Variable BIOMETRIC_KEY : option string.

Local Open Scope string_scope.

(** *** Transactions *)

(** The outcomes of [create_transaction] on an account that exists. *)
Lemma create_transaction_found (new_id account_number type : string) (amount : R)
  (db : database) (user : User) :
  find_one user_account_number (users db) account_number = Some user ->
  let current_balance := user_balance user in
  let accepted (new_balance : R) :=
    (Returned (Py_dict [("success", Py_bool true);
                        ("transaction_id", Py_str new_id);
                        ("type", Py_str type);
                        ("amount", Py_float amount);
                        ("balance", Py_float new_balance)]),
     {| users := update_one account_number new_balance (users db);
        biometrics := biometrics db;
        audit_logs :=
          audit_logs db ++
          [{| audit_user_id := Some (user_id user);
              audit_account_number := Some account_number;
              event_type := "transaction_" ++ type;
              device_info := "webcam";
              audit_success := true;
              details := Py_dict [("amount", Py_float amount);
                                  ("balance", Py_float new_balance)] |}];
        transactions :=
          transactions db ++
          [{| transaction_id := new_id;
              transaction_user_id := user_id user;
              transaction_account_number := account_number;
              transaction_type := type;
              transaction_amount := amount;
              balance_after := new_balance |}] |}) in
  create_transaction new_id account_number type amount db =
  if String.eqb type "withdraw" then
    if Rleb amount 0 then (HTTPException 400 "Invalid amount", db)
    else if Num.Rltb current_balance amount
         then (HTTPException 400 "Insufficient funds", db)
         else accepted (current_balance - amount)%R
  else if String.eqb type "deposit" then
    if Rleb amount 0 then (HTTPException 400 "Invalid amount", db)
    else accepted (current_balance + amount)%R
  else if String.eqb type "check" then accepted current_balance
  else (HTTPException 400 "Invalid transaction type", db).
Proof.
  intros Hf. cbv zeta.
  unfold create_transaction, handler_bind, users_find_one. rewrite Hf.
  destruct (String.eqb type "withdraw");
    [destruct (Rleb amount 0); [reflexivity|];
     destruct (Num.Rltb (user_balance user) amount); reflexivity|].
  destruct (String.eqb type "deposit");
    [destruct (Rleb amount 0); reflexivity|].
  destruct (String.eqb type "check"); reflexivity.
Qed.

Lemma create_transaction_not_found (new_id account_number type : string)
  (amount : R) (db : database) :
  find_one user_account_number (users db) account_number = None ->
  create_transaction new_id account_number type amount db =
  (HTTPException 404 "Account not found", db).
Proof.
  intros Hf. unfold create_transaction, handler_bind, users_find_one.
  now rewrite Hf.
Qed.


(** A rejected transaction request writes nothing, not even an audit
    record; the status is 404 or 400. *)
Theorem create_transaction_rejected (new_id account_number type : string)
  (amount : R) (db db' : database) (status_code : nat) (detail : string) :
  create_transaction new_id account_number type amount db
  = (HTTPException status_code detail, db') ->
  db' = db /\ (status_code = 404%nat \/ status_code = 400%nat).
Proof.
  destruct (find_one user_account_number (users db) account_number) as [user|] eqn:Hf.
  - rewrite (create_transaction_found _ _ _ _ _ user Hf). cbv zeta.
    repeat match goal with
           | |- context [if ?c then _ else _] => destruct c
           end;
      intros H; inversion H; auto.
  - rewrite (create_transaction_not_found _ _ _ _ _ Hf).
    intros H; inversion H; auto.
Qed.



(** After an accepted transaction [get_balance] returns the balance the
    transaction reported. *)
Theorem create_transaction_then_get_balance (new_id account_number type : string)
  (amount : R) (db db' : database) (body : pyval) :
  create_transaction new_id account_number type amount db = (Returned body, db') ->
  exists (new_balance : R) (name : string),
    dict_get "balance" body = Some (Py_float new_balance) /\
    get_balance account_number db' =
    (Returned (Py_dict [("account_number", Py_str account_number);
                        ("balance", Py_float new_balance);
                        ("name", Py_str name)]),
     db').
Proof.
  destruct (find_one user_account_number (users db) account_number) as [user|] eqn:Hf.
  - rewrite (create_transaction_found _ _ _ _ _ user Hf). cbv zeta.
    repeat match goal with
           | |- context [if ?c then _ else _] => destruct c
           end;
      intros H; inversion H; subst; clear H;
      match goal with
      | |- context [update_one _ ?b _] =>
          exists b, (user_name user);
          destruct (update_one_found account_number b (users db) user Hf) as [Hu _]
      end;
      (split; [reflexivity|]);
      unfold get_balance, handler_bind, users_find_one; cbn [users];
      rewrite Hu; reflexivity.
  - rewrite (create_transaction_not_found _ _ _ _ _ Hf). discriminate.
Qed.

End HandlerProperties.

(** ** Properties of the biometric handlers *)

Definition audit_native (db : database) : Prop :=
  Forall (fun log => native (details log) = true) (audit_logs db).

(** Account numbers are unique in both collections, and every biometric
    document belongs to a user. *)
Definition accounts_unique (db : database) : Prop :=
  NoDup (map user_account_number (users db)) /\
  NoDup (map template_account_number (biometrics db)) /\
  incl (map template_account_number (biometrics db))
       (map user_account_number (users db)).

(** [db'] differs from [db] by at most [n] audit records. *)
Definition logs_only (n : nat) (db db' : database) : Prop :=
  users db' = users db /\
  biometrics db' = biometrics db /\
  transactions db' = transactions db /\
  exists logs, audit_logs db' = audit_logs db ++ logs /\ (length logs <= n)%nat.

Lemma logs_only_refl (n : nat) (db : database) : logs_only n db db.
Proof.
  repeat split. exists []. rewrite app_nil_r. split; [reflexivity | cbn; lia].
Qed.

Lemma logs_only_log_audit (event : string) (account user : option string)
  (success : bool) (d : pyval) (db : database) :
  logs_only 1 db (snd (log_audit event account user success d db)).
Proof.
  repeat split. cbn. eexists. split; [reflexivity | cbn; lia].
Qed.

Lemma log_audit_native (event : string) (account user : option string)
  (success : bool) (d : pyval) (db : database) :
  convertible d = true -> audit_native db ->
  audit_native (snd (log_audit event account user success d db)).
Proof.
  intros Hd Hdb. unfold audit_native. cbn [log_audit audit_logs_insert_one snd audit_logs].
  apply Forall_app. split; [assumption|]. constructor; [|constructor].
  cbn [details]. now rewrite convert_numpy_types_native_eq.
Qed.

Lemma liveness_dict_convertible (r : liveness_result) :
  convertible (liveness_dict r) = true.
Proof.
  unfold liveness_dict.
  destruct (quality_variance r), (brightness_variance r), (liveness_confidence r);
    try reflexivity.
  destruct (Num.Rltb _ _); reflexivity.
Qed.

Lemma substring_length (n : nat) (s : string) :
  (n <= String.length s)%nat -> String.length (substring 0 n s) = n.
Proof.
  revert s. induction n as [|n IH]; intros s H.
  - destruct s; reflexivity.
  - destruct s as [|c s]; [cbn in H; lia|].
    cbn [substring String.length] in *. f_equal. apply IH. lia.
Qed.

Lemma hexdigest_length (d : list byte) :
  String.length (hexdigest d) = (2 * length d)%nat.
Proof.
  induction d as [|b d IH]; [reflexivity|].
  cbn [hexdigest String.length length]. rewrite IH. lia.
Qed.

Section BiometricHandlers.

Context {crypto : CryptoLib} {vision : VisionLib} {hash : HashLib} {cast : CastLib}.

Variable BIOMETRIC_KEY : option string.

Local Open Scope string_scope.


(** *** Verification *)

Definition verified (user : User) (confidence : R) : pyval :=
  Py_dict [("success", Py_bool true);
           ("match", Py_bool true);
           ("confidence", Py_float confidence);
           ("user_id", Py_str (user_id user));
           ("name", Py_str (user_name user));
           ("account_number", Py_str (user_account_number user))].

(** The outcomes of [verify_user]. *)
Lemma verify_user_run (account_number : string) (frames : list string)
  (db : database) :
  exists db',
    logs_only 1 db db' /\
    (audit_native db -> audit_native db') /\
    (verify_user BIOMETRIC_KEY account_number frames db =
       (HTTPException 404 "Account not found", db') /\
     find_one user_account_number (users db) account_number = None
     \/
     verify_user BIOMETRIC_KEY account_number frames db =
       (HTTPException 404 "Biometric template not found", db') /\
     find_one template_account_number (biometrics db) account_number = None
     \/
     exists user bio_template,
       find_one user_account_number (users db) account_number = Some user /\
       find_one template_account_number (biometrics db) account_number
       = Some bio_template /\
       ((length frames < 2)%nat /\
        verify_user BIOMETRIC_KEY account_number frames db =
          (HTTPException 400 "Minimum 2 frames required", db')
        \/
        (2 <= length frames)%nat /\
        is_live (check_liveness (map FrameText frames)) = false /\
        verify_user BIOMETRIC_KEY account_number frames db =
          (Returned (verify_failed 0.0 "Liveness check failed"), db')
        \/
        is_live (check_liveness (map FrameText frames)) = true /\
        create_template (map FrameText frames) = None /\
        verify_user BIOMETRIC_KEY account_number frames db =
          (Returned (verify_failed 0.0 "Failed to process frames"), db')
        \/
        exists T,
          is_live (check_liveness (map FrameText frames)) = true /\
          create_template (map FrameText frames) = Some T /\
          let match_result :=
            match_templates (bio_engine BIOMETRIC_KEY)
              (Encrypted (template_blob bio_template)) (Array (template T))
              default_threshold in
          verify_user BIOMETRIC_KEY account_number frames db =
            (Returned (if is_match match_result
                       then verified user (confidence match_result)
                       else verify_failed (confidence match_result)
                              "Biometric match failed"),
             db'))).
Proof.
  unfold verify_user, handler_bind, users_find_one, biometrics_find_one.
  destruct (find_one user_account_number (users db) account_number)
    as [user|] eqn:Hu.
  2:{ eexists. split; [|split].
      3:{ left. split; reflexivity. }
      - apply logs_only_log_audit.
      - now apply log_audit_native. }
  destruct (find_one template_account_number (biometrics db) account_number)
    as [bio|] eqn:Hb.
  2:{ exists db. split; [apply logs_only_refl|]. split; [trivial|].
      right; left. split; reflexivity. }
  destruct (Nat.ltb_spec (length frames) 2) as [Hlt|Hge].
  { exists db. split; [apply logs_only_refl|]. split; [trivial|].
    right; right. exists user, bio. do 2 (split; [reflexivity|]).
    left. split; [assumption | reflexivity]. }
  cbv zeta.
  destruct (is_live (check_liveness (map FrameText frames))) eqn:Hlive;
    cbn [negb].
  2:{ eexists. split; [|split].
      3:{ right; right. exists user, bio. do 2 (split; [reflexivity|]).
          right; left. split; [assumption|]. split; reflexivity. }
      - apply logs_only_log_audit.
      - apply log_audit_native. cbn. now rewrite liveness_dict_convertible. }
  destruct (create_template (map FrameText frames)) as [T|] eqn:HT.
  2:{ eexists. split; [|split].
      3:{ right; right. exists user, bio. do 2 (split; [reflexivity|]).
          right; right; left. repeat split; reflexivity. }
      - apply logs_only_log_audit.
      - now apply log_audit_native. }
  set (r := match_templates (bio_engine BIOMETRIC_KEY)
              (Encrypted (template_blob bio)) (Array (template T))
              default_threshold).
  exists (snd (log_audit
                 (if is_match r then "verification_success"
                  else "verification_failed")
                 (Some account_number) (Some (user_id user)) (is_match r)
                 (Py_dict [("confidence", Py_float (confidence r));
                           ("match", Py_bool (is_match r));
                           ("liveness",
                            liveness_dict (check_liveness (map FrameText frames)))])
                 db)).
  split; [apply logs_only_log_audit|]. split.
  - apply log_audit_native. cbn. now rewrite liveness_dict_convertible.
  - right; right. exists user, bio. do 2 (split; [reflexivity|]).
    right; right; right. exists T. do 2 (split; [reflexivity|]).
    cbv zeta. fold r. unfold verified. destruct (is_match r); reflexivity.
Qed.

(** [verify_user] changes no user, no biometric template and no
    transaction; it writes at most one audit record. *)
Theorem verify_user_read_only (account_number : string) (frames : list string)
  (db : database) :
  logs_only 1 db (snd (verify_user BIOMETRIC_KEY account_number frames db)).
Proof.
  destruct (verify_user_run account_number frames db)
    as (db' & Hlogs & _ &
        [[-> _]|[[-> _]|(user & bio & _ & _ &
           [[_ ->]|[(_ & _ & ->)|[(_ & _ & ->)|(T & _ & _ & ->)]]])]]);
    exact Hlogs.
Qed.

Lemma is_live_frames (frames : list frame) :
  is_live (check_liveness frames) = true -> (3 <= length frames)%nat.
Proof.
  rewrite check_liveness_unfold.
  destruct (Nat.ltb_spec (length frames) 3) as [Hlt|Hge]; [discriminate | trivial].
Qed.

(** A verification succeeds only with three frames or more, a live batch,
    a stored template that decrypts, and a normalised distance below
    0.15. *)
Theorem verify_user_success (account_number : string) (frames : list string)
  (db db' : database) (body : pyval) :
  verify_user BIOMETRIC_KEY account_number frames db = (Returned body, db') ->
  dict_get "success" body = Some (Py_bool true) ->
  (3 <= length frames)%nat /\
  is_live (check_liveness (map FrameText frames)) = true /\
  exists user bio_template T stored,
    find_one user_account_number (users db) account_number = Some user /\
    find_one template_account_number (biometrics db) account_number
    = Some bio_template /\
    create_template (map FrameText frames) = Some T /\
    decrypt_template (bio_engine BIOMETRIC_KEY) (template_blob bio_template)
    = Some stored /\
    (normalized_distance (map f32_value stored) (template T) < 0.15)%R /\
    dict_get "user_id" body = Some (Py_str (user_id user)).
Proof.
  intros Hrun Hok.
  destruct (verify_user_run account_number frames db)
    as (db1 & _ & _ &
        [[E _]|[[E _]|(user & bio & Hu & Hb &
           [[_ E]|[(_ & _ & E)|[(_ & _ & E)|(T & Hlive & HT & E)]]])]]);
    rewrite E in Hrun; try discriminate;
    injection Hrun as <- <-; try discriminate.
  cbv zeta in Hok.
  set (r := match_templates (bio_engine BIOMETRIC_KEY)
              (Encrypted (template_blob bio)) (Array (template T))
              default_threshold) in *.
  destruct (is_match r) eqn:Hm; [|discriminate].
  split; [apply is_live_frames in Hlive; now rewrite length_map in Hlive|].
  split; [assumption|].
  destruct (match_templates_cases (bio_engine BIOMETRIC_KEY)
              (Encrypted (template_blob bio)) (Array (template T)))
    as [Hfail|(a & b & H1 & H2 & Hl)].
  - destruct (match_templates_failure _ _ _ default_threshold Hfail)
      as (why & Er & _).
    fold r in Er. rewrite Er in Hm. discriminate.
  - cbn [decrypt_if_needed] in H1, H2. injection H2 as <-.
    destruct (decrypt_template (bio_engine BIOMETRIC_KEY) (template_blob bio))
      as [stored|] eqn:Hd; [|discriminate].
    cbn [option_map] in H1. injection H1 as <-.
    exists user, bio, T, stored. do 4 (split; [assumption || reflexivity|]).
    split; [|reflexivity].
    unfold r in Hm.
    rewrite (match_templates_scoring _ _ _ (map f32_value stored) (template T))
      in Hm; [| cbn [decrypt_if_needed]; now rewrite Hd | reflexivity | assumption].
    cbn [is_match] in Hm. now apply Num.Rltb_true in Hm.
Qed.

(** Two frames pass the check on the number of frames and are then always
    turned down by the liveness check. *)
Theorem verify_user_two_frames (account_number : string) (frames : list string)
  (db : database) :
  length frames = 2%nat ->
  find_one user_account_number (users db) account_number <> None ->
  find_one template_account_number (biometrics db) account_number <> None ->
  fst (verify_user BIOMETRIC_KEY account_number frames db)
  = Returned (verify_failed 0.0 "Liveness check failed").
Proof.
  intros Hlen Hu Hb.
  assert (Hn : is_live (check_liveness (map FrameText frames)) = false).
  { destruct (is_live _) eqn:E; [|reflexivity].
    apply is_live_frames in E. rewrite length_map in E. lia. }
  destruct (verify_user_run account_number frames db)
    as (db1 & _ & _ &
        [[_ E]|[[_ E]|(user & bio & _ & _ &
           [[E _]|[(_ & _ & E)|[(E & _)|(T & E & _)]]])]]);
    try congruence; try lia.
  now rewrite E.
Qed.

(** *** Enrolment *)

Definition enrolled (new_id account_number : string) (quality : R) : pyval :=
  Py_dict [("success", Py_bool true);
           ("enrollment_id", Py_str new_id);
           ("account_number", Py_str account_number);
           ("quality_score", Py_float quality);
           ("message", Py_str "Enrollment successful")].

(** The outcomes of [enroll_user]: a rejection, with at most one audit
    record written, or an enrolment. *)
Lemma enroll_user_run (new_id : string) (random_bytes : list byte)
  (name account_number email : string) (consent : bool) (frames : list string)
  (db : database) :
  (exists status_code detail db',
     enroll_user BIOMETRIC_KEY new_id random_bytes name account_number email
       consent frames db = (HTTPException status_code detail, db') /\
     logs_only 1 db db' /\
     (audit_native db -> audit_native db') /\
     (consent = false \/
      find_one user_account_number (users db) account_number <> None \/
      (length frames < 3)%nat \/
      is_live (check_liveness (map FrameText frames)) = false \/
      create_template (map FrameText frames) = None \/
      length random_bytes <> 16%nat))
  \/
  (exists T encrypted_template meta log,
     consent = true /\
     find_one user_account_number (users db) account_number = None /\
     (3 <= length frames)%nat /\
     is_live (check_liveness (map FrameText frames)) = true /\
     create_template (map FrameText frames) = Some T /\
     encrypt_template (bio_engine BIOMETRIC_KEY) random_bytes (as_float32 T)
     = Some encrypted_template /\
     native (details log) = true /\
     enroll_user BIOMETRIC_KEY new_id random_bytes name account_number email
       consent frames db =
     (Returned (enrolled new_id account_number (quality_score T)),
      {| users :=
           users db ++
           [{| user_id := new_id;
               user_name := name;
               user_account_number := account_number;
               user_email := email;
               user_balance := 10000.0 |}];
         biometrics :=
           biometrics db ++
           [{| template_user_id := new_id;
               template_account_number := account_number;
               template_blob := encrypted_template;
               template_meta := meta |}];
         audit_logs := audit_logs db ++ [log];
         transactions := transactions db |})).
Proof.
  unfold enroll_user, handler_bind, users_find_one.
  destruct consent; cbn [negb].
  2:{ left. exists 400%nat, "Biometric consent required", db.
      split; [reflexivity|]. split; [apply logs_only_refl|]. split; auto. }
  destruct (find_one user_account_number (users db) account_number)
    as [user|] eqn:Hu.
  { left. exists 400%nat, "Account already enrolled", db.
    split; [reflexivity|]. split; [apply logs_only_refl|]. split; [auto|].
    right; left. discriminate. }
  destruct (Nat.ltb_spec (length frames) 3) as [Hlt|Hge].
  { left. exists 400%nat, "Minimum 3 frames required", db.
    split; [reflexivity|]. split; [apply logs_only_refl|]. split; auto. }
  cbv zeta.
  destruct (is_live (check_liveness (map FrameText frames))) eqn:Hlive;
    cbn [negb].
  2:{ left. do 3 eexists. split; [reflexivity|].
      split; [apply logs_only_log_audit|]. split; [|auto].
      apply log_audit_native. cbn. now rewrite liveness_dict_convertible. }
  destruct (create_template (map FrameText frames)) as [T|] eqn:HT.
  2:{ left. do 3 eexists. split; [reflexivity|].
      split; [apply logs_only_log_audit|]. split; [|auto 6].
      now apply log_audit_native. }
  destruct (encrypt_template (bio_engine BIOMETRIC_KEY) random_bytes (as_float32 T))
    as [encrypted_template|] eqn:He.
  2:{ left. exists 500%nat, "Encryption failed", db.
      split; [reflexivity|]. split; [apply logs_only_refl|]. split; [auto|].
      do 5 right. intros Hiv.
      rewrite (encrypt_template_envelope (bio_engine BIOMETRIC_KEY) _ _
                 (init_ok None BIOMETRIC_KEY) Hiv) in He.
      discriminate. }
  right. exists T, encrypted_template. do 2 eexists.
  do 6 (split; [reflexivity || assumption|]).
  split; [|reflexivity].
  cbn [details]. rewrite convert_numpy_types_native_eq.
  cbn. now rewrite liveness_dict_convertible.
Qed.

(** [enroll_user] either raises, leaving users, templates and transactions
    as they were, or reports success and has added one user with the
    opening balance and one template. *)
Theorem enroll_user_outcome (new_id : string) (random_bytes : list byte)
  (name account_number email : string) (consent : bool) (frames : list string)
  (db : database) :
  let '(result, db') :=
    enroll_user BIOMETRIC_KEY new_id random_bytes name account_number email
      consent frames db in
  match result with
  | HTTPException status_code _ =>
      logs_only 1 db db' /\ (status_code = 400%nat \/ status_code = 500%nat)
  | Returned body =>
      dict_get "success" body = Some (Py_bool true) /\
      (exists user, users db' = (users db ++ [user])%list /\
                    user_balance user = 10000%R /\
                    user_account_number user = account_number) /\
      length (biometrics db') = S (length (biometrics db)) /\
      transactions db' = transactions db
  end.
Proof.
  unfold enroll_user, handler_bind, users_find_one.
  destruct consent; cbn [negb];
    [|split; [apply logs_only_refl | now left]].
  destruct (find_one user_account_number (users db) account_number);
    [split; [apply logs_only_refl | now left]|].
  destruct (Nat.ltb (length frames) 3);
    [split; [apply logs_only_refl | now left]|].
  cbv zeta.
  destruct (is_live (check_liveness (map FrameText frames))); cbn [negb];
    [|split; [apply logs_only_log_audit | now left]].
  destruct (create_template (map FrameText frames)) as [T|];
    [|split; [apply logs_only_log_audit | now left]].
  destruct (encrypt_template (bio_engine BIOMETRIC_KEY) random_bytes (as_float32 T));
    [|split; [apply logs_only_refl | now right]].
  cbn. split; [reflexivity|]. split; [|split; [|reflexivity]].
  - eexists. split; [reflexivity|]. cbn. split; [lra | reflexivity].
  - rewrite length_app. cbn. lia.
Qed.



(** *** Audit records and the fallback *)

Lemma create_transaction_audit (new_id account_number type : string) (amount : R)
  (db : database) :
  audit_native db ->
  audit_native (snd (create_transaction new_id account_number type amount db)).
Proof.
  intros H.
  destruct (find_one user_account_number (users db) account_number) as [user|] eqn:Hf.
  - rewrite (create_transaction_found _ _ _ _ _ user Hf). cbv zeta.
    repeat match goal with
           | |- context [if ?c then _ else _] => destruct c
           end; try assumption;
      unfold audit_native; cbn [snd audit_logs];
      (apply Forall_app; split; [assumption|]); repeat constructor.
  - now rewrite (create_transaction_not_found _ _ _ _ _ Hf).
Qed.

Lemma fallback_verify_run (account_number fingerprint_pin : string) (db : database)
  (user : User) :
  find_one user_account_number (users db) account_number = Some user ->
  exists db',
    logs_only 1 db db' /\ (audit_native db -> audit_native db') /\
    fallback_verify account_number fingerprint_pin db =
    (Returned
       (if String.eqb fingerprint_pin (expected_pin account_number) then
          Py_dict [("success", Py_bool true);
                   ("match", Py_bool true);
                   ("user_id", Py_str (user_id user));
                   ("name", Py_str (user_name user));
                   ("method", Py_str "fallback_fingerprint")]
        else
          Py_dict [("success", Py_bool false);
                   ("match", Py_bool false);
                   ("reason", Py_str "Invalid fingerprint PIN")]),
     db').
Proof.
  intros Hf. unfold fallback_verify, handler_bind, users_find_one. rewrite Hf.
  destruct (String.eqb fingerprint_pin (expected_pin account_number));
    (eexists; split; [|split]; [| |reflexivity];
     [apply logs_only_log_audit | now apply log_audit_native]).
Qed.

(** Whatever the handlers are asked, the details of the audit records they
    write hold no [numpy] value. *)
Theorem handlers_audit_native (db : database) :
  audit_native db ->
  (forall new_id random_bytes name account_number email consent frames,
     audit_native
       (snd (enroll_user BIOMETRIC_KEY new_id random_bytes name account_number
               email consent frames db))) /\
  (forall account_number frames,
     audit_native (snd (verify_user BIOMETRIC_KEY account_number frames db))) /\
  (forall new_id account_number type amount,
     audit_native (snd (create_transaction new_id account_number type amount db))) /\
  (forall account_number fingerprint_pin,
     audit_native (snd (fallback_verify account_number fingerprint_pin db))).
Proof.
  intros H. split; [|split; [|split]].
  - intros new_id random_bytes name account_number email consent frames.
    destruct (enroll_user_run new_id random_bytes name account_number email
                consent frames db)
      as [(s & d & db' & -> & _ & Ha & _)
         |(T & blob & meta & log & _ & _ & _ & _ & _ & _ & Hlog & ->)].
    + now apply Ha.
    + unfold audit_native. cbn [snd audit_logs].
      apply Forall_app. split; [assumption|]. now repeat constructor.
  - intros account_number frames.
    destruct (verify_user_run account_number frames db)
      as (db' & _ & Ha &
          [[-> _]|[[-> _]|(user & bio & _ & _ &
             [[_ ->]|[(_ & _ & ->)|[(_ & _ & ->)|(T & _ & _ & ->)]]])]]);
      now apply Ha.
  - intros. now apply create_transaction_audit.
  - intros account_number fingerprint_pin.
    destruct (find_one user_account_number (users db) account_number)
      as [user|] eqn:Hf.
    + destruct (fallback_verify_run account_number fingerprint_pin db user Hf)
        as (db' & _ & Ha & ->). now apply Ha.
    + unfold fallback_verify, handler_bind, users_find_one. now rewrite Hf.
Qed.

(** The PIN [get_fallback_pin] hands out for an account number has six
    characters and passes [fallback_verify] for every enrolled account. *)
Theorem fallback_pin_opens (account_number : string) (db : database) (user : User) :
  find_one user_account_number (users db) account_number = Some user ->
  exists pin,
    get_fallback_pin account_number =
      Py_dict [("account_number", Py_str account_number); ("demo_pin", Py_str pin)] /\
    String.length pin = 6%nat /\
    fst (fallback_verify account_number pin db) =
    Returned (Py_dict [("success", Py_bool true);
                       ("match", Py_bool true);
                       ("user_id", Py_str (user_id user));
                       ("name", Py_str (user_name user));
                       ("method", Py_str "fallback_fingerprint")]).
Proof.
  intros Hf. exists (expected_pin account_number).
  split; [reflexivity|]. split.
  - unfold expected_pin. apply substring_length.
    rewrite hexdigest_length, md5_digest_size. lia.
  - destruct (fallback_verify_run account_number (expected_pin account_number)
                db user Hf) as (db' & _ & _ & ->).
    now rewrite String.eqb_refl.
Qed.

End BiometricHandlers.

(** ** The handlers on a concrete camera and a concrete bank *)

Lemma ravel_constant (img : image) (c : Z) :
  (forall i j, pixel img i j = c) -> ravel img = repeat c (size img).
Proof.
  intros H. unfold ravel, size.
  assert (Hrow : forall i m a, map (fun j => pixel img i j) (seq a m) = repeat c m).
  { intros i m. induction m as [|m IH]; intros a; [reflexivity|].
    cbn [seq map repeat]. now rewrite H, IH. }
  assert (Hall : forall n m a,
             flat_map (fun i => map (fun j => pixel img i j) (seq 0 m)) (seq a n)
             = repeat c (n * m)).
  { intros n m. induction n as [|n IH]; intros a; [reflexivity|].
    cbn [seq flat_map]. rewrite Hrow, IH, <- repeat_app. reflexivity. }
  apply Hall.
Qed.

Lemma var_pair (x : R) : Num.var [0; x]%R = (x * x / 4)%R.
Proof.
  unfold Num.var, Num.mean. cbn [map length Num.sum fold_right INR]. field.
Qed.

Lemma sum_squares_zeros (n : nat) : sum_squares (repeat 0%R n) = 0%R.
Proof.
  induction n as [|n IH]; [apply sum_nil|].
  cbn [repeat]. rewrite sum_squares_cons, IH. lra.
Qed.

Lemma dot_product_zeros (n : nat) (v : list R) : dot_product (repeat 0%R n) v = 0%R.
Proof.
  unfold dot_product. revert v. induction n as [|n IH]; intros v; [apply sum_nil|].
  destruct v as [|x v]; [apply sum_nil|].
  cbn [repeat combine map fst snd]. rewrite sum_cons, IH. lra.
Qed.

Lemma f32_value_zero : f32_value 0 = 0%R.
Proof. unfold f32_value. cbn. lra. Qed.

Section Acceptance.

Context {crypto : CryptoLib} {vision : VisionLib} {hash : HashLib} {cast : CastLib}.

Variable BIOMETRIC_KEY : option string.

Local Open Scope string_scope.

(** A stored template of 109 zeros is within the threshold of every
    template. *)
Lemma zero_template_matches (self : IrisBiometricEngine) (iv : list byte)
  (frames : list frame) (T : template_data R) :
  engine_ok self -> length iv = 16%nat ->
  create_template frames = Some T ->
  is_match (match_templates self
              (Encrypted (Base64.b64encode (envelope self iv (repeat 0 109))))
              (Array (template T)) default_threshold) = true.
Proof.
  intros Hs Hiv HT.
  destruct (template_mean_ball frames T HT) as [Hlen Hsq].
  assert (Hd : decrypt_if_needed self
                 (Encrypted (Base64.b64encode (envelope self iv (repeat 0 109))))
               = Some (repeat 0%R 109)).
  { cbn [decrypt_if_needed]. rewrite decrypt_envelope; try assumption.
    - cbn [option_map]. f_equal. rewrite map_repeat. now rewrite f32_value_zero.
    - apply Forall_forall. intros w Hw. apply repeat_spec in Hw. subst w.
      unfold is_float32. lia. }
  rewrite (match_templates_scoring self _ (Array (template T)) (repeat 0%R 109)
             (template T) _ Hd eq_refl)
    by now rewrite repeat_length.
  cbn [is_match]. apply Num.Rltb_true.
  apply normalized_distance_unit_ball.
  - apply repeat_length.
  - assumption.
  - rewrite norm_sqrt, sum_squares_zeros, sqrt_0. lra.
  - rewrite norm_sqrt.
    pose proof (Num.sum_squares_nonneg (template T)) as H0.
    fold (sum_squares (template T)) in H0.
    rewrite <- sqrt_1. apply sqrt_le_1_alt. lra.
  - rewrite dot_product_zeros. lra.
Qed.

(** A request that passes every check is verified. *)
Lemma verify_user_accepts (account_number : string) (frames : list string)
  (db : database) (user : User) (bio_template : BiometricTemplate)
  (T : template_data R) :
  find_one user_account_number (users db) account_number = Some user ->
  find_one template_account_number (biometrics db) account_number
  = Some bio_template ->
  is_live (check_liveness (map FrameText frames)) = true ->
  create_template (map FrameText frames) = Some T ->
  is_match (match_templates (bio_engine BIOMETRIC_KEY)
              (Encrypted (template_blob bio_template)) (Array (template T))
              default_threshold) = true ->
  exists confidence db',
    verify_user BIOMETRIC_KEY account_number frames db =
    (Returned (verified user confidence), db').
Proof.
  intros Hu Hb Hlive HT Hm.
  destruct (verify_user_run BIOMETRIC_KEY account_number frames db)
    as (db' & _ & _ &
        [[_ E]|[[_ E]|(user' & bio' & Hu' & Hb' &
           [[Hlt _]|[(_ & E & _)|[(_ & E & _)|(T' & _ & HT' & E)]]])]]);
    try congruence.
  - apply is_live_frames in Hlive. rewrite length_map in Hlive. lia.
  - cbv zeta in E.
    assert (user' = user) by congruence.
    assert (bio' = bio_template) by congruence.
    assert (T' = T) by congruence. subst.
    rewrite Hm in E. eauto.
Qed.


End Acceptance.

(** A camera whose frames hold one byte, the grey level of a flat image of
    8 by 8 pixels; region location falls back to the centre crop, resizing
    repeats the first pixel and the Laplacian has two entries, zero and a
    tenth of the first pixel. *)
Module ToyCamera.

Definition imdecode (buf : list byte) : exc (option color_image) :=
  match buf with
  | [] => Raise "(-215:Assertion failed) !buf.empty() in function 'imdecode_'"
  | b :: _ =>
      Ok (Some {| color_rows := 8; color_cols := 8;
                  channel := fun _ _ _ => Z_of_byte b |})
  end.

Definition HoughCircles (img : image) (method : Z) (dp minDist param1 param2 : Q)
  (minRadius maxRadius : Z) : exc (option (list circle)) := Ok None.

Definition resize (img : image) (dsize : nat * nat) : exc image :=
  let '(w, h) := dsize in
  Ok {| rows := h; cols := w; pixel := fun _ _ => pixel img 0 0 |}.

Definition Laplacian (img : image) : exc (list R) :=
  Ok [0%R; (IZR (pixel img 0 0) / 10)%R].

Lemma no_circle_accepts (img : image) (method : Z) (dp minDist p1 p2 : Q)
  (minR maxR : Z) :
  (0 < size img)%nat ->
  exists found, HoughCircles img method dp minDist p1 p2 minR maxR = Ok found.
Proof. intros _. now exists None. Qed.

Lemma no_circle_found (img : image) (method : Z) (dp minDist p1 p2 : Q)
  (minR maxR : Z) (circles : list circle) :
  HoughCircles img method dp minDist p1 p2 minR maxR = Ok (Some circles) ->
  circles <> [] /\
  Forall (fun c : circle =>
            let '(x, y, r) := c in
            (0 <= x)%Q /\ (x < inject_Z (Z.of_nat (cols img)))%Q /\
            (0 <= y)%Q /\ (y < inject_Z (Z.of_nat (rows img)))%Q /\
            (inject_Z minR <= r)%Q /\ (r <= inject_Z maxR)%Q) circles.
Proof. unfold HoughCircles. intros H. apply Ok_inj in H. discriminate. Qed.

Lemma flat_resize_accepts (img : image) (w h : nat) :
  (0 < size img)%nat -> (0 < w)%nat -> (0 < h)%nat ->
  exists out, resize img (w, h) = Ok out.
Proof. intros _ _ _. unfold resize. eauto. Qed.

Lemma flat_resize_shape (img : image) (w h : nat) (out : image) :
  resize img (w, h) = Ok out -> rows out = h /\ cols out = w.
Proof. unfold resize. intros H. apply Ok_inj in H. subst out. auto. Qed.

Definition lib : VisionLib :=
  Build_VisionLib imdecode ToyVision.cvtColor_BGR2GRAY ToyVision.CLAHE_apply
    ToyVision.fastNlMeansDenoising ToyVision.GaussianBlur HoughCircles resize
    ToyVision.local_binary_pattern ToyVision.hog ToyVision.gabor_filter2D
    Laplacian value_based
    ToyVision.GaussianBlur_accepts ToyVision.GaussianBlur_shape
    no_circle_accepts no_circle_found
    flat_resize_accepts flat_resize_shape
    ToyVision.local_binary_pattern_codes ToyVision.hog_length.

Definition md5 (m : list byte) : list byte := repeat Byte.x00 16.

Definition hash : HashLib := Build_HashLib md5 (fun m => repeat_length Byte.x00 16).

Lemma zero_pattern (x : R) : is_float32 0.
Proof. unfold is_float32. lia. Qed.

Definition cast : CastLib := Build_CastLib (fun _ => 0) zero_pattern.

(** The region located in a frame of grey level [c]. *)
Definition flat (c : Z) : image :=
  {| rows := 128; cols := 128; pixel := fun _ _ => c |}.

(** Three frames of grey levels 100, 120 and 140. *)
Definition frames : list string := ["ZA=="; "eA=="; "jA=="]%string.

(** One enrolled account whose stored template is 109 zeros, with a balance
    of 100. *)
Definition alice : User :=
  {| user_id := "u-1"; user_name := "Alice"; user_account_number := "ACC1";
     user_email := "alice@example.org"; user_balance := 100 |}.

Definition zero_blob : string :=
  Base64.b64encode
    (envelope (crypto := Toy.crypto) (bio_engine (crypto := Toy.crypto) None)
       Toy.iv (repeat 0 109)).

Definition bank : database :=
  {| users := [alice];
     biometrics := [{| template_user_id := "u-1";
                       template_account_number := "ACC1";
                       template_blob := zero_blob;
                       template_meta := Py_dict [] |}];
     audit_logs := [];
     transactions := [] |}.

Definition empty : database :=
  {| users := []; biometrics := []; audit_logs := []; transactions := [] |}.

End ToyCamera.

Module CameraRuns.

Local Abbreviation lib := ToyCamera.lib.
Local Abbreviation cast := ToyCamera.cast.
Local Abbreviation flat := ToyCamera.flat.
Local Abbreviation frames := ToyCamera.frames.
Local Abbreviation alice := ToyCamera.alice.
Local Abbreviation bank := ToyCamera.bank.
Local Abbreviation empty := ToyCamera.empty.
Local Abbreviation zero_blob := ToyCamera.zero_blob.

Lemma located_100 : located_region (vision := lib) (FrameText "ZA==") = Some (flat 100).
Proof. vm_compute. reflexivity. Qed.

Lemma located_120 : located_region (vision := lib) (FrameText "eA==") = Some (flat 120).
Proof. vm_compute. reflexivity. Qed.

Lemma located_140 : located_region (vision := lib) (FrameText "jA==") = Some (flat 140).
Proof. vm_compute. reflexivity. Qed.

Lemma located_frames :
  located_regions (vision := lib) (map FrameText frames)
  = [flat 100; flat 120; flat 140].
Proof.
  unfold located_regions, keep, frames. cbn [map flat_map].
  now rewrite located_100, located_120, located_140.
Qed.

Lemma intensities_flat (c : Z) :
  intensities (flat c) = repeat (IZR c) (size (flat c)).
Proof.
  unfold intensities. rewrite (ravel_constant (flat c) c) by reflexivity.
  apply map_repeat.
Qed.

Lemma size_flat (c : Z) : (0 < size (flat c))%nat.
Proof. unfold size. cbn [rows cols flat]. lia. Qed.

Lemma brightness_flat (c : Z) : Num.mean (intensities (flat c)) = IZR c.
Proof. rewrite intensities_flat. apply mean_repeat, size_flat. Qed.

Lemma quality_flat (c : Z) :
  _calculate_quality (vision := lib) (flat c)
  = Rmin 1 (IZR c * IZR c / 80000)%R.
Proof.
  unfold _calculate_quality.
  change (Laplacian (VisionLib := lib) (flat c))
    with (@Ok (list R) [0%R; (IZR c / 10)%R]).
  cbn [bind]. unfold Num.std.
  rewrite intensities_flat, var_repeat by apply size_flat.
  rewrite var_pair, sqrt_0. f_equal. field.
Qed.

Lemma live : is_live (check_liveness (vision := lib) (map FrameText frames)) = true.
Proof.
  apply check_liveness_verdict.
  - rewrite located_frames. cbn [length]. lia.
  - cbn [frames map length]. lia.
  - rewrite located_frames. cbn [map].
    rewrite !quality_flat, !brightness_flat.
    rewrite !Rmin_right by lra.
    unfold Num.var, Num.mean. cbn [map length Num.sum fold_right INR].
    split; lra.
Qed.

Lemma camera_features_some (img : image) :
  size img <> 0%nat ->
  exists v, extract_features (vision := lib) (Some img) = Some v.
Proof.
  intros Hs. unfold extract_features.
  destruct (Nat.eqb_spec (size img) 0) as [|_]; [contradiction|].
  unfold concatenated_features, intensity_statistics.
  change (local_binary_pattern (VisionLib := lib) img 8 1)
    with (ToyVision.local_binary_pattern img 8 1).
  change (hog (VisionLib := lib) img 8 (16, 16)%nat (1, 1)%nat)
    with (ToyVision.hog img 8 (16, 16)%nat (1, 1)%nat).
  unfold ToyVision.local_binary_pattern, ToyVision.hog. cbn [bind].
  change (gabor_features (vision := lib) img (seq 0 4))
    with (@Ok (list R)
            [Num.mean (intensities img); Num.std (intensities img);
             Num.mean (intensities img); Num.std (intensities img);
             Num.mean (intensities img); Num.std (intensities img);
             Num.mean (intensities img); Num.std (intensities img)]).
  cbn [bind].
  pose proof (ToyVision.ravel_length img) as Hl.
  destruct (ravel img) as [|x t] eqn:E; [cbn [length] in Hl; congruence|].
  cbn [np_min np_max bind]. eauto.
Qed.

Lemma template_of_frames :
  exists T, create_template (vision := lib) (map FrameText frames) = Some T.
Proof.
  pose proof (create_template_survivors (vision := lib) (map FrameText frames)) as H.
  destruct (camera_features_some (flat 100)) as [v Hv];
    [pose proof (size_flat 100); lia|].
  assert (E : exists rest,
             surviving_frames (vision := lib) (map FrameText frames)
             = (v, _calculate_quality (vision := lib) (flat 100)) :: rest).
  { unfold surviving_frames, keep, frames. cbn [map flat_map].
    unfold surviving_frame at 1. rewrite located_100, Hv. cbn [app]. eauto. }
  destruct E as [rest E]. rewrite E in H. destruct H as (m & _ & H). eauto.
Qed.


Lemma empty_unique : accounts_unique empty.
Proof.
  unfold accounts_unique, empty. cbn.
  repeat split; try constructor. intros a [].
Qed.

Lemma overdraft_run :
  create_transaction "t-1" "ACC1" "withdraw" 500 bank
  = (HTTPException 400 "Insufficient funds", bank).
Proof.
  rewrite (create_transaction_found "t-1" "ACC1" "withdraw" 500 bank alice eq_refl).
  cbv zeta.
  change (String.eqb "withdraw" "withdraw") with true. cbv iota.
  replace (Rleb 500 0) with false by (symmetry; apply Rleb_false; lra).
  replace (Num.Rltb (user_balance alice) 500) with true
    by (symmetry; apply Num.Rltb_true; cbn; lra).
  reflexivity.
Qed.

Lemma deposit_run :
  exists body db',
    create_transaction "t-1" "ACC1" "deposit" 50 bank = (Returned body, db').
Proof.
  rewrite (create_transaction_found "t-1" "ACC1" "deposit" 50 bank alice eq_refl).
  cbv zeta.
  change (String.eqb "deposit" "withdraw") with false.
  change (String.eqb "deposit" "deposit") with true. cbv iota.
  replace (Rleb 50 0) with false
    by (symmetry; apply Rleb_false; lra).
  eauto.
Qed.

Lemma verify_run :
  exists confidence db',
    verify_user (crypto := Toy.crypto) (vision := lib) None "ACC1" frames bank =
    (Returned (verified alice confidence), db').
Proof.
  destruct template_of_frames as [T HT].
  apply (verify_user_accepts (crypto := Toy.crypto) (vision := lib) None
           "ACC1" frames bank alice _ T eq_refl eq_refl live HT).
  cbn [template_blob]. unfold zero_blob.
  apply (zero_template_matches (crypto := Toy.crypto) (vision := lib)
           (bio_engine (crypto := Toy.crypto) None) Toy.iv
           (map FrameText frames) T);
    [exact (init_ok (crypto := Toy.crypto) None None) | reflexivity | assumption].
Qed.


End CameraRuns.


(** Two arrays with a single 1 each, at different places, are a match. *)
Lemma match_templates_nonnegative_unit_witness :
  is_match (match_templates (crypto := Toy.crypto) Toy.engine
              (Array (1%R :: 0%R :: repeat 0%R 107))
              (Array (0%R :: 1%R :: repeat 0%R 107)) default_threshold) = true.
Proof.
  assert (Hz : Forall (fun x => 0 <= x)%R (repeat 0%R 107)).
  { apply Forall_forall. intros x Hx. apply repeat_spec in Hx. lra. }
  apply (match_templates_nonnegative_unit (crypto := Toy.crypto)).
  - reflexivity.
  - reflexivity.
  - do 2 (constructor; [lra|]). exact Hz.
  - do 2 (constructor; [lra|]). exact Hz.
  - rewrite norm_sqrt, !sum_squares_cons, sum_squares_zeros.
    replace (1 * 1 + (0 * 0 + 0))%R with 1%R by lra. rewrite sqrt_1. lra.
  - rewrite norm_sqrt, !sum_squares_cons, sum_squares_zeros.
    replace (0 * 0 + (1 * 1 + 0))%R with 1%R by lra. rewrite sqrt_1. lra.
Defined.

Lemma create_transaction_rejected_witness :
  ToyCamera.bank = ToyCamera.bank /\ (400 = 404 \/ 400 = 400)%nat.
Proof.
  exact (create_transaction_rejected "t-1" "ACC1" "withdraw" 500 ToyCamera.bank
           ToyCamera.bank 400 "Insufficient funds" CameraRuns.overdraft_run).
Defined.



Lemma create_transaction_then_get_balance_witness :
  exists body db',
    create_transaction "t-1" "ACC1" "deposit" 50 ToyCamera.bank
    = (Returned body, db') /\
    exists (new_balance : R) (name : string),
      dict_get "balance" body = Some (Py_float new_balance) /\
      get_balance "ACC1" db' =
      (Returned (Py_dict [("account_number", Py_str "ACC1");
                          ("balance", Py_float new_balance);
                          ("name", Py_str name)]%string),
       db').
Proof.
  destruct CameraRuns.deposit_run as (body & db' & E).
  exists body, db'. split; [exact E|].
  exact (create_transaction_then_get_balance "t-1" "ACC1" "deposit" 50
           ToyCamera.bank db' body E).
Defined.

Lemma verify_user_success_witness :
  exists confidence db',
    verify_user (crypto := Toy.crypto) (vision := ToyCamera.lib) None "ACC1"
      ToyCamera.frames ToyCamera.bank
    = (Returned (verified ToyCamera.alice confidence), db') /\
    (3 <= length ToyCamera.frames)%nat /\
    is_live (check_liveness (vision := ToyCamera.lib)
               (map FrameText ToyCamera.frames)) = true /\
    exists user bio_template T stored,
      find_one user_account_number (users ToyCamera.bank) "ACC1" = Some user /\
      find_one template_account_number (biometrics ToyCamera.bank) "ACC1"
      = Some bio_template /\
      create_template (vision := ToyCamera.lib) (map FrameText ToyCamera.frames)
      = Some T /\
      decrypt_template (crypto := Toy.crypto) (bio_engine (crypto := Toy.crypto) None)
        (template_blob bio_template) = Some stored /\
      (normalized_distance (map f32_value stored) (template T) < 0.15)%R /\
      dict_get "user_id" (verified ToyCamera.alice confidence)
      = Some (Py_str (user_id user)).
Proof.
  destruct CameraRuns.verify_run as (confidence & db' & E).
  exists confidence, db'. split; [exact E|].
  exact (verify_user_success (crypto := Toy.crypto) (vision := ToyCamera.lib)
           None "ACC1" ToyCamera.frames ToyCamera.bank db'
           (verified ToyCamera.alice confidence) E eq_refl).
Defined.

Lemma verify_user_two_frames_witness :
  fst (verify_user (crypto := Toy.crypto) (vision := ToyCamera.lib) None "ACC1"
         ["ZA=="; "eA=="]%string ToyCamera.bank)
  = Returned (verify_failed 0.0 "Liveness check failed").
Proof.
  apply (verify_user_two_frames (crypto := Toy.crypto) (vision := ToyCamera.lib)).
  - reflexivity.
  - discriminate.
  - discriminate.
Defined.



Lemma handlers_audit_native_witness :
  (forall new_id random_bytes name account_number email consent frames,
     audit_native
       (snd (enroll_user (crypto := Toy.crypto) (vision := ToyCamera.lib)
               (cast := ToyCamera.cast) None new_id random_bytes name
               account_number email consent frames ToyCamera.bank))) /\
  (forall account_number frames,
     audit_native
       (snd (verify_user (crypto := Toy.crypto) (vision := ToyCamera.lib) None
               account_number frames ToyCamera.bank))) /\
  (forall new_id account_number type amount,
     audit_native
       (snd (create_transaction new_id account_number type amount ToyCamera.bank))) /\
  (forall account_number fingerprint_pin,
     audit_native
       (snd (fallback_verify (hash := ToyCamera.hash) account_number
               fingerprint_pin ToyCamera.bank))).
Proof.
  apply (handlers_audit_native (crypto := Toy.crypto) (vision := ToyCamera.lib)
           (hash := ToyCamera.hash) (cast := ToyCamera.cast) None ToyCamera.bank).
  constructor.
Defined.

Lemma fallback_pin_opens_witness :
  exists pin,
    get_fallback_pin (hash := ToyCamera.hash) "ACC1" =
      Py_dict [("account_number", Py_str "ACC1"); ("demo_pin", Py_str pin)]%string /\
    String.length pin = 6%nat /\
    fst (fallback_verify (hash := ToyCamera.hash) "ACC1" pin ToyCamera.bank) =
    Returned (Py_dict [("success", Py_bool true);
                       ("match", Py_bool true);
                       ("user_id", Py_str (user_id ToyCamera.alice));
                       ("name", Py_str (user_name ToyCamera.alice));
                       ("method", Py_str "fallback_fingerprint")]%string).
Proof.
  apply (fallback_pin_opens (hash := ToyCamera.hash) "ACC1" ToyCamera.bank
           ToyCamera.alice).
  reflexivity.
Defined.
